(* ===== verification/_CoqProject ===== *)
-Q . S2P
Prelude.v
Discretize.v
QTable.v
QAgent.v
Equiv.v
Persistence.v
Schedule.v
Learning.v
Driver.v
Spec.v
Shared.v
Episode.v
NNAgent.v
Train.v
Network.v
