(* ===== verification/Prelude.v ===== *)
(** * A verification development of the Flappy-Bird Q-learning agents

    The program (src/) is a pair of agents for a side-scrolling game in
    which a bird flies through gaps between pipes:
    - [QAgent] (src/agentes/dq_agent.py) turns the game-state dict into a
      5-tuple code ([discretize_state]), keeps a [defaultdict] from codes
      to value vectors (the Q-table), chooses actions epsilon-greedily
      ([act]), applies the Q-learning rule ([update]), decays epsilon
      once per episode ([decay_epsilon]) and pickles the table to disk
      ([save_q_table], [load_q_table], and the constructor's loading
      branch);
    - [NNAgent] (src/agentes/nn_agent.py) answers with the argmax of a
      Keras network applied to the same code, computed by its own copy
      of the discretizer ([get_state]);
    - src/train_q_nn.py loads the pickled table, turns it into the
      arrays [X] (codes) and [y] (value vectors), builds a two-layer
      Keras network, fits it on them and saves it where [NNAgent] loads
      it from.
    A training driver, outside src/, calls [act], [update],
    [decay_epsilon] and the persistence methods on one agent; several
    such learners may train in parallel against one persisted table
    (spec section 5).

    ** Files, modules and their sources
    - [Prelude] (this file): Python exceptions ([exn]), results
      ([outcome]: [Ret] or [Raise]), the state-and-exception monad [PyM]
      of a method (the state survives a raise, as Python mutations do),
      its notations in [py_scope], the numeric builtins the code calls
      ([py_div], [py_int], [max], [np.maximum], [np.clip], [np.sign],
      [np.zeros], [np.max], [np.argmax], [list.index], indexing), their
      lemmas, the hint database [pyq] and the tactics [case_q]/[q_cases].
    - [Discretize], Module [StateDiscretizer]: [QAgent.discretize_state]
      (dq_agent.py 31-80), the seven key reads with [KeyError], the two
      unguarded divisions with [ZeroDivisionError], the thresholds, bins
      and signs; the game state is a [gmap string Q].
    - [QTable], Module [QTable]: the [defaultdict] as a [gmap code (list
      Q)] with the zero-vector factory ([dd_getitem] inserts on a miss),
      [in], item assignment, the copies to and from [dict]; the width
      invariant [table_wf]; the equivalence [read_equiv] (same reads once
      defaults are filled in) with its [Proper] instances.
    - [QAgent], Module [DQAgent]: the [QAgent] record (one field per
      attribute), [act] and [update], each a [PyM] function that follows
      the method line by line.  [np.random] is the class [NpRandom] (a
      draw in [[0,1)], an index below [n]) with its laws [NpRandomLaws];
      the theorems hold for every lawful generator, and a linear
      congruential generator on [Z] instantiates it for the witnesses.
    - [Equiv], Module [AgentEquiv]: agents equal up to the zero rows
      the [defaultdict] materialises ([agent_equiv], an [Equivalence]),
      and [act]/[update] as morphisms for it.
    - [Persistence], Module [Persistence]: the file system (a [gmap
      string file], a file holding a pickled table or other bytes),
      [QAgent_init], [save_q_table], [load_q_table]; the save/load
      round trip (also through the constructor), the error handling of
      [load_q_table], and a save interrupted after its truncating
      [open].
    - [Schedule], Module [Schedule]: [decay_epsilon] and the epsilon
      schedule.
    - [Learning]: repeated [update]s: boundedness of the values and the
      convergence of the rule on a self-loop transition.
    - [Driver]: the training driver (from the spec) as a step relation
      [step] on worlds (agent, generator, file system), one rule per
      method call, returning or raising; the invariant [world_inv] by
      rule induction over [rtc step].
    - [Spec], Module [LearnerSpec]: the learner's contract of spec
      section 4.2 as a labelled transition relation [aspec] on abstract
      states (a total value table, zero by default), the driver's calls
      with their results as labels ([lstep]), the abstraction [abstr]
      of a world (tables read through the default), and the forward
      simulation between them.
    - [Shared], Module [Shared]: learners in parallel on one file
      system (spec section 5), as a pool of learner processes (each a
      [QAgent] and its own generator) in which the learner at one index
      makes one labelled call ([cstep]); any interleaving is a run.
    - [Episode]: one episode of the driver (from the spec) as a loop
      with fuel over an [Environment] interface: [act], the
      environment's step, [update], and [decay_epsilon] at the end.
    - [NNAgent], Module [NN]: [NNAgent.get_state] and [NNAgent.act]; the
      model's call may raise; the shared capability [act] as the class
      [Agent] with an instance per agent.
    - [Train]: lines 7-20 of train_q_nn.py ([training_data]).
    - [Network]: the Keras model of train_q_nn.py lines 22-41 ([Dense]
      layers with their shape checks, [Sequential], relu and linear),
      building and fitting as the interface [Keras] with the law that
      they keep the architecture, the whole script ([train_script]), and
      [NNAgent.__init__] loading the saved archive ([NNAgent_init]).

    ** What the theorems show
    - [update] implements the Q-learning rule on exactly one cell, keeps
      the width invariant, and raises (with its mutations left behind, as
      in Python) exactly on the errors of its reads; the zero vector the
      first read of a code stores is the one a later [update] writes
      into and a later read returns (QAgent).
    - [act] exploits with first-index tie-breaking, explores through
      [np.random.choice], never raises on a well-formed agent, and is
      deterministic when [epsilon <= 0] (QAgent).
    - The discretizer's codes stay in range; it raises [KeyError] for the
      first missing key and [ZeroDivisionError] exactly on a zero gap or
      equal pipe distances (Discretize).
    - The default schedule is [max(0.01, 0.995^k)], at the floor from the
      919th decay on; every schedule with [decay < 1] reaches its floor;
      the constructor accepts any hyper-parameters, and with
      [epsilon_decay > 1] a decay raises epsilon above its start
      (Schedule).
    - Saving and loading round-trip, also through the constructor; a
      missing file is recovered as an empty table, an unreadable one
      raises; [save_q_table] is the run of its two effects, and the
      state between the truncating [open] and the dump cannot be read
      (Persistence).
    - Along any run of the driver the invariant holds, epsilon never
      increases and [act] never raises (Driver); an episode of a
      well-formed agent in an environment whose episodes end and whose
      observations discretize completes without an exception on any
      fuel above the environment's rank, and decays epsilon exactly once
      (Episode); values stay
      bounded and converge to [r / (1 - gamma)] on a self-loop
      (Learning).
    - [act] and [update] give the same outcome on agents that differ
      only by materialised zero rows (Equiv); every trace of calls of
      the code, with their results, is a trace of the spec's learner
      on the abstraction, as long as every file is a pickled table of
      the right width (Spec).
    - Learners with the same actions keep the driver's invariant under
      any interleaving of their calls on the shared files; saving and
      loading are no transaction: two learners that restore one
      snapshot and both save lose the first one's update, which the
      serial order keeps; a learner with other actions restores a
      snapshot without an error and its greedy [act] can then raise
      [IndexError] (Shared).
    - The network agent refines the greedy table agent when it
      reproduces the table, and picks the table's best action when its
      error is below half the margin (NNAgent); the training arrays are
      exactly the saved table (Train); the agent built from the
      script's saved model calls the model [fit] returned and answers
      every discretizable state with one of its two actions, while the
      SavedModel directory the script's last message names holds
      nothing (Network).

    ** Idealisations, bounds and fuel
    Floats are exact rationals [Q]: the thresholds ([0.3], [0.66], ...)
    are the decimals the source writes, and rounding is not modelled.
    Integer codes are small (0..3) and need no machine width.  No
    definition of src/ needs fuel: every loop of the code is over a
    finite list ([foldl], [Nat.iter] for a given number of calls), so
    every function is total.  Only the episode loop of the driver, whose
    end depends on the environment, takes fuel; its termination theorem
    shows that fuel above the environment's rank suffices, and more fuel
    changes nothing.  The liveness results (the schedule reaches its
    floor, the rule converges) are stated as the existence of a bound.
    [pickle] is the identity on tables (its byte format is not modelled).  The Keras
    model's forward pass is modelled, but weight initialisation and the
    Adam optimiser of [model.fit] are an interface with one law (the
    architecture is kept): their numerics are a library's.  The
    [.keras] archives are a map of their own beside the file system of
    the pickled tables (the paths differ).  Printing, the game,
    rendering and keyboard input are not modelled (they have no effect
    on the agents' state or are outside src/). *)

From Stdlib Require Import QArith Qround Qabs Lqa.
From stdpp Require Import base list gmap strings.

(** ** Python exceptions and outcomes

    The modelled code is Python.  An operation either returns a value or
    raises one of the exceptions below; side effects performed before the
    exception stay visible (Python has no rollback), so stateful code is
    modelled in [PyM], which threads the state through raises too. *)

Inductive exn : Type :=
  | KeyError (key : string)   (** [state['...']] on a missing key *)
  | ZeroDivisionError         (** float division by zero *)
  | ValueError                (** [list.index] miss, [np.argmax]/[np.max]/[np.random.choice] of an empty array *)
  | IndexError                (** numpy or list index out of range *)
  | UnpicklingError           (** [pickle.load] of bytes that are not a pickled dict ([EOFError] on an empty file) *)
  | FileNotFoundError.        (** [open(path, 'rb')] on a missing file *)

#[export] Instance exn_eq_dec : EqDecision exn.
Proof. solve_decision. Defined.

Inductive outcome (A : Type) : Type :=
  | Ret (a : A)
  | Raise (e : exn).
Arguments Ret {A} a.
Arguments Raise {A} e.

Definition obind {A B} (o : outcome A) (k : A -> outcome B) : outcome B :=
  match o with Ret a => k a | Raise e => Raise e end.

Definition ofmap {A B} (f : A -> B) (o : outcome A) : outcome B :=
  match o with Ret a => Ret (f a) | Raise e => Raise e end.

(** The state-and-exception monad of the methods of a Python object. *)
Definition PyM (S A : Type) : Type := S -> outcome A * S.

Definition pret {S A} (a : A) : PyM S A := fun s => (Ret a, s).
Definition pbind {S A B} (m : PyM S A) (k : A -> PyM S B) : PyM S B :=
  fun s => match m s with
           | (Ret a, s') => k a s'
           | (Raise e, s') => (Raise e, s')
           end.
Definition praise {S A} (e : exn) : PyM S A := fun s => (Raise e, s).
Definition pget {S} : PyM S S := fun s => (Ret s, s).
Definition pput {S} (s : S) : PyM S unit := fun _ => (Ret tt, s).
Definition plift {S A} (o : outcome A) : PyM S A := fun s => (o, s).

Declare Scope py_scope.
Delimit Scope py_scope with py.
Notation "'let?' x ':=' o 'in' k" := (obind o (fun x => k))
  (at level 10, x ident, o at level 100, k at level 200) : py_scope.
Notation "'let!' x ':=' m 'in' k" := (pbind m (fun x => k))
  (at level 10, x ident, m at level 100, k at level 200) : py_scope.
Notation "m '>>!' k" := (pbind m (fun _ => k))
  (at level 100, right associativity) : py_scope.
Open Scope py_scope.

(** ** Python and numpy scalar operations on floats

    A Python or numpy float is modelled as a rational [Q] (see the header
    for what this idealisation keeps and loses). *)

Open Scope Q_scope.

(** Rationals are compared by [Qeq]: make it the relation [setoid_replace]
    uses by default (stdpp's [(≡)] default does not apply to [Q]). *)
#[export] Instance Qeq_default_relation : DefaultRelation Qeq | 0 := {}.

(** [x < y] and [x == y] as the booleans Python computes. *)
Definition Qltb (x y : Q) : bool := negb (Qle_bool y x).
Definition Qeqb (x y : Q) : bool := Qeq_bool x y.

(** [x / y] on floats: [ZeroDivisionError] when [y == 0]. *)
Definition py_div (x y : Q) : outcome Q :=
  if Qeqb y 0 then Raise ZeroDivisionError else Ret (x / y).

(** [int(b)] of a bool. *)
Definition py_bool_int (b : bool) : Z := if b then 1%Z else 0%Z.

(** [int(x)] of a float truncates towards zero. *)
Definition py_int (q : Q) : Z := if Qle_bool 0 q then Qfloor q else Qceiling q.

(** [max(a, b)] (builtin): the first argument unless the second is larger. *)
Definition py_max (a b : Q) : Q := if Qltb a b then b else a.

(** [np.maximum], [np.minimum] on two scalars. *)
Definition np_maximum (a b : Q) : Q := if Qltb a b then b else a.
Definition np_minimum (a b : Q) : Q := if Qltb b a then b else a.

(** [np.clip(a, lo, hi)] = [np.minimum(np.maximum(a, lo), hi)]. *)
Definition np_clip (a lo hi : Q) : Q := np_minimum (np_maximum a lo) hi.

(** [np.sign(x)] as the integer [-1], [0] or [1]. *)
Definition np_sign (q : Q) : Z :=
  match Qcompare q 0 with Lt => (-1)%Z | Eq => 0%Z | Gt => 1%Z end.

(** [x ** n] by repeated multiplication. *)
Fixpoint qpow (q : Q) (n : nat) : Q :=
  match n with O => 1 | S n' => q * qpow q n' end.

(** ** numpy vectors and Python lists

    A numpy float vector is a [list Q]; its length never changes. *)

(** [np.zeros(n)]. *)
Definition np_zeros (n : nat) : list Q := replicate n 0.

(** [v[i]] for a vector or a list: [IndexError] out of range. *)
Definition py_getitem {A} (v : list A) (i : nat) : outcome A :=
  match v !! i with Some x => Ret x | None => Raise IndexError end.

(** [v[i] = x] on a numpy vector: [IndexError] out of range. *)
Definition np_setitem (v : list Q) (i : nat) (x : Q) : outcome (list Q) :=
  if decide (i < length v)%nat then Ret (<[i:=x]> v) else Raise IndexError.

(** [np.max(v)]: [ValueError] on an empty vector. *)
Definition np_max (v : list Q) : outcome Q :=
  match v with
  | [] => Raise ValueError
  | x :: xs => Ret (foldl np_maximum x xs)
  end.

(** [np.argmax(v)]: the first index holding the maximum (the running best
    is replaced only by a strictly larger value); [ValueError] on empty. *)
Fixpoint argmax_from (xs : list Q) (i best : nat) (bv : Q) : nat :=
  match xs with
  | [] => best
  | x :: xs' =>
      if Qltb bv x then argmax_from xs' (S i) i x else argmax_from xs' (S i) best bv
  end.

Definition np_argmax (v : list Q) : outcome nat :=
  match v with
  | [] => Raise ValueError
  | x :: xs => Ret (argmax_from xs 1 0 x)
  end.

(** [l.index(x)]: the first position of [x], [ValueError] if absent. *)
Fixpoint list_index {A} `{EqDecision A} (x : A) (l : list A) : outcome nat :=
  match l with
  | [] => Raise ValueError
  | y :: l' => if decide (x = y) then Ret 0%nat else ofmap S (list_index x l')
  end.

(** ** Automation shared by the development *)

Create HintDb pyq.

(** Turn the boolean comparisons of the model into [Q] propositions. *)
Lemma Qltb_iff (x y : Q) : Qltb x y = true <-> x < y.
Proof.
  unfold Qltb. rewrite negb_true_iff.
  split; intros H.
  - apply Qnot_le_lt. intros Hle. apply Qle_bool_iff in Hle. congruence.
  - destruct (Qle_bool y x) eqn:E; [|done]. apply Qle_bool_iff in E. lra.
Qed.

Lemma Qltb_false (x y : Q) : Qltb x y = false <-> y <= x.
Proof.
  unfold Qltb. rewrite negb_false_iff. apply Qle_bool_iff.
Qed.

Lemma Qeqb_iff (x y : Q) : Qeqb x y = true <-> x == y.
Proof. apply Qeq_bool_iff. Qed.

Lemma Qeqb_false (x y : Q) : Qeqb x y = false <-> ~ x == y.
Proof.
  unfold Qeqb. split.
  - apply Qeq_bool_neq.
  - intros H. destruct (Qeq_bool x y) eqn:E; [|done]. by apply Qeq_bool_iff in E.
Qed.

(** [case_q b] splits on a boolean comparison [b] of the goal and
    records the matching [Q] fact. *)
Ltac case_q b :=
  let E := fresh "Ecmp" in
  destruct b eqn:E;
  [ first [ apply Qltb_iff in E | apply Qeqb_iff in E | apply Qle_bool_iff in E | idtac ]
  | first [ apply Qltb_false in E | apply Qeqb_false in E | idtac ] ].

(** Case on every [Qltb]/[Qeqb]/[Qle_bool] test in the goal, then close
    the arithmetic by [lra]. *)
Ltac q_cases :=
  repeat match goal with
         | |- context [Qltb ?x ?y] => case_q (Qltb x y)
         | |- context [Qeqb ?x ?y] => case_q (Qeqb x y)
         end.

(** ** Scalar lemmas *)

Lemma py_div_ok (x y : Q) : ~ y == 0 -> py_div x y = Ret (x / y).
Proof. intros H. unfold py_div. by rewrite (proj2 (Qeqb_false y 0) H). Qed.

Lemma py_div_zero (x y : Q) : y == 0 -> py_div x y = Raise ZeroDivisionError.
Proof. intros H. unfold py_div. by rewrite (proj2 (Qeqb_iff y 0) H). Qed.

Lemma np_maximum_ge_l (a b : Q) : a <= np_maximum a b.
Proof. unfold np_maximum. q_cases; lra. Qed.

Lemma np_maximum_ge_r (a b : Q) : b <= np_maximum a b.
Proof. unfold np_maximum. q_cases; lra. Qed.

Lemma np_maximum_cases (a b : Q) : np_maximum a b = a \/ np_maximum a b = b.
Proof. unfold np_maximum. destruct (Qltb a b); auto. Qed.

Lemma py_max_ge_l (a b : Q) : a <= py_max a b.
Proof. unfold py_max. q_cases; lra. Qed.

Lemma py_max_ge_r (a b : Q) : b <= py_max a b.
Proof. unfold py_max. q_cases; lra. Qed.

Lemma py_max_l (a b : Q) : b <= a -> py_max a b = a.
Proof. intros H. unfold py_max. q_cases; [lra | done]. Qed.

Lemma py_max_r (a b : Q) : a < b -> py_max a b = b.
Proof. intros H. unfold py_max. q_cases; [done | lra]. Qed.

(** [py_max] is the mathematical maximum (up to [==]). *)
Lemma py_max_lub (a b c : Q) : a <= c -> b <= c -> py_max a b <= c.
Proof. unfold py_max. q_cases; lra. Qed.

Lemma np_clip_bounds (a lo hi : Q) : lo <= hi -> lo <= np_clip a lo hi <= hi.
Proof. unfold np_clip, np_minimum, np_maximum. q_cases; lra. Qed.

(** On a non-negative float, [int] is the floor. *)
Lemma py_int_nonneg (q : Q) : 0 <= q -> py_int q = Qfloor q.
Proof. intros H. unfold py_int. by rewrite (proj2 (Qle_bool_iff 0 q) H). Qed.

#[export] Hint Resolve np_maximum_ge_l np_maximum_ge_r py_max_ge_l py_max_ge_r : pyq.

(** ** Vector and list lemmas *)

Lemma py_getitem_ok {A} (v : list A) i x : v !! i = Some x -> py_getitem v i = Ret x.
Proof. intros H. unfold py_getitem. by rewrite H. Qed.

Lemma py_getitem_lt {A} (v : list A) i : (i < length v)%nat -> exists x, py_getitem v i = Ret x /\ v !! i = Some x.
Proof.
  intros H. destruct (lookup_lt_is_Some_2 v i H) as [x Hx].
  exists x. by rewrite (py_getitem_ok v i x Hx).
Qed.

Lemma np_setitem_ok (v : list Q) i x : (i < length v)%nat -> np_setitem v i x = Ret (<[i:=x]> v).
Proof. intros H. unfold np_setitem. by rewrite decide_True. Qed.

Lemma np_zeros_length n : length (np_zeros n) = n.
Proof. apply length_replicate. Qed.

(** The invariant of the [np.argmax] scan: after reading the prefix [p],
    [best] holds a maximum of [p] and every earlier element is smaller. *)
Definition argmax_inv (p : list Q) (best : nat) (bv : Q) : Prop :=
  p !! best = Some bv /\
  (forall j x, p !! j = Some x -> x <= bv) /\
  (forall j x, (j < best)%nat -> p !! j = Some x -> x < bv).

Lemma argmax_inv_snoc (p : list Q) best bv x :
  argmax_inv p best bv ->
  if Qltb bv x then argmax_inv (p ++ [x]) (length p) x else argmax_inv (p ++ [x]) best bv.
Proof.
  intros (Hb & Hle & Hlt). pose proof (lookup_lt_Some _ _ _ Hb) as Hbl.
  case_q (Qltb bv x); repeat split.
  - apply lookup_snoc_Some. by right.
  - intros j y [[_ Hj] | [_ <-]]%lookup_snoc_Some; [|lra].
    specialize (Hle j y Hj). lra.
  - intros j y Hj [[_ Hy] | [-> _]]%lookup_snoc_Some; [|lia].
    specialize (Hle j y Hy). lra.
  - apply lookup_snoc_Some. left. split; [lia | done].
  - intros j y [[_ Hj] | [_ <-]]%lookup_snoc_Some; [by eauto | lra].
  - intros j y Hj [[_ Hy] | [-> _]]%lookup_snoc_Some; [by eauto | lia].
Qed.

Lemma argmax_from_inv (xs p : list Q) best bv :
  argmax_inv p best bv ->
  exists m, argmax_inv (p ++ xs) (argmax_from xs (length p) best bv) m.
Proof.
  revert p best bv. induction xs as [|x xs IH]; intros p best bv Hinv; simpl.
  - exists bv. by rewrite app_nil_r.
  - pose proof (argmax_inv_snoc p best bv x Hinv) as Hs.
    replace (S (length p)) with (length (p ++ [x])) by (rewrite length_app; simpl; lia).
    replace (p ++ x :: xs) with ((p ++ [x]) ++ xs) by by rewrite <- app_assoc.
    destruct (Qltb bv x); by apply IH.
Qed.

(** [np.argmax] returns the lowest index of a maximal element. *)
Lemma np_argmax_spec (v : list Q) :
  v <> [] -> exists i m, np_argmax v = Ret i /\ argmax_inv v i m.
Proof.
  destruct v as [|x xs]; [done|]. intros _.
  destruct (argmax_from_inv xs [x] 0 x) as [m Hm].
  - split; [done|]. split; [|intros j y Hj; lia].
    intros j y Hj. apply list_lookup_singleton_Some in Hj as [_ ->]. lra.
  - exists (argmax_from xs 1 0 x), m. by split.
Qed.

Lemma np_argmax_lt (v : list Q) i : np_argmax v = Ret i -> (i < length v)%nat.
Proof.
  intros Hi. destruct v as [|x xs]; [done|].
  destruct (np_argmax_spec (x :: xs)) as (i' & m & Hi' & Hb & _); [done|].
  rewrite Hi in Hi'. injection Hi' as ->. by eapply lookup_lt_Some.
Qed.

Lemma foldl_np_maximum_ge (xs : list Q) (a : Q) :
  a <= foldl np_maximum a xs /\ forall x, x ∈ xs -> x <= foldl np_maximum a xs.
Proof.
  revert a. induction xs as [|x xs IH]; intros a; simpl.
  - split; [lra | by intros ? ?%not_elem_of_nil].
  - destruct (IH (np_maximum a x)) as [H1 H2]. split.
    + pose proof (np_maximum_ge_l a x). lra.
    + intros y [->|Hy]%elem_of_cons; [|by apply H2].
      pose proof (np_maximum_ge_r a x). lra.
Qed.

Lemma foldl_np_maximum_elem (xs : list Q) (a : Q) :
  foldl np_maximum a xs = a \/ foldl np_maximum a xs ∈ xs.
Proof.
  revert a. induction xs as [|x xs IH]; intros a; simpl; [by left|].
  destruct (IH (np_maximum a x)) as [-> | H]; [|right; by right].
  destruct (np_maximum_cases a x) as [-> | ->]; [by left | right; by left].
Qed.

(** [np.max] returns an element that bounds every element. *)
Lemma np_max_spec (v : list Q) :
  v <> [] -> exists m, np_max v = Ret m /\ m ∈ v /\ forall x, x ∈ v -> x <= m.
Proof.
  destruct v as [|a xs]; [done|]. intros _. exists (foldl np_maximum a xs).
  destruct (foldl_np_maximum_ge xs a) as [H1 H2]. repeat split.
  - destruct (foldl_np_maximum_elem xs a) as [-> | H]; [by left | by right].
  - intros x [->|Hx]%elem_of_cons; [done | by apply H2].
Qed.

(** [l.index(x)] succeeds exactly when [x] is in [l], with the first
    position of [x], and raises [ValueError] otherwise. *)
Lemma list_index_ok {A} `{EqDecision A} (x : A) (l : list A) i :
  list_index x l = Ret i <-> l !! i = Some x /\ forall j, (j < i)%nat -> l !! j <> Some x.
Proof.
  revert i. induction l as [|y l IH]; intros i; simpl.
  - split; [done|]. by intros [? _].
  - case_decide as Hxy; subst.
    + split.
      * intros [= <-]. split; [done | lia].
      * intros [Hi Hlt]. destruct i as [|i]; [done|]. by specialize (Hlt 0%nat ltac:(lia)).
    + destruct (list_index x l) as [k|e] eqn:E; simpl.
      * split.
        -- intros [= <-]. destruct (proj1 (IH k) eq_refl) as [Hk Hlt]. split; [done|].
           intros [|j] Hj; simpl; [congruence|]. apply Hlt. lia.
        -- intros [Hi Hlt]. destruct i as [|i]; simpl in Hi; [congruence|].
           assert (Ret k = Ret i) as [= ->]; [|done].
           apply IH. split; [done|]. intros j Hj. apply (Hlt (S j)). lia.
      * split; [done|]. intros [Hi Hlt]. destruct i as [|i]; simpl in Hi; [congruence|].
        assert (@Raise nat e = Ret i); [|done].
        apply IH. split; [done|]. intros j Hj. apply (Hlt (S j)). lia.
Qed.

Lemma list_index_raise {A} `{EqDecision A} (x : A) (l : list A) e :
  list_index x l = Raise e <-> (x ∉ l) /\ e = ValueError.
Proof.
  induction l as [|y l IH]; simpl.
  - split; [intros [= <-]; split; [apply not_elem_of_nil | done] | by intros [_ ->]].
  - case_decide as Hxy; subst.
    + split; [done|]. intros [H _]. by destruct H; left.
    + destruct (list_index x l) as [k|e'] eqn:E; simpl.
      * split; [done|]. intros [Hn _]. exfalso. apply Hn. right.
        apply list_index_ok in E as [Hk _]. by eapply list_elem_of_lookup_2.
      * rewrite IH, not_elem_of_cons. tauto.
Qed.

(** ** Powers of a rate in [0, 1]

    The exploration schedule and the convergence of the temporal-difference
    rule both contract geometrically; these lemmas are shared by both. *)

Lemma qpow_nonneg (c : Q) n : 0 <= c -> 0 <= qpow c n.
Proof.
  intros Hc. induction n as [|n IH]; simpl; [lra|]. by apply Qmult_le_0_compat.
Qed.

Lemma qpow_le_1 (c : Q) n : 0 <= c <= 1 -> qpow c n <= 1.
Proof.
  intros Hc. induction n as [|n IH]; simpl; [lra|].
  pose proof (qpow_nonneg c n (proj1 Hc)).
  apply (Qle_trans _ (1 * qpow c n)); [apply Qmult_le_compat_r; lra | lra].
Qed.

Lemma qpow_anti (c : Q) m n : 0 <= c <= 1 -> (m <= n)%nat -> qpow c n <= qpow c m.
Proof.
  intros Hc Hmn. induction Hmn as [|n Hmn IH]; [lra|]. simpl.
  pose proof (qpow_nonneg c n (proj1 Hc)).
  apply (Qle_trans _ (1 * qpow c n)); [apply Qmult_le_compat_r; lra | lra].
Qed.

Lemma qpow_add (c : Q) m n : qpow c (m + n) == qpow c m * qpow c n.
Proof.
  induction m as [|m IH]; simpl; [ring|]. rewrite IH. ring.
Qed.

(** Bernoulli's inequality, in the form [c^n * (1 + n (1 - c)) <= 1]. *)
Lemma qpow_bernoulli (c : Q) n :
  0 <= c <= 1 -> qpow c n * (1 + inject_Z (Z.of_nat n) * (1 - c)) <= 1.
Proof.
  intros Hc. induction n as [|n IH]; cbn [qpow].
  { change (inject_Z (Z.of_nat 0)) with 0. lra. }
  set (k := inject_Z (Z.of_nat n)). fold k in IH.
  replace (inject_Z (Z.of_nat (S n))) with (k + 1)
    by (unfold k; rewrite Nat2Z.inj_succ, <- Z.add_1_r, inject_Z_plus; reflexivity).
  assert (0 <= k) by (unfold k; change 0 with (inject_Z 0); rewrite <- Zle_Qle; lia).
  pose proof (qpow_nonneg c n (proj1 Hc)) as Hp.
  assert (c * (1 + (k + 1) * (1 - c)) <= 1 + k * (1 - c)) as Hstep.
  { assert (0 <= (k + 1) * ((1 - c) * (1 - c))) by
      (apply Qmult_le_0_compat; [lra | apply Qmult_le_0_compat; lra]).
    setoid_replace (1 + k * (1 - c))
      with (c * (1 + (k + 1) * (1 - c)) + (k + 1) * ((1 - c) * (1 - c))) by ring.
    lra. }
  apply (Qle_trans _ (qpow c n * (1 + k * (1 - c)))); [|done].
  setoid_replace (c * qpow c n * (1 + (k + 1) * (1 - c)))
    with (qpow c n * (c * (1 + (k + 1) * (1 - c)))) by ring.
  rewrite !(Qmult_comm (qpow c n)). by apply Qmult_le_compat_r.
Qed.

(** A geometric sequence with ratio below one eventually stays below any
    positive bound: for [0 <= c < 1], [0 <= K] and [0 < eps], from some [N]
    on, [K * c^n <= eps]. *)
Lemma qpow_eventually_small (c K eps : Q) :
  0 <= c < 1 -> 0 <= K -> 0 < eps ->
  exists N, forall n, (N <= n)%nat -> K * qpow c n <= eps.
Proof.
  intros Hc HK He.
  set (d := 1 - c).
  exists (Z.to_nat (Qceiling (K / (eps * d)))). intros n Hn.
  set (k := inject_Z (Z.of_nat n)).
  assert (0 < d) by (unfold d; lra).
  assert (K / (eps * d) <= k) as Hk.
  { apply (Qle_trans _ (inject_Z (Qceiling (K / (eps * d))))); [apply Qle_ceiling|].
    unfold k. rewrite <- Zle_Qle. lia. }
  assert (K <= k * (eps * d)) as Hk'.
  { assert (Hb : 0 < eps * d) by (by apply Qmult_lt_0_compat).
    setoid_replace K with (K / (eps * d) * (eps * d)) at 1 by (field; split; lra).
    apply Qmult_le_compat_r; lra. }
  pose proof (qpow_bernoulli c n ltac:(lra)) as Hb. fold k d in Hb.
  pose proof (qpow_nonneg c n (proj1 Hc)) as Hp.
  (* K c^n <= eps k d c^n <= eps (1 + k d) c^n <= eps *)
  assert (K * qpow c n <= eps * (qpow c n * (1 + k * d))) as H1.
  { assert (0 <= k) by (unfold k; change 0 with (inject_Z 0); rewrite <- Zle_Qle; lia).
    apply (Qle_trans _ (k * (eps * d) * qpow c n)); [by apply Qmult_le_compat_r|].
    assert (0 <= eps * qpow c n) by (apply Qmult_le_0_compat; lra).
    setoid_replace (k * (eps * d) * qpow c n) with (eps * qpow c n * (k * d)) by ring.
    setoid_replace (eps * (qpow c n * (1 + k * d))) with (eps * qpow c n * (1 + k * d)) by ring.
    rewrite !(Qmult_comm (eps * qpow c n)). apply Qmult_le_compat_r; [lra | done]. }
  apply (Qle_trans _ _ _ H1).
  setoid_replace eps with (eps * 1) at 2 by ring.
  rewrite !(Qmult_comm eps). apply Qmult_le_compat_r; lra.
Qed.

(** ** State combinators *)

(** Run a method on the first component of a pair of states. *)
Definition lift_fst {S T A} (m : PyM S A) : PyM (S * T) A :=
  fun st => let '(o, s') := m st.1 in (o, (s', st.2)).

Definition pmodify {S} (f : S -> S) : PyM S unit := fun s => (Ret tt, f s).

Lemma pbind_ret {S A B} (a : A) (k : A -> PyM S B) s : pbind (pret a) k s = k a s.
Proof. done. Qed.

Lemma pbind_lift_ret {S A B} (a : A) (k : A -> PyM S B) s : pbind (plift (Ret a)) k s = k a s.
Proof. done. Qed.

Lemma pbind_lift_raise {S A B} e (k : A -> PyM S B) s : pbind (plift (Raise e)) k s = (Raise e, s).
Proof. done. Qed.

#[export] Instance py_max_proper : Proper (Qeq ==> Qeq ==> Qeq) py_max.
Proof. intros a a' Ha b b' Hb. unfold py_max. q_cases; lra. Qed.

(** One step of [max(m, e * d)] applied to an iterate [max(m, x)]: the
    floor absorbs the decayed floor when [0 <= m] and [0 <= d <= 1]. *)
Lemma py_max_decay_step (m x d : Q) :
  0 <= m -> 0 <= d <= 1 ->
  py_max m (py_max m x * d) == py_max m (x * d).
Proof.
  intros Hm Hd.
  assert (m * d <= m * 1) by (apply Qmult_le_compat_nonneg; lra).
  unfold py_max at 2. case_q (Qltb m x).
  - reflexivity.
  - assert (x * d <= m * d) by (apply Qmult_le_compat_r; lra).
    unfold py_max. q_cases; lra.
Qed.

(** [np.argmax] is stable under perturbation: if [w] is within [delta]
    of [v] entrywise and [v] has an entry [k] beating every other entry by
    more than [2 * delta], then [np.argmax(w)] is [k]. *)
Lemma np_argmax_margin (v w : list Q) (delta vk : Q) (k : nat) :
  Forall2 (fun x y => Qabs (x - y) <= delta) v w ->
  v !! k = Some vk ->
  (forall j x, j <> k -> v !! j = Some x -> x + 2 * delta < vk) ->
  np_argmax w = Ret k.
Proof.
  intros Hvw Hk Hgap.
  assert (Hw : forall j x, v !! j = Some x -> exists y, w !! j = Some y /\ x - delta <= y <= x + delta).
  { intros j x Hj. destruct (Forall2_lookup_l _ _ _ _ _ Hvw Hj) as (y & Hy & Hxy).
    exists y. split; [done|]. apply Qabs_diff_Qle_condition in Hxy. lra. }
  destruct (Hw k vk Hk) as (wk & Hwk & Hwk').
  destruct (np_argmax_spec w) as (i & m & Hi & Him & Hle & _).
  { intros ->. inversion Hvw; subst. by rewrite lookup_nil in Hk. }
  rewrite Hi. f_equal. destruct (decide (i = k)) as [|Hne]; [done|]. exfalso.
  destruct (Forall2_lookup_r _ _ _ _ _ Hvw Him) as (x & Hx & Hxm).
  apply Qabs_diff_Qle_condition in Hxm.
  specialize (Hgap i x Hne Hx). specialize (Hle k wk Hwk). lra.
Qed.

Lemma Qmult_le_mono_nonneg_l (z x y : Q) : 0 <= z -> x <= y -> z * x <= z * y.
Proof. intros Hz Hxy. rewrite !(Qmult_comm z). by apply Qmult_le_compat_r. Qed.
