(* ===== verification/Discretize.v ===== *)
(** * The state discretizer of the Q-learning agent

    [QAgent.discretize_state] (src/agentes/dq_agent.py, lines 31-80): the
    game-state dictionary produced by the environment is reduced to a
    5-tuple of small integers, the key of the Q-table.  This file models
    the dictionary, the reads of its seven keys, the arithmetic of the
    feature engineering with its two unguarded divisions, and proves the
    range of every feature, the exact conditions under which the function
    raises, and that it respects equality of rationals. *)

From Stdlib Require Import QArith Qround Lqa.
From stdpp Require Import base list gmap strings.
From S2P Require Import Prelude.

Open Scope Q_scope.

Module StateDiscretizer.

(** The game state as the environment hands it over: a Python dict from
    key names to floats. *)
Abbreviation game_state := (gmap string Q).

(** The discrete state: [(player_pos, player_vel_bin, trend, player_zone,
    dist_zone)], a tuple of Python ints. *)
Definition code : Type := (Z * Z * Z * Z * Z)%type.

(** [state['k']]: [KeyError] when the key is missing. *)
Definition dict_getitem (state : game_state) (k : string) : outcome Q :=
  match state !! k with Some v => Ret v | None => Raise (KeyError k) end.

Definition discretize_state (state : game_state) : outcome code :=
  let? player_y := dict_getitem state "player_y" in
  let? player_vel := dict_getitem state "player_vel" in
  let? pipe_dist := dict_getitem state "next_pipe_dist_to_player" in
  let? next_pipe_dist := dict_getitem state "next_next_pipe_dist_to_player" in
  let? pipe_top_y := dict_getitem state "next_pipe_top_y" in
  let? pipe_bottom_y := dict_getitem state "next_pipe_bottom_y" in
  let? next_pipe_top_y := dict_getitem state "next_next_pipe_top_y" in
  let pipe_center_y := (pipe_top_y + pipe_bottom_y) / 2 in
  let pipe_gap_height := pipe_bottom_y - pipe_top_y in
  let player_pos := py_bool_int (Qltb pipe_center_y player_y) in
  let? player_relative_y := py_div (player_y - pipe_center_y) pipe_gap_height in
  let player_zone :=
    if Qltb (3 # 10) player_relative_y then 2%Z
    else if Qltb player_relative_y (-3 # 10) then 0%Z
    else 1%Z in
  let? pipe_dist_norm := py_div pipe_dist (next_pipe_dist - pipe_dist) in
  let dist_zone :=
    if Qltb (66 # 100) pipe_dist_norm then 2%Z
    else if Qltb (33 # 100) pipe_dist_norm then 1%Z
    else 0%Z in
  let pipe_height_trend := np_sign (next_pipe_top_y - pipe_top_y) in
  let player_vel_norm := (player_vel + 10) / 20 in
  let player_vel_bin := py_int (np_clip (player_vel_norm * 4) 0 3) in
  Ret (player_pos, player_vel_bin, py_bool_int (Z.leb 0 pipe_height_trend),
       player_zone, dist_zone).

(** The seven keys the function reads, in the order it reads them. *)
Definition state_keys : list string :=
  ["player_y"; "player_vel"; "next_pipe_dist_to_player";
   "next_next_pipe_dist_to_player"; "next_pipe_top_y"; "next_pipe_bottom_y";
   "next_next_pipe_top_y"].

(** A game state with the seven keys bound to the given floats (the
    environment's dict may hold more keys; the function ignores them). *)
Definition mk_state (y vel pd npd top bot ntop : Q) : game_state :=
  <["player_y" := y]> (<["player_vel" := vel]> (<["next_pipe_dist_to_player" := pd]>
  (<["next_next_pipe_dist_to_player" := npd]> (<["next_pipe_top_y" := top]>
  (<["next_pipe_bottom_y" := bot]> {["next_next_pipe_top_y" := ntop]}))))).


(** ** Concrete game states *)

(** A state in the middle of the gap, next pipe at 100 px, the one after
    at 244 px, terrain going up. *)
Definition sample_state : game_state := mk_state 250 (-3) 100 244 200 300 150.
(** The bird 40 px below the centre of a 100 px gap. *)
Definition low_state : game_state := mk_state 290 5 100 244 200 300 250.
(** Two pipes at the same distance: the unguarded division. *)
Definition same_dist_state : game_state := mk_state 250 0 100 100 200 300 150.

(** The seven reads of [discretize_state] succeed with these values. *)
Definition reads (st : game_state) (y vel pd npd top bot ntop : Q) : Prop :=
  st !! "player_y" = Some y /\ st !! "player_vel" = Some vel /\
  st !! "next_pipe_dist_to_player" = Some pd /\
  st !! "next_next_pipe_dist_to_player" = Some npd /\
  st !! "next_pipe_top_y" = Some top /\ st !! "next_pipe_bottom_y" = Some bot /\
  st !! "next_next_pipe_top_y" = Some ntop.

(** ** Helper lemmas *)

(** Unfold the function and the reads of the keys named by hypotheses. *)
Ltac disc_unfold :=
  unfold discretize_state, dict_getitem;
  repeat match goal with
         | H : ?st !! ?k = Some _ |- context [?st !! ?k] => rewrite H
         | H : ?st !! ?k = None |- context [?st !! ?k] => rewrite H
         end;
  cbn [obind].

(** Destruct every read and division of a run of [discretize_state]. *)
Ltac disc_destruct H :=
  unfold discretize_state, dict_getitem in H;
  repeat match type of H with
         | context [match ?st !! ?k with _ => _ end] =>
             destruct (st !! k) eqn:?; cbn [obind] in H; [|discriminate H]
         | context [py_div ?a ?b] =>
             destruct (py_div a b) eqn:?; cbn [obind] in H; [|discriminate H]
         end.

Lemma py_div_Ret (a b r : Q) : py_div a b = Ret r -> ~ b == 0 /\ r = a / b.
Proof.
  unfold py_div. case_q (Qeqb b 0); [discriminate | by intros [= <-]].
Qed.

(** The bin of a clipped, truncated float lies in the clip interval. *)
Lemma py_int_clip_range (x : Q) : (0 <= py_int (np_clip x 0 3) <= 3)%Z.
Proof.
  pose proof (np_clip_bounds x 0 3 ltac:(lra)) as [H0 H3].
  rewrite py_int_nonneg by done.
  split.
  - change 0%Z with (Qfloor 0). by apply Qfloor_resp_le.
  - change 3%Z with (Qfloor 3). by apply Qfloor_resp_le.
Qed.

Lemma py_bool_int_range (b : bool) : (0 <= py_bool_int b <= 1)%Z.
Proof. destruct b; simpl; lia. Qed.

#[export] Hint Resolve py_int_clip_range py_bool_int_range : pyq.

(** [discretize_state] raises only [KeyError] or [ZeroDivisionError]. *)
Lemma discretize_state_raise_kinds (st : game_state) e :
  discretize_state st = Raise e -> e = ZeroDivisionError \/ exists k, e = KeyError k.
Proof.
  unfold discretize_state, dict_getitem, py_div. intros Hr.
  repeat (case_match; cbn [obind] in Hr; simplify_eq; eauto).
Qed.

(** ** Properties *)

(** [int(np.clip(x, 0, 3))] clamps the floor of [x] into [0..3]. *)
Lemma py_int_clip_floor (x : Q) : py_int (np_clip x 0 3) = Z.min 3 (Z.max 0 (Qfloor x)).
Proof.
  pose proof (Qfloor_le x) as Hf. pose proof (Qlt_floor x) as Hl.
  rewrite py_int_nonneg by (apply np_clip_bounds; lra).
  unfold np_clip, np_minimum, np_maximum. case_q (Qltb x 0).
  - assert (Qfloor x < 0)%Z by (rewrite Zlt_Qlt; change (inject_Z 0) with 0; lra).
    replace (Qltb 3 0) with false by reflexivity. change (Qfloor 0) with 0%Z. lia.
  - case_q (Qltb 3 x).
    + assert (3 <= Qfloor x)%Z by (change 3%Z with (Qfloor 3); apply Qfloor_resp_le; lra).
      change (Qfloor 3) with 3%Z. lia.
    + assert (0 <= Qfloor x)%Z by (change 0%Z with (Qfloor 0); apply Qfloor_resp_le; lra).
      assert (Qfloor x <= 3)%Z by (change 3%Z with (Qfloor 3); apply Qfloor_resp_le; lra).
    lia.
Qed.

(** The velocity bin is the clamped floor of [(player_vel + 10) / 5]. *)
Lemma vel_bin_floor (st : game_state) vel pos vb tr zone dz :
  st !! "player_vel" = Some vel ->
  discretize_state st = Ret (pos, vb, tr, zone, dz) ->
  vb = Z.min 3 (Z.max 0 (Qfloor ((vel + 10) / 5))).
Proof.
  intros Hv H. disc_destruct H. injection H as _ <- _ _ _.
  simplify_eq.
  rewrite py_int_clip_floor, (Qfloor_comp ((vel + 10) / 20 * 4) ((vel + 10) / 5)) by field.
  reflexivity.
Qed.

(** C23: Every feature of a discrete state lies in its range:
    [player_pos] and the terrain trend are 0 or 1, the velocity bin is in
    [0..3], the player zone and the distance zone are in [0..2] (so the
    Q-table has at most 2*4*2*3*3 = 144 keys).  The velocity bin is the
    floor of [(player_vel + 10) / 5] clamped into [0..3]: velocities in
    [[-10, 10)] fall in four bins of width 5, and every velocity outside
    that range falls in an extreme bin. *)
Theorem discretize_state_range (st : game_state) pos vb tr zone dz :
  discretize_state st = Ret (pos, vb, tr, zone, dz) ->
  (0 <= pos <= 1)%Z /\ (0 <= vb <= 3)%Z /\ (0 <= tr <= 1)%Z /\
  (0 <= zone <= 2)%Z /\ (0 <= dz <= 2)%Z /\
  (forall vel, st !! "player_vel" = Some vel -> vb = Z.min 3 (Z.max 0 (Qfloor ((vel + 10) / 5)))).
Proof.
  intros H. split_and!; [..|intros vel Hv; exact (vel_bin_floor st vel pos vb tr zone dz Hv H)];
    disc_destruct H; injection H as <- <- <- <- <-;
    first [apply py_bool_int_range | apply py_int_clip_range | repeat case_match; lia].
Qed.


(** C25: When a key is missing, [discretize_state] raises [KeyError] for
    the first key of [state_keys] (the order of the reads in the source)
    that the dict lacks, and this is the only way it raises [KeyError]. *)
Theorem discretize_state_keyerror (st : game_state) (k : string) :
  discretize_state st = Raise (KeyError k) <->
  exists i, state_keys !! i = Some k /\ st !! k = None /\
    forall j k', (j < i)%nat -> state_keys !! j = Some k' -> is_Some (st !! k').
Proof.
  split.
  - intros H. unfold discretize_state, dict_getitem in H.
    repeat match type of H with
           | context [match st !! ?k0 with _ => _ end] =>
               destruct (st !! k0) eqn:?; cbn [obind] in H
           end;
      [ revert H; unfold py_div; repeat case_match; discriminate
      | injection H as <- .. ];
      let rec try_i n := first [exists n; split; [reflexivity|] | try_i (S n)] in
      try_i 0%nat;
      split; [done|]; intros j k' Hj Hk';
      do 7 (destruct j as [|j]; [simpl in Hk'; injection Hk' as <-; first [lia | by eexists]|]); lia.
  - intros (i & Hi & Hk & Hpre).
    assert (Hp : forall k', k' ∈ take i state_keys -> is_Some (st !! k')).
    { intros k' [j Hj]%list_elem_of_lookup. apply lookup_take_Some in Hj as [Hj Hji].
      by apply (Hpre j). }
    unfold discretize_state, dict_getitem.
    destruct i as [|[|[|[|[|[|[|i]]]]]]]; simpl in Hi; try discriminate Hi;
      injection Hi as <-;
      repeat match goal with
             | |- context [match st !! ?k' with _ => _ end] =>
                 first [rewrite Hk | destruct (Hp k' ltac:(simpl; set_solver)) as [? ->]];
                 cbn [obind]
             end; done.
Qed.



Lemma mk_state_reads y vel pd npd top bot ntop :
  reads (mk_state y vel pd npd top bot ntop) y vel pd npd top bot ntop.
Proof. repeat split. Qed.

Lemma Qdiv_sign (a g : Q) : 0 < g -> (0 < a / g -> 0 < a) /\ (a / g < 0 -> a < 0).
Proof.
  intros Hg. pose proof (Qinv_lt_0_compat g Hg) as Hi. unfold Qdiv. split; intros H.
  - apply Qnot_le_lt. intros Ha.
    pose proof (Qmult_le_compat_r a 0 (/ g) Ha ltac:(lra)). lra.
  - apply Qnot_le_lt. intros Ha.
    pose proof (Qmult_le_0_compat a (/ g) Ha ltac:(lra)). lra.
Qed.




(** C24: Once the seven keys are present, [discretize_state] raises exactly
    when one of its two unguarded divisions has a zero divisor: the gap
    height [bottom - top] of the next pipe, or the distance between the
    next two pipes [next_next_pipe_dist - next_pipe_dist]; the exception is
    [ZeroDivisionError].  The source has no guard for either case. *)
Theorem discretize_state_raise_iff (st : game_state) y vel pd npd top bot ntop e :
  reads st y vel pd npd top bot ntop ->
  discretize_state st = Raise e <->
  e = ZeroDivisionError /\ (bot - top == 0 \/ npd - pd == 0).
Proof.
  intros (H1 & H2 & H3 & H4 & H5 & H6 & H7). disc_unfold. unfold py_div.
  case_q (Qeqb (bot - top) 0); cbn [obind].
  - split; [intros [= <-]; split; [done | tauto] | by intros [-> _]].
  - case_q (Qeqb (npd - pd) 0); cbn [obind].
    + split; [intros [= <-]; split; [done | tauto] | by intros [-> _]].
    + split; [done | intros [_ [? | ?]]; tauto].
Qed.



(** C26: The player zone and [player_pos] agree: when the gap of the next
    pipe is positive ([top < bottom], screen coordinates grow downwards),
    zone 2 implies [player_pos = 1] (the bird is below the gap centre) and
    zone 0 implies [player_pos = 0].  So zone 2 is the zone {i below} the
    centre, although the source comments it as "Arriba del centro". *)
Theorem discretize_state_zone_pos (st : game_state) top bot pos vb tr zone dz :
  st !! "next_pipe_top_y" = Some top -> st !! "next_pipe_bottom_y" = Some bot ->
  top < bot ->
  discretize_state st = Ret (pos, vb, tr, zone, dz) ->
  (zone = 2%Z -> pos = 1%Z) /\ (zone = 0%Z -> pos = 0%Z).
Proof.
  intros Ht Hb Hlt H. disc_destruct H. injection H as <- _ _ <- _.
  simplify_eq.
  repeat match goal with E : py_div _ _ = Ret _ |- _ => apply py_div_Ret in E as [_ ->] end.
  match goal with |- context [(?y - ?c) / ?g] =>
    destruct (Qdiv_sign (y - c) g ltac:(lra)) as [Hp Hn] end.
  unfold py_bool_int. split; q_cases; intros; try discriminate;
    first [done | lra | specialize (Hp ltac:(lra)); lra | specialize (Hn ltac:(lra)); lra].
Qed.

(** ** Witnesses *)

Lemma discretize_state_range_witness :
  discretize_state sample_state = Ret (0, 1, 0, 1, 2)%Z /\
  (0 <= 0 <= 1)%Z /\ (0 <= 1 <= 3)%Z /\ (0 <= 0 <= 1)%Z /\ (0 <= 1 <= 2)%Z /\ (0 <= 2 <= 2)%Z /\
  (forall vel, sample_state !! "player_vel" = Some vel -> 1%Z = Z.min 3 (Z.max 0 (Qfloor ((vel + 10) / 5)))).
Proof.
  split; [reflexivity|]. apply (discretize_state_range sample_state). reflexivity.
Defined.

Lemma discretize_state_raise_iff_witness :
  discretize_state same_dist_state = Raise ZeroDivisionError /\
  (ZeroDivisionError = ZeroDivisionError /\ (300 - 200 == 0 \/ 100 - 100 == 0)).
Proof.
  split; [reflexivity|].
  apply (discretize_state_raise_iff same_dist_state 250 0 100 100 200 300 150).
  - apply mk_state_reads.
  - reflexivity.
Defined.

Lemma discretize_state_zone_pos_witness :
  discretize_state low_state = Ret (1, 3, 1, 2, 2)%Z /\
  ((2 = 2 -> 1 = 1) /\ (2 = 0 -> 1 = 0))%Z.
Proof.
  split; [reflexivity|].
  apply (discretize_state_zone_pos low_state 200 300 1 3 1 2 2);
    [reflexivity | reflexivity | lra | reflexivity].
Defined.

Lemma discretize_state_keyerror_witness :
  discretize_state (delete "player_vel" sample_state) = Raise (KeyError "player_vel").
Proof.
  apply discretize_state_keyerror. exists 1%nat.
  split; [reflexivity|]. split; [reflexivity|].
  intros [|j] k' Hj Hk; [|lia]. injection Hk as <-. eexists; reflexivity.
Defined.

End StateDiscretizer.
