(* ===== verification/QTable.v ===== *)
(** * The Q-table: a [defaultdict] from discrete states to value vectors

    [QAgent.q_table] (src/agentes/dq_agent.py, lines 23, 27, 29, 89,
    100-109, 123, 134, 138) is a [collections.defaultdict] whose factory is
    [lambda: np.zeros(len(self.actions))]: reading a missing key inserts a
    fresh zero vector.  This file models the table as a finite map with
    the factory's width, its four operations (read with default, [in],
    write, copy to and from a plain dict), the width invariant, and the
    equivalence "same values once defaults are filled in" under which
    the reads are morphisms. *)

From Stdlib Require Import QArith Lqa.
From stdpp Require Import base list gmap.
From S2P Require Import Prelude Discretize.

Open Scope Q_scope.

Module QTable.
Import StateDiscretizer.

(** The table's contents: the dict underneath the [defaultdict].  Every
    vector is its own numpy array (each is created by its own
    [np.zeros] call or unpickled from such a table), so a map of values
    models the heap without aliasing. *)
Abbreviation qtable := (gmap code (list Q)).

(** [self.q_table[c]] on the [defaultdict]: an absent key is first bound
    to [np.zeros(n)], [n = len(self.actions)]. *)
Definition dd_getitem (n : nat) (c : code) (t : qtable) : list Q * qtable :=
  match t !! c with
  | Some v => (v, t)
  | None => (np_zeros n, <[c := np_zeros n]> t)
  end.

(** [c in self.q_table]: no insertion. *)
Definition dd_contains (c : code) (t : qtable) : bool :=
  bool_decide (is_Some (t !! c)).

(** [self.q_table[c] = v]. *)
Definition dd_setitem (c : code) (v : list Q) (t : qtable) : qtable := <[c := v]> t.

(** [defaultdict(factory, q_dict)] copies the pairs of [q_dict];
    [dict(self.q_table)] copies them back.  Both keep every pair. *)
Definition defaultdict_of_dict (q_dict : qtable) : qtable := q_dict.
Definition dict_of_defaultdict (t : qtable) : qtable := t.

(** The width invariant: every vector present has one entry per action. *)
Definition table_wf (n : nat) (t : qtable) : Prop :=
  map_Forall (fun _ v => length v = n) t.

#[export] Instance table_wf_dec n t : Decision (table_wf n t).
Proof. unfold table_wf. apply _. Defined.

(** Two tables are read-equivalent when every read through the default
    yields the same vector: they differ at most by keys bound to
    [np.zeros(n)] in one and absent from the other. *)
Definition read_equiv (n : nat) (t1 t2 : qtable) : Prop :=
  forall c, default (np_zeros n) (t1 !! c) = default (np_zeros n) (t2 !! c).


(** The table after [if c not in t: t[c] = np.zeros(n)]. *)
Definition ensured (n : nat) (c : code) (t : qtable) : qtable :=
  if dd_contains c t then t else dd_setitem c (np_zeros n) t.


(** ** Reads and writes *)

Lemma dd_getitem_hit (n : nat) (c : code) (t : qtable) v : t !! c = Some v -> dd_getitem n c t = (v, t).
Proof. intros H. unfold dd_getitem. by rewrite H. Qed.

Lemma dd_getitem_miss (n : nat) (c : code) (t : qtable) :
  t !! c = None -> dd_getitem n c t = (np_zeros n, <[c := np_zeros n]> t).
Proof. intros H. unfold dd_getitem. by rewrite H. Qed.

(** After a read, the key is bound to the vector the read returned. *)
Lemma dd_getitem_lookup (n : nat) (c : code) (t : qtable) :
  (dd_getitem n c t).2 !! c = Some (dd_getitem n c t).1.
Proof. unfold dd_getitem. destruct (t !! c) eqn:E; simpl; [done | by simplify_map_eq]. Qed.

(** A read changes no other key. *)
Lemma dd_getitem_other (n : nat) (c c' : code) (t : qtable) :
  c <> c' -> (dd_getitem n c t).2 !! c' = t !! c'.
Proof. intros H. unfold dd_getitem. destruct (t !! c); simpl; [done | by simplify_map_eq]. Qed.

(** The read returns the stored vector or, for a fresh key, zeros. *)
Lemma dd_getitem_value (n : nat) (c : code) (t : qtable) :
  (dd_getitem n c t).1 = default (np_zeros n) (t !! c).
Proof. unfold dd_getitem. by destruct (t !! c). Qed.

Lemma dd_contains_spec (c : code) (t : qtable) : dd_contains c t = true <-> is_Some (t !! c).
Proof. unfold dd_contains. apply bool_decide_eq_true. Qed.

Lemma table_wf_insert (n : nat) (c : code) (v : list Q) (t : qtable) :
  table_wf n t -> length v = n -> table_wf n (<[c := v]> t).
Proof. intros Ht Hv. by apply map_Forall_insert_2. Qed.

Lemma table_wf_lookup (n : nat) (c : code) (v : list Q) (t : qtable) : table_wf n t -> t !! c = Some v -> length v = n.
Proof. intros Ht Hc. exact (Ht c v Hc). Qed.

Lemma table_wf_empty (n : nat) : table_wf n ∅.
Proof. apply map_Forall_empty. Qed.

#[export] Hint Resolve table_wf_insert table_wf_empty np_zeros_length : pyq.


(** ** Read-equivalence: filling in defaults is invisible to reads *)

#[export] Instance read_equiv_equivalence (n : nat) : Equivalence (read_equiv n).
Proof.
  split.
  - by intros t c.
  - intros t1 t2 H c. by rewrite H.
  - intros t1 t2 t3 H12 H23 c. by rewrite H12.
Qed.

#[export] Instance dd_getitem_proper (n : nat) (c : code) :
  Proper (read_equiv n ==> prod_relation eq (read_equiv n)) (dd_getitem n c).
Proof.
  intros t1 t2 H. split; simpl.
  - rewrite !dd_getitem_value. apply H.
  - intros c'. destruct (decide (c = c')) as [<-|Hne].
    + by rewrite !dd_getitem_lookup; simpl; rewrite !dd_getitem_value.
    + rewrite !dd_getitem_other by done. apply H.
Qed.

#[export] Instance dd_setitem_proper (n : nat) (c : code) (v : list Q) :
  Proper (read_equiv n ==> read_equiv n) (dd_setitem c v).
Proof.
  intros t1 t2 H c'. unfold dd_setitem.
  destruct (decide (c = c')) as [<-|Hne]; [by simplify_map_eq | by rewrite !lookup_insert_ne].
Qed.

(** A read only fills in a default: the table after it is read-equivalent
    to the table before. *)
Lemma dd_getitem_read_equiv (n : nat) (c : code) (t : qtable) :
  read_equiv n (dd_getitem n c t).2 t.
Proof.
  intros c'. destruct (decide (c = c')) as [<-|Hne].
  - by rewrite dd_getitem_lookup, dd_getitem_value.
  - by rewrite dd_getitem_other.
Qed.

(** A read keeps the width invariant and returns a row of that width. *)
Lemma dd_getitem_width (n : nat) (c : code) (t : qtable) :
  table_wf n t -> length (dd_getitem n c t).1 = n /\ table_wf n (dd_getitem n c t).2.
Proof.
  intros Ht. unfold dd_getitem. destruct (t !! c) as [v|] eqn:E; simpl.
  - split; [by eapply table_wf_lookup | done].
  - split; auto with pyq.
Qed.

(** A second read of the same key returns the same vector, unchanged. *)
Lemma dd_getitem_idem (n : nat) (c : code) (t : qtable) :
  dd_getitem n c (dd_getitem n c t).2 = dd_getitem n c t.
Proof.
  rewrite (dd_getitem_hit n c _ _ (dd_getitem_lookup n c t)).
  by destruct (dd_getitem n c t).
Qed.

(** ** Properties *)

(** The first read of an unseen key returns [np.zeros(n)] and inserts
    it; a second read of the same key returns that same vector and changes
    nothing (the read is idempotent). *)
Lemma dd_getitem_auto_insert (n : nat) (c : code) (t : qtable) :
  (t !! c = None -> dd_getitem n c t = (np_zeros n, <[c := np_zeros n]> t)) /\
  dd_getitem n c (dd_getitem n c t).2 = dd_getitem n c t.
Proof.
  split; [apply dd_getitem_miss | apply dd_getitem_idem].
Qed.



Lemma ensured_lookup (n : nat) (c : code) (t : qtable) :
  ensured n c t !! c = Some (dd_getitem n c t).1.
Proof.
  rewrite dd_getitem_value. unfold ensured, dd_setitem.
  destruct (dd_contains c t) eqn:E.
  - apply dd_contains_spec in E as [v Hv]. by rewrite Hv.
  - destruct (t !! c) eqn:Ht; [|by simplify_map_eq].
    exfalso. assert (is_Some (t !! c)) as Hs%dd_contains_spec by by eexists. congruence.
Qed.

Lemma ensured_other (n : nat) (c c' : code) (t : qtable) :
  c <> c' -> ensured n c t !! c' = t !! c'.
Proof.
  intros Hne. unfold ensured, dd_setitem. destruct (dd_contains c t); [done|].
  by rewrite lookup_insert_ne.
Qed.

Lemma ensured_read_equiv (n : nat) (c : code) (t : qtable) : read_equiv n (ensured n c t) t.
Proof.
  intros c'. destruct (decide (c = c')) as [<-|Hne].
  - by rewrite ensured_lookup, dd_getitem_value.
  - by rewrite ensured_other.
Qed.

Lemma ensured_wf (n : nat) (c : code) (t : qtable) : table_wf n t -> table_wf n (ensured n c t).
Proof.
  intros Ht. unfold ensured, dd_setitem. destruct (dd_contains c t); auto with pyq.
Qed.

Lemma ensured_dom (n : nat) (c : code) (t : qtable) : dom (ensured n c t) = {[c]} ∪ dom t.
Proof.
  unfold ensured, dd_setitem. destruct (dd_contains c t) eqn:E.
  - apply dd_contains_spec, elem_of_dom in E. set_solver.
  - by rewrite dom_insert_L.
Qed.

#[export] Hint Resolve ensured_wf : pyq.

End QTable.
