(* ===== verification/QAgent.v ===== *)
(** * The tabular Q-learning agent

    [QAgent] (src/agentes/dq_agent.py): its fields, the epsilon-greedy
    [act] and the temporal-difference [update], with their theorems.
    The constructor, [save_q_table] and [load_q_table] are in
    Persistence.v, [decay_epsilon] in Schedule.v.  [np.random] is an
    interface ([NpRandom]) with its laws ([NpRandomLaws]); the theorems
    are proved against the interface and a linear congruential generator
    instantiates it for the witnesses. *)

From Stdlib Require Import QArith Lqa.
From stdpp Require Import base list gmap strings.
From S2P Require Import Prelude Discretize QTable.

Open Scope Q_scope.

(** ** [np.random]: the interface the agent draws from *)

Class NpRandom (G : Type) := {
  np_rand : G -> Q * G;                  (** [np.random.rand()] *)
  np_choice_index : nat -> G -> nat * G  (** the position [np.random.choice] draws among [n] *)
}.

Class NpRandomLaws (G : Type) `{NpRandom G} := {
  np_rand_range : forall g, 0 <= (np_rand g).1 < 1;
  np_choice_index_lt : forall n g, (0 < n)%nat -> ((np_choice_index n g).1 < n)%nat
}.

Module DQAgent.
Import StateDiscretizer QTable.

Section Agent.
Context {A : Type} `{EqDecision A}.

(** The attributes of a [QAgent]; [actions] is set by the base class
    [Agent.__init__] (src/agentes/base.py is not in the sources). *)
Record QAgent : Type := mkQAgent {
  actions : list A;
  lr : Q;
  gamma : Q;
  epsilon : Q;
  epsilon_decay : Q;
  min_epsilon : Q;
  q_table : qtable
}.

Definition set_q_table (self : QAgent) (t : qtable) : QAgent :=
  mkQAgent (actions self) (lr self) (gamma self) (epsilon self)
           (epsilon_decay self) (min_epsilon self) t.

Definition set_epsilon (self : QAgent) (e : Q) : QAgent :=
  mkQAgent (actions self) (lr self) (gamma self) e
           (epsilon_decay self) (min_epsilon self) (q_table self).

(** The factory's width, [len(self.actions)]. *)
Definition width (self : QAgent) : nat := length (actions self).

(** [self.q_table[c]] as a method step: may insert a default. *)
Definition self_getitem (c : code) : PyM QAgent (list Q) :=
  fun self => let '(v, t') := dd_getitem (width self) c (q_table self) in
              (Ret v, set_q_table self t').

(** [if c not in self.q_table: self.q_table[c] = np.zeros(len(self.actions))] *)
Definition ensure_key (c : code) : PyM QAgent unit :=
  fun self =>
    if dd_contains c (q_table self) then (Ret tt, self)
    else (Ret tt, set_q_table self (dd_setitem c (np_zeros (width self)) (q_table self))).

(** ** [act] *)

Section Act.
Context {G : Type} `{NpRandom G}.

(** [np.random.rand()] advances the global generator. *)
Definition random_rand : PyM (QAgent * G) Q :=
  fun w => let '(u, g') := np_rand w.2 in (Ret u, (w.1, g')).

(** [np.random.choice(l)]: [ValueError] on an empty list. *)
Definition random_choice (l : list A) : PyM (QAgent * G) A :=
  fun w => match l with
           | [] => (Raise ValueError, w)
           | _ => let '(i, g') := np_choice_index (length l) w.2 in (py_getitem l i, (w.1, g'))
           end.

Definition act (state : game_state) : PyM (QAgent * G) A :=
  let! discrete_state := plift (discretize_state state) in
  let! u := random_rand in
  let! w := pget in
  if Qltb u (epsilon w.1) then random_choice (actions w.1)
  else
    let! q_values := lift_fst (self_getitem discrete_state) in
    let! i := plift (np_argmax q_values) in
    plift (py_getitem (actions w.1) i).

End Act.

(** ** [update] *)

Definition update (state : game_state) (action : A) (reward : Q)
    (next_state : game_state) (done : bool) : PyM QAgent unit :=
  let! discrete_state := plift (discretize_state state) in
  let! discrete_next_state := plift (discretize_state next_state) in
  let! self := pget in
  let! action_idx := plift (list_index action (actions self)) in
  ensure_key discrete_state >>!
  ensure_key discrete_next_state >>!
  let! v := self_getitem discrete_state in
  let! current_q := plift (py_getitem v action_idx) in
  let! max_future_q :=
    (if done then pret 0
     else let! v' := self_getitem discrete_next_state in plift (np_max v')) in
  let new_q := current_q + lr self * (reward + gamma self * max_future_q - current_q) in
  let! row := self_getitem discrete_state in
  let! row' := plift (np_setitem row action_idx new_q) in
  pmodify (fun s => set_q_table s (dd_setitem discrete_state row' (q_table s))).

End Agent.
Arguments QAgent : clear implicits.


(** ** A concrete generator: a linear congruential generator *)

Definition lcg_next (g : Z) : Z := ((1103515245 * g + 12345) mod 2147483648)%Z.

#[export] Instance lcg_random : NpRandom Z := {
  np_rand g := let g' := lcg_next g in (inject_Z g' / inject_Z 2147483648, g');
  np_choice_index n g := let g' := lcg_next g in (Z.to_nat (g' mod Z.of_nat n), g')
}.

Lemma lcg_next_range g : (0 <= lcg_next g < 2147483648)%Z.
Proof. unfold lcg_next. apply Z.mod_pos_bound. lia. Qed.

#[export] Instance lcg_random_laws : NpRandomLaws Z.
Proof.
  split.
  - intros g. simpl. pose proof (lcg_next_range g) as [H0 H1]. split.
    + apply Qle_shift_div_l; [reflexivity|]. rewrite Qmult_0_l.
      change 0 with (inject_Z 0). by rewrite <- Zle_Qle.
    + apply Qlt_shift_div_r; [reflexivity|]. rewrite Qmult_1_l. by rewrite <- Zlt_Qlt.
  - intros n g Hn. simpl.
    assert (0 <= lcg_next g mod Z.of_nat n < Z.of_nat n)%Z by (apply Z.mod_pos_bound; lia).
    lia.
Qed.


(** ** Concrete agents for the witnesses *)

(** The two actions of the game: flap (key [119], 'w') and do nothing. *)
Definition flap_actions : list nat := [119%nat; 0%nat].
(** An agent with the source's default hyper-parameters and an empty table. *)
Definition agent0 : QAgent nat := mkQAgent flap_actions (1 # 10) (99 # 100) 1 (995 # 1000) (1 # 100) ∅.
(** The same agent with exploration switched off. *)
Definition greedy0 : QAgent nat := mkQAgent flap_actions (1 # 10) (99 # 100) 0 (995 # 1000) (1 # 100) ∅.
Definition code0 : code := (0, 1, 0, 1, 2)%Z.
Definition code1 : code := (1, 3, 1, 2, 2)%Z.

(** An agent that loaded a table saved by a one-action agent. *)
Definition short_agent : QAgent nat := set_q_table agent0 {[code0 := [5]]}.

(** ** Helper lemmas *)

Section Proofs.
Context {A : Type} `{EqDecision A}.
Implicit Types self : QAgent A.

Lemma set_q_table_id self : set_q_table self (q_table self) = self.
Proof. by destruct self. Qed.

Lemma set_q_table_twice self t t' : set_q_table (set_q_table self t) t' = set_q_table self t'.
Proof. done. Qed.

Lemma ensure_key_run (c : code) self :
  ensure_key c self = (Ret tt, set_q_table self (ensured (width self) c (q_table self))).
Proof. unfold ensure_key, ensured. destruct (dd_contains c (q_table self)); by rewrite ?set_q_table_id. Qed.

Lemma self_getitem_run (c : code) self :
  self_getitem c self =
  (Ret (dd_getitem (width self) c (q_table self)).1,
   set_q_table self (dd_getitem (width self) c (q_table self)).2).
Proof. unfold self_getitem. by destruct (dd_getitem _ _ _). Qed.

Lemma self_getitem_hit (c : code) self v :
  q_table self !! c = Some v -> self_getitem c self = (Ret v, self).
Proof.
  intros H. rewrite self_getitem_run, (dd_getitem_hit _ _ _ _ H). simpl.
  by rewrite set_q_table_id.
Qed.

Lemma list_index_lt (a : A) (l : list A) i : list_index a l = Ret i -> (i < length l)%nat.
Proof. intros [H _]%list_index_ok. by eapply lookup_lt_Some. Qed.

(** The run of [update] when both states discretize and the action is
    known, on a table of the right width: it returns, and its only effect
    is to fill the two keys with defaults and rewrite one cell. *)
Lemma update_run self (s : game_state) (a : A) (r : Q) (s' : game_state) (d : bool) ds dns idx :
  table_wf (width self) (q_table self) ->
  discretize_state s = Ret ds -> discretize_state s' = Ret dns ->
  list_index a (actions self) = Ret idx ->
  let n := width self in
  let t2 := ensured n dns (ensured n ds (q_table self)) in
  let row (c : code) := (dd_getitem n c (q_table self)).1 in
  exists cur fut,
    row ds !! idx = Some cur /\
    (if d then fut = 0 else np_max (row dns) = Ret fut) /\
    update s a r s' d self =
      (Ret tt, set_q_table self
         (dd_setitem ds (<[idx := cur + lr self * (r + gamma self * fut - cur)]> (row ds)) t2)).
Proof.
  intros Hwf Hds Hdns Hidx n t2 row.
  pose proof (list_index_lt _ _ _ Hidx) as Hlt. fold (width self) n in Hlt.
  assert (Hrow : forall c, length (row c) = n) by (intros c; apply (dd_getitem_width n c _ Hwf)).
  assert (Ht2 : forall c, c = ds \/ c = dns -> t2 !! c = Some (row c)).
  { intros c Hc. unfold t2. destruct (decide (dns = c)) as [<-|Hne].
    - rewrite ensured_lookup, !dd_getitem_value. unfold row. rewrite dd_getitem_value.
      f_equal. apply (ensured_read_equiv n ds (q_table self) dns).
    - rewrite ensured_other by done. destruct Hc as [-> | ->]; [|done]. apply ensured_lookup. }
  destruct (py_getitem_lt (row ds) idx ltac:(by rewrite Hrow)) as (cur & Hcur & Hcur').
  destruct (np_max_spec (row dns)) as (m & Hm & _).
  { intros E. pose proof (Hrow dns) as L. rewrite E in L. simpl in L. lia. }
  exists cur, (if d then 0 else m). split; [done|]. split; [by destruct d|].
  unfold update, pbind, plift, pget, pret, pmodify at 1.
  rewrite Hds, Hdns, Hidx, !ensure_key_run, set_q_table_twice.
  rewrite (self_getitem_hit ds _ (row ds)) by (apply Ht2; by left).
  cbn [q_table set_q_table]. rewrite Hcur.
  destruct d.
  - rewrite (self_getitem_hit ds _ (row ds)) by (apply Ht2; by left).
    rewrite np_setitem_ok by (rewrite Hrow; lia). reflexivity.
  - rewrite (self_getitem_hit dns _ (row dns)) by (apply Ht2; by right).
    cbn [q_table set_q_table]. rewrite Hm.
    rewrite (self_getitem_hit ds _ (row ds)) by (apply Ht2; by left).
    rewrite np_setitem_ok by (rewrite Hrow; lia). reflexivity.
Qed.


(** The rows read through the default after a successful [update]. *)
Lemma update_rows self (s : game_state) (a : A) (r : Q) (s' : game_state) (d : bool) ds dns idx :
  table_wf (width self) (q_table self) ->
  discretize_state s = Ret ds -> discretize_state s' = Ret dns ->
  list_index a (actions self) = Ret idx ->
  let n := width self in
  let row (t : qtable) (c : code) := (dd_getitem n c t).1 in
  exists cur fut t',
    update s a r s' d self = (Ret tt, set_q_table self t') /\
    row (q_table self) ds !! idx = Some cur /\
    (if d then fut = 0 else np_max (row (q_table self) dns) = Ret fut) /\
    (forall c, row t' c =
       if decide (c = ds) then <[idx := cur + lr self * (r + gamma self * fut - cur)]> (row (q_table self) ds)
       else row (q_table self) c) /\
    dom t' = {[ds]} ∪ {[dns]} ∪ dom (q_table self).
Proof.
  intros Hwf Hds Hdns Hidx n row.
  destruct (update_run self s a r s' d ds dns idx Hwf Hds Hdns Hidx) as (cur & fut & Hcur & Hfut & Hrun).
  eexists cur, fut, _. split; [exact Hrun|]. split; [done|]. split; [done|]. split.
  - intros c. unfold row. rewrite !dd_getitem_value. unfold dd_setitem. case_decide as Hc.
    + subst c. by simplify_map_eq.
    + rewrite lookup_insert_ne by done.
      rewrite (ensured_read_equiv n dns _ c), (ensured_read_equiv n ds _ c). done.
  - unfold dd_setitem. rewrite dom_insert_L, !ensured_dom. set_solver.
Qed.


(** Every run of [update] on a table of the right width either succeeds,
    replacing only the table by one of the same width, or raises one of
    the three errors before any mutation. *)
Lemma update_cases self (s : game_state) (a : A) (r : Q) (s' : game_state) (d : bool) :
  table_wf (width self) (q_table self) ->
  (exists t', update s a r s' d self = (Ret tt, set_q_table self t') /\ table_wf (width self) t') \/
  (exists e, update s a r s' d self = (Raise e, self) /\
     (e = ValueError \/ e = ZeroDivisionError \/ exists k, e = KeyError k)).
Proof.
  intros Hwf.
  destruct (discretize_state s) as [ds|e] eqn:Hds;
    [| right; exists e; split; [by unfold update, pbind, plift; rewrite Hds
                               | apply discretize_state_raise_kinds in Hds; tauto]].
  destruct (discretize_state s') as [dns|e] eqn:Hdns;
    [| right; exists e; split; [by unfold update, pbind, plift; rewrite Hds, Hdns
                               | apply discretize_state_raise_kinds in Hdns; tauto]].
  destruct (list_index a (actions self)) as [idx|e] eqn:Hidx;
    [| right; exists e; split; [by unfold update, pbind, plift, pget; rewrite Hds, Hdns, Hidx
                               | apply list_index_raise in Hidx as [_ ->]; tauto]].
  left. destruct (update_run self s a r s' d ds dns idx Hwf Hds Hdns Hidx)
    as (cur & fut & Hcur & _ & Hrun).
  eexists. split; [exact Hrun|]. unfold dd_setitem.
  apply table_wf_insert; [by do 2 apply ensured_wf|].
  rewrite length_insert. by apply dd_getitem_width.
Qed.

(** ** Properties of [update] *)

(** C1: The temporal-difference rule.  When both game states discretize,
    to [ds] and [dns], and the action is at index [idx] of [actions], then
    on a table of the right width [update] returns, and afterwards: the
    row [ds] read through the default is the old row with entry [idx]
    replaced by [cur + lr * (reward + gamma * fut - cur)], where [cur] is
    the old entry and [fut] is [0] when [done] and the maximum of the
    old row [dns] otherwise; every other row reads as before; the keys of
    the table are the old ones plus [ds] and [dns]; no other attribute
    changes. *)
Theorem update_spec self (s : game_state) (a : A) (r : Q) (s' : game_state) (d : bool) ds dns idx :
  table_wf (width self) (q_table self) ->
  discretize_state s = Ret ds -> discretize_state s' = Ret dns ->
  list_index a (actions self) = Ret idx ->
  let n := width self in
  let row (t : qtable) (c : code) := (dd_getitem n c t).1 in
  exists cur fut self',
    update s a r s' d self = (Ret tt, self') /\
    self' = set_q_table self (q_table self') /\
    row (q_table self) ds !! idx = Some cur /\
    (if d then fut = 0 else np_max (row (q_table self) dns) = Ret fut) /\
    (forall c, row (q_table self') c =
       if decide (c = ds) then <[idx := cur + lr self * (r + gamma self * fut - cur)]> (row (q_table self) ds)
       else row (q_table self) c) /\
    dom (q_table self') = {[ds]} ∪ {[dns]} ∪ dom (q_table self).
Proof.
  intros Hwf Hds Hdns Hidx n row.
  destruct (update_rows self s a r s' d ds dns idx Hwf Hds Hdns Hidx)
    as (cur & fut & t' & Hrun & Hcur & Hfut & Hrows & Hdom).
  exists cur, fut, (set_q_table self t'). by repeat split.
Qed.

(** C2: Update locality: a successful [update] changes exactly one scalar,
    the cell [(ds, idx)] of the discretized state and the action's index;
    every other cell of every row, read through the default, is
    unchanged. *)
Theorem update_locality self (s : game_state) (a : A) (r : Q) (s' : game_state) (d : bool) ds idx self' :
  table_wf (width self) (q_table self) ->
  discretize_state s = Ret ds -> list_index a (actions self) = Ret idx ->
  update s a r s' d self = (Ret tt, self') ->
  forall (c : code) (i : nat), (c, i) <> (ds, idx) ->
  (dd_getitem (width self) c (q_table self')).1 !! i =
  (dd_getitem (width self) c (q_table self)).1 !! i.
Proof.
  intros Hwf Hds Hidx Hrun c i Hci.
  destruct (discretize_state s') as [dns|e] eqn:Hdns;
    [| by unfold update, pbind, plift in Hrun; rewrite Hds, Hdns in Hrun].
  destruct (update_rows self s a r s' d ds dns idx Hwf Hds Hdns Hidx)
    as (cur & fut & t' & Hrun' & _ & _ & Hrows & _).
  rewrite Hrun in Hrun'. injection Hrun' as ->. cbn [q_table set_q_table].
  rewrite Hrows. case_decide as Hc; [subst c|done].
  rewrite list_lookup_insert_ne; [done|]. intros ->. by apply Hci.
Qed.

(** C4: [update] with an action that is not in [actions] raises
    [ValueError] (from [self.actions.index]) and leaves the agent
    untouched: no default row is inserted, since the index is looked up
    before the table is touched. *)
Theorem update_action_error self (s : game_state) (a : A) (r : Q) (s' : game_state) (d : bool) ds dns :
  discretize_state s = Ret ds -> discretize_state s' = Ret dns ->
  a ∉ actions self ->
  update s a r s' d self = (Raise ValueError, self).
Proof.
  intros Hds Hdns Ha.
  assert (list_index a (actions self) = Raise ValueError) as Hidx by (by apply list_index_raise).
  by unfold update, pbind, plift, pget; rewrite Hds, Hdns, Hidx.
Qed.

(** C3: On a table of the right width, [update] keeps the width
    invariant and changes no attribute but the table; when it raises, it
    raises [ValueError], [ZeroDivisionError] or [KeyError] and has changed
    nothing at all. *)
Theorem update_preserves_wf self (s : game_state) (a : A) (r : Q) (s' : game_state) (d : bool) :
  table_wf (width self) (q_table self) ->
  let '(o, self') := update s a r s' d self in
  self' = set_q_table self (q_table self') /\ table_wf (width self) (q_table self') /\
  (forall e, o = Raise e -> self' = self /\
     (e = ValueError \/ e = ZeroDivisionError \/ exists k, e = KeyError k)).
Proof.
  intros Hwf.
  destruct (update_cases self s a r s' d Hwf) as [(t' & -> & Ht') | (e & -> & He)].
  - by repeat split.
  - split; [by rewrite set_q_table_id|]. split; [done|]. by intros ? [= <-].
Qed.


(** ** A table of the wrong width *)

(** C22: The auto-insert invariant of spec section 8.  The first read of
    a code never seen ([self.q_table[discrete_state]], as [act] makes
    it) returns [np.zeros(len(actions))] and stores that vector; an
    [update] on a transition from that code then writes its cell into
    the stored vector, starting from the zero it holds; and the next
    read returns the updated vector, not a fresh zero vector, and
    changes nothing. *)
Theorem read_update_read self (s s' : game_state) (a : A) (r : Q) (d : bool) ds dns idx :
  table_wf (width self) (q_table self) -> q_table self !! ds = None ->
  discretize_state s = Ret ds -> discretize_state s' = Ret dns ->
  list_index a (actions self) = Ret idx ->
  let self1 := set_q_table self (<[ds := np_zeros (width self)]> (q_table self)) in
  self_getitem ds self = (Ret (np_zeros (width self)), self1) /\
  exists fut self2,
    update s a r s' d self1 = (Ret tt, self2) /\
    self_getitem ds self2 =
      (Ret (<[idx := 0 + lr self * (r + gamma self * fut - 0)]> (np_zeros (width self))), self2).
Proof.
  intros Hwf Hnone Hds Hdns Hidx self1.
  split; [by rewrite self_getitem_run, dd_getitem_miss|].
  assert (Hwf1 : table_wf (width self1) (q_table self1)) by (cbn; auto with pyq).
  destruct (update_run self1 s a r s' d ds dns idx Hwf1 Hds Hdns Hidx) as (cur & fut & Hcur & _ & Hrun).
  cbn [q_table set_q_table self1 width actions lr gamma] in Hcur, Hrun.
  rewrite dd_getitem_hit with (v := np_zeros (width self)) in Hcur, Hrun by apply lookup_insert_eq.
  cbn [fst] in Hcur, Hrun. unfold np_zeros in Hcur. apply lookup_replicate in Hcur as [-> _].
  exists fut. eexists. split; [exact Hrun|].
  apply self_getitem_hit. cbn [q_table set_q_table]. unfold dd_setitem. by rewrite lookup_insert_eq.
Qed.

(** C32: [update] is not atomic on a table of the wrong width.  If the
    stored row of the current state is too short for the action's index
    (a table saved by an agent with fewer actions and loaded by this
    one) and the next state is new, [update] raises [IndexError] at
    [self.q_table[discrete_state][action_idx]], after it has already
    inserted the zero row of the next state: the exception leaves a
    mutated table behind. *)
Theorem update_short_row_not_atomic self (s : game_state) (a : A) (r : Q) (s' : game_state)
    (d : bool) ds dns idx (v : list Q) :
  discretize_state s = Ret ds -> discretize_state s' = Ret dns ->
  list_index a (actions self) = Ret idx ->
  q_table self !! ds = Some v -> (length v <= idx)%nat ->
  ds <> dns -> q_table self !! dns = None ->
  update s a r s' d self =
  (Raise IndexError, set_q_table self (<[dns := np_zeros (width self)]> (q_table self))).
Proof.
  intros Hds Hdns Hidx Hv Hlen Hne Hnone.
  assert (E1 : ensured (width self) ds (q_table self) = q_table self).
  { unfold ensured. by rewrite (proj2 (dd_contains_spec _ _)) by (by eexists). }
  assert (E2 : ensured (width self) dns (q_table self) = <[dns := np_zeros (width self)]> (q_table self)).
  { unfold ensured. destruct (dd_contains dns (q_table self)) eqn:E; [|done].
    apply dd_contains_spec in E. rewrite Hnone in E. by destruct E. }
  unfold update, pbind, plift, pget. rewrite Hds, Hdns, Hidx, !ensure_key_run.
  rewrite E1, set_q_table_id, E2.
  rewrite (self_getitem_hit ds _ v) by (cbn [q_table set_q_table]; by rewrite lookup_insert_ne).
  unfold py_getitem. by rewrite (proj2 (lookup_ge_None v idx) Hlen).
Qed.

(** ** Properties of [act] *)

Section ActProofs.
Context {G : Type} `{NpRandom G}.

(** The two branches of [act] once the state is discretized. *)
Lemma act_run (s : game_state) ds self (g : G) :
  discretize_state s = Ret ds ->
  act s (self, g) =
  (if Qltb (np_rand g).1 (epsilon self) then random_choice (actions self) (self, (np_rand g).2)
   else let rd := dd_getitem (width self) ds (q_table self) in
        (obind (np_argmax rd.1) (py_getitem (actions self)),
         (set_q_table self rd.2, (np_rand g).2))).
Proof.
  intros Hds. unfold act, pbind, plift, pget, random_rand, lift_fst. rewrite Hds.
  cbn [fst snd]. destruct (np_rand g) as [u g']. cbn [fst snd].
  destruct (Qltb u (epsilon self)); [done|].
  rewrite self_getitem_run. simpl. by destruct (np_argmax _).
Qed.

Lemma random_choice_run (l : list A) self (g : G) :
  l <> [] ->
  random_choice l (self, g) =
  (py_getitem l (np_choice_index (length l) g).1, (self, (np_choice_index (length l) g).2)).
Proof. intros Hl. unfold random_choice. destruct l; [done|]. simpl. by destruct (np_choice_index _ _). Qed.

(** C5: Exploitation.  When the draw of [np.random.rand()] is not below
    [epsilon], [act] reads the row of the discretized state (inserting a
    zero row if it is new) and returns the action at the lowest index
    holding the row's maximum: ties go to the first action. *)
Theorem act_exploit (s : game_state) ds self (g : G) :
  discretize_state s = Ret ds ->
  epsilon self <= (np_rand g).1 ->
  table_wf (width self) (q_table self) -> actions self <> [] ->
  let rd := dd_getitem (width self) ds (q_table self) in
  exists i m act_i,
    act s (self, g) = (Ret act_i, (set_q_table self rd.2, (np_rand g).2)) /\
    actions self !! i = Some act_i /\
    rd.1 !! i = Some m /\
    (forall j x, rd.1 !! j = Some x -> x <= m) /\
    (forall j x, (j < i)%nat -> rd.1 !! j = Some x -> x < m).
Proof.
  intros Hds He Hwf Hne rd. rewrite (act_run s ds self g Hds).
  rewrite (proj2 (Qltb_false _ _) He).
  destruct (dd_getitem_width (width self) ds _ Hwf) as [Hlen _]. fold rd in Hlen.
  destruct (np_argmax_spec rd.1) as (i & m & Hi & Him & Hle & Hlt).
  { intros E. rewrite E in Hlen. unfold width in Hlen.
    destruct (actions self); [done|]. discriminate Hlen. }
  assert (i < length (actions self))%nat as Hil.
  { unfold width in Hlen. rewrite <- Hlen. by eapply lookup_lt_Some. }
  destruct (py_getitem_lt _ _ Hil) as (ai & Hai & Hai').
  exists i, m, ai. cbv zeta. fold rd. rewrite Hi. cbn [obind]. by rewrite Hai.
Qed.

(** C7: Exploration.  When the draw is below [epsilon], [act] returns the
    action [np.random.choice] picks and does not touch the table. *)
Theorem act_explore (s : game_state) ds self (g : G) :
  discretize_state s = Ret ds ->
  (np_rand g).1 < epsilon self -> actions self <> [] ->
  let g' := (np_rand g).2 in
  act s (self, g) =
  (py_getitem (actions self) (np_choice_index (length (actions self)) g').1,
   (self, (np_choice_index (length (actions self)) g').2)).
Proof.
  intros Hds Hu Hne g'. rewrite (act_run s ds self g Hds), (proj2 (Qltb_iff _ _) Hu).
  by apply random_choice_run.
Qed.


(** [act] on a state that discretizes returns one of the actions. *)
Lemma act_returns_action `{!NpRandomLaws G} (s : game_state) ds self (g : G) :
  discretize_state s = Ret ds ->
  table_wf (width self) (q_table self) -> actions self <> [] ->
  exists a self' g',
    act s (self, g) = (Ret a, (self', g')) /\ a ∈ actions self /\
    self' = set_q_table self (q_table self') /\ table_wf (width self) (q_table self').
Proof.
  intros Hds Hwf Hne. rewrite (act_run s ds self g Hds).
  destruct (Qltb (np_rand g).1 (epsilon self)).
  - rewrite random_choice_run by done.
    assert (0 < length (actions self))%nat by (destruct (actions self); simpl; [done | lia]).
    destruct (py_getitem_lt (actions self) _ (np_choice_index_lt _ (np_rand g).2 ltac:(done)))
      as (a & -> & Ha).
    eexists a, self, _. split; [done|]. split; [by eapply list_elem_of_lookup_2|].
    by rewrite set_q_table_id.
  - cbv zeta. destruct (dd_getitem_width (width self) ds _ Hwf) as [Hlen Hwf'].
    destruct (np_argmax (dd_getitem (width self) ds (q_table self)).1) as [i|e] eqn:Hi.
    + apply np_argmax_lt in Hi. rewrite Hlen in Hi.
      destruct (py_getitem_lt (actions self) i Hi) as (a & Ha & Ha'). cbn [obind]. rewrite Ha.
      eexists a, _, _. split; [done|]. split; [by eapply list_elem_of_lookup_2 | done].
    + exfalso. destruct (dd_getitem _ _ _).1; [|done]. unfold width in Hlen.
      simpl in Hlen. by destruct (actions self).
Qed.

(** C6: Safety of [act]: with a generator that obeys its laws, a
    non-empty action list and a table of the right width, [act] on a state
    that discretizes never raises (neither [np.argmax] nor the indexing of
    [actions] can fail), returns one of the actions, changes no attribute
    of the agent but the table, and keeps the table's width invariant. *)
Theorem act_safe `{!NpRandomLaws G} (s : game_state) ds self (g : G) :
  discretize_state s = Ret ds ->
  table_wf (width self) (q_table self) -> actions self <> [] ->
  exists a self' g',
    act s (self, g) = (Ret a, (self', g')) /\ a ∈ actions self /\
    self' = set_q_table self (q_table self') /\ table_wf (width self) (q_table self').
Proof. apply act_returns_action. Qed.

(** C8: Pure exploitation is deterministic: when [epsilon <= 0], the draw
    of [np.random.rand()] (in [[0, 1)]) never explores, so the action and
    the new table do not depend on the generator, and calling [act] again
    on the same state returns the same action without changing the agent
    again (the row inserted by the first call is the row read by the
    second). *)
Theorem act_greedy_repeat `{!NpRandomLaws G} (s : game_state) ds self (g1 g2 : G) :
  discretize_state s = Ret ds -> epsilon self <= 0 ->
  (act s (self, g1)).1 = (act s (self, g2)).1 /\
  (act s (self, g1)).2.1 = (act s (self, g2)).2.1 /\
  act s ((act s (self, g1)).2.1, g2) = ((act s (self, g1)).1, ((act s (self, g1)).2.1, (np_rand g2).2)).
Proof.
  intros Hds He.
  assert (Hno : forall (self0 : QAgent A) (g : G), epsilon self0 <= 0 -> Qltb (np_rand g).1 (epsilon self0) = false)
    by (intros self0 g He0; apply Qltb_false; pose proof (np_rand_range g); lra).
  rewrite !(act_run s ds self _ Hds), !Hno by done. cbn zeta. cbn [fst snd].
  split; [done|]. split; [done|].
  rewrite (act_run s ds _ _ Hds), Hno by done. cbn zeta. cbn [fst snd q_table set_q_table].
  unfold width. cbn [actions set_q_table]. fold (width self).
  by rewrite dd_getitem_idem.
Qed.


(** Whatever it returns or raises, [act] only replaces the table, by one
    of the same width. *)
Lemma act_frame (s : game_state) self (g : G) :
  table_wf (width self) (q_table self) ->
  exists t', (act s (self, g)).2.1 = set_q_table self t' /\ table_wf (width self) t'.
Proof.
  intros Hwf. destruct (discretize_state s) as [ds|e] eqn:Hds.
  - rewrite (act_run s ds self g Hds). destruct (Qltb _ _).
    + exists (q_table self). rewrite set_q_table_id. split; [|done].
      unfold random_choice. destruct (actions self); [done|]. simpl. by destruct (np_choice_index _ _).
    + exists (dd_getitem (width self) ds (q_table self)).2. split; [done|].
      by apply dd_getitem_width.
  - exists (q_table self). rewrite set_q_table_id. split; [|done].
    unfold act, pbind, plift. by rewrite Hds.
Qed.

End ActProofs.


(** The table after one successful [update], read row by row. *)
Lemma update_row_after self (s : game_state) (a : A) (r : Q) (s' : game_state) (d : bool) ds dns idx c :
  table_wf (width self) (q_table self) ->
  discretize_state s = Ret ds -> discretize_state s' = Ret dns ->
  list_index a (actions self) = Ret idx ->
  exists cur fut,
    (dd_getitem (width self) ds (q_table self)).1 !! idx = Some cur /\
    (if d then fut = 0 else np_max (dd_getitem (width self) dns (q_table self)).1 = Ret fut) /\
    (dd_getitem (width self) c (q_table (update s a r s' d self).2)).1 =
      if decide (c = ds)
      then <[idx := cur + lr self * (r + gamma self * fut - cur)]> (dd_getitem (width self) ds (q_table self)).1
      else (dd_getitem (width self) c (q_table self)).1.
Proof.
  intros Hwf Hds Hdns Hidx.
  destruct (update_rows self s a r s' d ds dns idx Hwf Hds Hdns Hidx)
    as (cur & fut & t' & -> & Hcur & Hfut & Hrows & _).
  exists cur, fut. split; [done|]. split; [done|]. apply Hrows.
Qed.


End Proofs.


(** ** Witnesses on concrete agents *)

Section Witnesses.

Lemma update_spec_witness :
  exists cur fut self',
    update sample_state 119%nat 1 low_state false agent0 = (Ret tt, self') /\
    self' = set_q_table agent0 (q_table self') /\
    (dd_getitem 2 code0 (q_table agent0)).1 !! 0%nat = Some cur /\
    np_max (dd_getitem 2 code1 (q_table agent0)).1 = Ret fut /\
    (forall c, (dd_getitem 2 c (q_table self')).1 =
       if decide (c = code0)
       then <[0%nat := cur + lr agent0 * (1 + gamma agent0 * fut - cur)]> (dd_getitem 2 code0 (q_table agent0)).1
       else (dd_getitem 2 c (q_table agent0)).1) /\
    dom (q_table self') = {[code0]} ∪ {[code1]} ∪ dom (q_table agent0).
Proof.
  apply (update_spec agent0 sample_state 119%nat 1 low_state false code0 code1 0%nat);
    [apply table_wf_empty | reflexivity ..].
Defined.

Lemma update_locality_witness :
  (dd_getitem 2 code1 (q_table (update sample_state 119%nat 1 low_state false agent0).2)).1 !! 1%nat =
  (dd_getitem 2 code1 (q_table agent0)).1 !! 1%nat.
Proof.
  apply (update_locality agent0 sample_state 119%nat 1 low_state false code0 0%nat
           (update sample_state 119%nat 1 low_state false agent0).2);
    [apply table_wf_empty | reflexivity | reflexivity | vm_compute; reflexivity | discriminate].
Defined.

Lemma update_action_error_witness :
  update sample_state 5%nat 1 low_state true agent0 = (Raise ValueError, agent0).
Proof.
  apply (update_action_error agent0 sample_state 5%nat 1 low_state true code0 code1);
    [reflexivity | reflexivity |].
  intros Hin%list_elem_of_In. simpl in Hin. lia.
Defined.

Lemma update_preserves_wf_witness :
  let '(o, self') := update sample_state 119%nat 1 low_state false agent0 in
  self' = set_q_table agent0 (q_table self') /\ table_wf (width agent0) (q_table self') /\
  (forall e, o = Raise e -> self' = agent0 /\
     (e = ValueError \/ e = ZeroDivisionError \/ exists k, e = KeyError k)).
Proof. apply (update_preserves_wf agent0). apply table_wf_empty. Defined.

Lemma act_exploit_witness :
  exists i m act_i,
    act sample_state (greedy0, 7%Z) =
      (Ret act_i, (set_q_table greedy0 (dd_getitem 2 code0 (q_table greedy0)).2, (np_rand 7%Z).2)) /\
    flap_actions !! i = Some act_i /\
    (dd_getitem 2 code0 (q_table greedy0)).1 !! i = Some m /\
    (forall j x, (dd_getitem 2 code0 (q_table greedy0)).1 !! j = Some x -> x <= m) /\
    (forall j x, (j < i)%nat -> (dd_getitem 2 code0 (q_table greedy0)).1 !! j = Some x -> x < m).
Proof.
  apply (act_exploit sample_state code0 greedy0 7%Z);
    [reflexivity | apply Qle_bool_iff; reflexivity | apply table_wf_empty | discriminate].
Defined.

Lemma act_explore_witness :
  act sample_state (agent0, 7%Z) =
  (py_getitem flap_actions (np_choice_index 2 (np_rand 7%Z).2).1,
   (agent0, (np_choice_index 2 (np_rand 7%Z).2).2)).
Proof.
  apply (act_explore sample_state code0 agent0 7%Z);
    [reflexivity | apply Qltb_iff; reflexivity | discriminate].
Defined.

Lemma act_safe_witness :
  exists a self' g',
    act sample_state (agent0, 7%Z) = (Ret a, (self', g')) /\ a ∈ flap_actions /\
    self' = set_q_table agent0 (q_table self') /\ table_wf (width agent0) (q_table self').
Proof.
  apply (act_safe sample_state code0 agent0 7%Z);
    [reflexivity | apply table_wf_empty | discriminate].
Defined.

Lemma act_greedy_repeat_witness :
  (act sample_state (greedy0, 7%Z)).1 = (act sample_state (greedy0, 8%Z)).1 /\
  (act sample_state (greedy0, 7%Z)).2.1 = (act sample_state (greedy0, 8%Z)).2.1 /\
  act sample_state ((act sample_state (greedy0, 7%Z)).2.1, 8%Z) =
    ((act sample_state (greedy0, 7%Z)).1, ((act sample_state (greedy0, 7%Z)).2.1, (np_rand 8%Z).2)).
Proof.
  apply (act_greedy_repeat sample_state code0 greedy0 7%Z 8%Z);
    [reflexivity | apply Qle_bool_iff; reflexivity].
Defined.

Lemma read_update_read_witness :
  self_getitem code0 agent0 = (Ret (np_zeros 2), set_q_table agent0 (<[code0 := np_zeros 2]> ∅)) /\
  exists fut self2,
    update sample_state 119%nat 1 low_state false (set_q_table agent0 (<[code0 := np_zeros 2]> ∅)) =
      (Ret tt, self2) /\
    self_getitem code0 self2 = (Ret (<[0%nat := 0 + (1 # 10) * (1 + (99 # 100) * fut - 0)]> (np_zeros 2)), self2).
Proof.
  apply (read_update_read agent0 sample_state low_state 119%nat 1 false code0 code1 0%nat);
    first [apply table_wf_empty | reflexivity].
Defined.

Lemma update_short_row_not_atomic_witness :
  update sample_state 0%nat 1 low_state false short_agent =
  (Raise IndexError, set_q_table short_agent (<[code1 := np_zeros 2]> {[code0 := [5]]})).
Proof.
  apply (update_short_row_not_atomic short_agent sample_state 0%nat 1 low_state false
           code0 code1 1 [5]); first [reflexivity | lia | discriminate].
Defined.

End Witnesses.

End DQAgent.
