(* ===== verification/Equiv.v ===== *)
(** * Materialised defaults are invisible to the agent

    The [defaultdict] of [QAgent.q_table] (src/agentes/dq_agent.py)
    inserts a zero row whenever [act] or [update] reads a new state, so
    the same learning history leaves different dicts depending on which
    states were only looked at.  This file defines the equivalence of
    two agents that differ at most by such rows ([agent_equiv]: same
    attributes, read-equivalent tables) and proves that [act] and
    [update] are morphisms for it: same outcome, equivalent agents
    after the call.  Learning therefore depends only on the values read
    through the default, never on which zero rows happen to be stored. *)

From Stdlib Require Import QArith Lqa.
From stdpp Require Import base list gmap strings.
From S2P Require Import Prelude Discretize QTable QAgent.

Open Scope Q_scope.

Module AgentEquiv.
Import StateDiscretizer QTable DQAgent.

Section Equiv.
Context {A : Type} `{EqDecision A}.
Implicit Types self : QAgent A.

(** Same attributes; tables equal once defaults are filled in. *)
Definition agent_equiv (self1 self2 : QAgent A) : Prop :=
  self2 = set_q_table self1 (q_table self2) /\
  read_equiv (width self1) (q_table self1) (q_table self2).

End Equiv.

(** [agent0] after [act] has looked at [code0]: a stored zero row. *)
Definition agent0_seen : QAgent nat := set_q_table agent0 {[code0 := [0; 0]]}.


(** ** The equivalence *)

Section Proofs.
Context {A : Type} `{EqDecision A}.
Implicit Types self : QAgent A.

#[export] Instance agent_equiv_equivalence : Equivalence (@agent_equiv A).
Proof.
  split.
  - intros self. split; [by rewrite set_q_table_id | reflexivity].
  - intros self1 self2 [-> H]. split; [by destruct self1 | by symmetry].
  - intros self1 self2 self3 [-> H12] [-> H23]. split; [done|]. by etrans.
Qed.

(** A table read-equivalent to a table of width [n] has width [n]: the
    rows it has in addition are zero rows of width [n]. *)
Lemma read_equiv_wf (n : nat) (t1 t2 : qtable) :
  table_wf n t1 -> read_equiv n t1 t2 -> table_wf n t2.
Proof.
  intros Hwf Heq c v Hv. specialize (Heq c). rewrite Hv in Heq. simpl in Heq.
  destruct (t1 !! c) as [w|] eqn:Hw; simpl in Heq; subst v;
    [exact (Hwf c w Hw) | apply np_zeros_length].
Qed.

(** Equivalent agents read the same row through the default. *)
Lemma agent_equiv_row self1 self2 (c : code) :
  agent_equiv self1 self2 ->
  (dd_getitem (width self2) c (q_table self2)).1 = (dd_getitem (width self1) c (q_table self1)).1.
Proof.
  intros [-> H]. cbn [width actions set_q_table q_table]. fold (width self1).
  rewrite !dd_getitem_value. symmetry. apply H.
Qed.

(** Two tables whose reads agree everywhere are read-equivalent. *)
Lemma read_equiv_of_rows (n : nat) (t1 t2 : qtable) :
  (forall c, (dd_getitem n c t1).1 = (dd_getitem n c t2).1) -> read_equiv n t1 t2.
Proof. intros H c. rewrite <- !dd_getitem_value. apply H. Qed.

(** An [update] that raises before touching the table, on both agents. *)
Lemma update_raise_both self1 self2 (s : game_state) (a : A) (r : Q) (s' : game_state) (d : bool) e :
  agent_equiv self1 self2 ->
  update s a r s' d self1 = (Raise e, self1) -> update s a r s' d self2 = (Raise e, self2) ->
  (update s a r s' d self1).1 = (update s a r s' d self2).1 /\
  agent_equiv (update s a r s' d self1).2 (update s a r s' d self2).2.
Proof. intros Heq -> ->. done. Qed.


(** ** Properties *)

(** [update] does not see materialised defaults. *)
Lemma update_equiv_run self1 self2 (s : game_state) (a : A) (r : Q) (s' : game_state) (d : bool) :
  table_wf (width self1) (q_table self1) -> agent_equiv self1 self2 ->
  (update s a r s' d self1).1 = (update s a r s' d self2).1 /\
  agent_equiv (update s a r s' d self1).2 (update s a r s' d self2).2.
Proof.
  intros Hwf Heq. pose proof Heq as Heq'. destruct Heq as [E Hrd].
  set (t2 := q_table self2) in *. clearbody t2. subst self2.
  assert (Hwf2 : table_wf (width (set_q_table self1 t2)) t2) by (by eapply read_equiv_wf).
  destruct (discretize_state s) as [ds|e] eqn:Hds;
    [| apply (update_raise_both _ _ _ _ _ _ _ e); [done|..]; unfold update, pbind, plift; by rewrite Hds].
  destruct (discretize_state s') as [dns|e] eqn:Hdns;
    [| apply (update_raise_both _ _ _ _ _ _ _ e); [done|..]; unfold update, pbind, plift; by rewrite Hds, Hdns].
  destruct (list_index a (actions self1)) as [idx|e] eqn:Hidx;
    [| apply (update_raise_both _ _ _ _ _ _ _ e); [done|..];
       unfold update, pbind, plift, pget; cbn [actions set_q_table]; by rewrite Hds, Hdns, Hidx].
  destruct (update_rows self1 s a r s' d ds dns idx Hwf Hds Hdns Hidx)
    as (cur1 & fut1 & t1' & -> & Hcur1 & Hfut1 & Hrows1 & _).
  destruct (update_rows (set_q_table self1 t2) s a r s' d ds dns idx Hwf2 Hds Hdns Hidx)
    as (cur2 & fut2 & t2' & -> & Hcur2 & Hfut2 & Hrows2 & _).
  pose proof (agent_equiv_row _ _ ds Heq') as Rds. pose proof (agent_equiv_row _ _ dns Heq') as Rdns.
  cbn [q_table set_q_table] in *. fold (width self1) in *.
  rewrite Rds in Hcur2. assert (cur2 = cur1) as -> by congruence.
  assert (fut2 = fut1) as ->.
  { destruct d; [by subst|]. rewrite Rdns in Hfut2. congruence. }
  split; [done|]. split; [done|]. apply read_equiv_of_rows. intros c.
  cbn [width set_q_table actions] in *. fold (width self1) in *.
  rewrite Hrows1, Hrows2. pose proof (agent_equiv_row _ _ c Heq') as Rc.
  cbn [q_table set_q_table width actions] in Rc. fold (width self1) in Rc. by rewrite Rds, Rc.
Qed.


Section ActEquiv.
Context {G : Type} `{NpRandom G}.

(** [act] does not see materialised defaults. *)
Lemma act_equiv_run self1 self2 (s : game_state) (g : G) :
  agent_equiv self1 self2 ->
  (act s (self1, g)).1 = (act s (self2, g)).1 /\
  agent_equiv (act s (self1, g)).2.1 (act s (self2, g)).2.1 /\
  (act s (self1, g)).2.2 = (act s (self2, g)).2.2.
Proof.
  intros Heq. pose proof Heq as Heq'. destruct Heq as [E Hrd].
  set (t2 := q_table self2) in *. clearbody t2. subst self2.
  destruct (discretize_state s) as [ds|e] eqn:Hds;
    [| unfold act, pbind, plift; rewrite Hds; done].
  rewrite !(act_run s ds _ g Hds). cbn [epsilon set_q_table actions].
  destruct (Qltb _ _).
  - unfold random_choice. destruct (actions self1); [done|]. cbn [fst snd].
    by destruct (np_choice_index _ _).
  - cbv zeta. pose proof (dd_getitem_proper (width self1) ds _ _ Hrd) as [Hv Ht].
    cbn [width actions set_q_table q_table]. fold (width self1).
    rewrite Hv. split; [done|]. split; [|done]. by split.
Qed.

(** C13: Materialised defaults are invisible to both methods.  On two
    agents that differ at most by zero rows: when the first has rows of
    the right width, [update] has the same outcome, value or exception,
    and leaves two agents that again differ at most by zero rows; and
    from the same generator state, [act] has the same outcome (action or
    exception), draws the same numbers, and leaves two agents that again
    differ at most by zero rows. *)
Theorem calls_equiv self1 self2 (s : game_state) (a : A) (r : Q) (s' : game_state) (d : bool) :
  agent_equiv self1 self2 ->
  (table_wf (width self1) (q_table self1) ->
   (update s a r s' d self1).1 = (update s a r s' d self2).1 /\
   agent_equiv (update s a r s' d self1).2 (update s a r s' d self2).2) /\
  (forall g : G,
   (act s (self1, g)).1 = (act s (self2, g)).1 /\
   agent_equiv (act s (self1, g)).2.1 (act s (self2, g)).2.1 /\
   (act s (self1, g)).2.2 = (act s (self2, g)).2.2).
Proof.
  intros Heq. split; [intros Hwf; by apply update_equiv_run | intros g; by apply act_equiv_run].
Qed.

End ActEquiv.

End Proofs.


(** ** Witnesses *)

Lemma agent0_seen_equiv : agent_equiv agent0 agent0_seen.
Proof.
  split; [reflexivity|]. intros c. unfold agent0_seen. cbn [q_table set_q_table agent0].
  rewrite lookup_empty. destruct (decide (c = code0)) as [->|Hne]; [by simplify_map_eq|].
  by rewrite lookup_singleton_ne.
Qed.

Lemma calls_equiv_witness :
  ((update sample_state 0%nat 1 low_state false agent0).1 =
     (update sample_state 0%nat 1 low_state false agent0_seen).1 /\
   agent_equiv (update sample_state 0%nat 1 low_state false agent0).2
               (update sample_state 0%nat 1 low_state false agent0_seen).2) /\
  ((act sample_state (agent0, 7%Z)).1 = (act sample_state (agent0_seen, 7%Z)).1 /\
   agent_equiv (act sample_state (agent0, 7%Z)).2.1 (act sample_state (agent0_seen, 7%Z)).2.1 /\
   (act sample_state (agent0, 7%Z)).2.2 = (act sample_state (agent0_seen, 7%Z)).2.2).
Proof.
  destruct (calls_equiv agent0 agent0_seen sample_state 0%nat 1 low_state false agent0_seen_equiv)
    as [Hu Ha].
  split; [apply Hu, table_wf_empty | apply (Ha 7%Z)].
Defined.

End AgentEquiv.
