(* ===== verification/Persistence.v ===== *)
(** * Persistence of the table and the constructor's loading branch

    [QAgent.save_q_table] and [QAgent.load_q_table]
    (src/agentes/dq_agent.py, lines 117-138), [QAgent.__init__] with its
    loading branch (lines 11-29), and the file system [pickle] reads and
    writes: a map from paths to files that hold a pickled table or other
    bytes.  This file models them and proves the save/load round trip
    (through [load_q_table] and through the constructor), that a save interrupted after its truncating
    [open] (lines 122-123) loses the previous snapshot, that a missing
    file is recovered as an empty table and that an unreadable one is
    not. *)

From Stdlib Require Import QArith Lqa.
From stdpp Require Import base list gmap strings.
From S2P Require Import Prelude Discretize QTable QAgent.

Open Scope Q_scope.

Module Persistence.
Import StateDiscretizer QTable DQAgent.

(** ** The file system seen by [pickle] *)

(** A file holds a pickled dict of the table's shape, or anything else. *)
Inductive file : Type :=
  | PickledDict (d : qtable)
  | OtherBytes.

Abbreviation filesystem := (gmap string file).

Section Agent.
Context {A : Type} `{EqDecision A}.
Implicit Types self : QAgent A.

(** ** [__init__] *)

(** [if load_q_table_path:] on a [str] or [None]. *)
Definition path_truthy (p : option string) : bool :=
  match p with Some s => negb (bool_decide (s = ""%string)) | None => false end.

Definition QAgent_init (actions0 : list A) (learning_rate discount_factor epsilon0
    epsilon_decay0 min_epsilon0 : Q) (load_q_table_path : option string)
    (fs : filesystem) : outcome (QAgent A) :=
  let mk t := mkQAgent actions0 learning_rate discount_factor epsilon0
                       epsilon_decay0 min_epsilon0 t in
  match load_q_table_path with
  | Some path =>
      if path_truthy load_q_table_path then
        match fs !! path with
        | Some (PickledDict q_dict) => Ret (mk (defaultdict_of_dict q_dict))
        | Some OtherBytes => Raise UnpicklingError
        | None => Ret (mk ∅)
        end
      else Ret (mk ∅)
  | None => Ret (mk ∅)
  end.

(** The constructor with the source's default arguments. *)
Definition QAgent_init_default (actions0 : list A) (fs : filesystem) : outcome (QAgent A) :=
  QAgent_init actions0 (1 # 10) (99 # 100) 1 (995 # 1000) (1 # 100)
              (Some "flappy_birds_q_table.pkl"%string) fs.

(** ** [save_q_table] and [load_q_table] *)

(** [pickle.load]; only [FileNotFoundError] is caught. *)
Definition load_q_table (path : string) (fs : filesystem) : PyM (QAgent A) unit :=
  fun self =>
    match fs !! path with
    | Some (PickledDict q_dict) => (Ret tt, set_q_table self (defaultdict_of_dict q_dict))
    | Some OtherBytes => (Raise UnpicklingError, self)
    | None => (Ret tt, set_q_table self ∅)
    end.

(** The two effects of [save_q_table] on the file system, in the order
    the method performs them: [open(path, 'wb')] (line 122) truncates
    the file to no bytes, which [pickle.load] cannot read ([EOFError],
    one of the unpickling errors of the model), and [pickle.dump]
    (line 123) then writes the pickled copy of the table. *)
Definition save_open (path : string) (fs : filesystem) : filesystem :=
  <[path := OtherBytes]> fs.

Definition save_dump (path : string) self (fs : filesystem) : filesystem :=
  <[path := PickledDict (dict_of_defaultdict (q_table self))]> fs.

(** The file-system effects of [save_q_table] (lines 122-123), in
    order; the states between them are those a crash can leave. *)
Definition save_phases (path : string) self : list (filesystem -> filesystem) :=
  [save_open path; save_dump path self].

(** The file system after the effects [ops], one after the other. *)
Definition run_phases (ops : list (filesystem -> filesystem)) (fs : filesystem) : filesystem :=
  foldl (fun fs' op => op fs') fs ops.

(** [with open(path, 'wb') as f: pickle.dump(dict(self.q_table), f)]. *)
Definition save_q_table (path : string) self (fs : filesystem) : filesystem :=
  run_phases (save_phases path self) fs.

End Agent.


(** ** Properties *)

Section Files.
Context {A : Type} `{EqDecision A}.
Implicit Types self : QAgent A.

(** The file system after the whole of [save_q_table]: the dump
    overwrites the truncated file. *)
Lemma save_q_table_eq (path : string) self (fs : filesystem) :
  save_q_table path self fs = <[path := PickledDict (dict_of_defaultdict (q_table self))]> fs.
Proof. unfold save_q_table, run_phases, save_phases, save_dump, save_open. cbn. by rewrite ?insert_insert_eq. Qed.

(** C29: Round trip: after [save_q_table path] the file at [path] holds
    the table, and the other files are untouched; [load_q_table path]
    into any agent gives it exactly that table, and so does a fresh
    learner built by the constructor from [path] (every row reads bit
    for bit as in the saving agent, whatever the new hyper-parameters;
    epsilon starts afresh). *)
Theorem save_load_roundtrip (path : string) self self2 (fs : filesystem)
    (acts : list A) (lr0 g0 e0 d0 m0 : Q) :
  load_q_table path (save_q_table path self fs) self2 = (Ret tt, set_q_table self2 (q_table self)) /\
  (forall p, p <> path -> save_q_table path self fs !! p = fs !! p) /\
  (path <> ""%string ->
   QAgent_init acts lr0 g0 e0 d0 m0 (Some path) (save_q_table path self fs) =
   Ret (mkQAgent acts lr0 g0 e0 d0 m0 (q_table self))).
Proof.
  split; [|split].
  - unfold load_q_table. by rewrite save_q_table_eq, lookup_insert_eq.
  - intros p Hp. by rewrite save_q_table_eq, lookup_insert_ne.
  - intros Hp. unfold QAgent_init, path_truthy. rewrite save_q_table_eq.
    rewrite bool_decide_false by done. by rewrite lookup_insert_eq.
Qed.

(** C30: The error handling of [load_q_table].  A missing file is
    recoverable: the table becomes empty and the call returns.  A file
    that is not a pickled dict is not: [load_q_table] catches only
    [FileNotFoundError], so it raises, keeping the old table, and the
    constructor raises too, building no agent. *)
Theorem load_errors (path : string) self (fs : filesystem) (acts : list A) (lr0 g0 e0 d0 m0 : Q) :
  (fs !! path = None -> load_q_table path fs self = (Ret tt, set_q_table self ∅)) /\
  (fs !! path = Some OtherBytes -> path <> ""%string ->
   load_q_table path fs self = (Raise UnpicklingError, self) /\
   QAgent_init acts lr0 g0 e0 d0 m0 (Some path) fs = Raise UnpicklingError).
Proof.
  split; intros H; unfold load_q_table; rewrite H; [done|].
  intros Hp. split; [done|]. unfold QAgent_init, path_truthy. rewrite H.
  by rewrite bool_decide_false.
Qed.

(** C33: [save_q_table] is not all-or-nothing.  Its effects on the
    file system are the truncating [open(path, 'wb')] and then the
    pickle dump.  A valid snapshot that [load_q_table] reads before the
    call, and the new one it reads after the call, are separated by an
    intermediate state of the method in which the file cannot be read:
    if the process stops there, [load_q_table] raises, keeping the
    agent's table, and the constructor raises, building no agent.  (A
    save that writes a temporary file and then renames it over [path]
    has no such state.) *)
Theorem save_interrupted_loses_snapshot (path : string) self self2 (fs : filesystem) (d : qtable)
    (acts : list A) (lr0 g0 e0 d0 m0 : Q) :
  fs !! path = Some (PickledDict d) -> path <> ""%string ->
  load_q_table path fs self2 = (Ret tt, set_q_table self2 d) /\
  load_q_table path (save_q_table path self fs) self2 = (Ret tt, set_q_table self2 (q_table self)) /\
  exists k, (0 < k < length (save_phases path self))%nat /\
    load_q_table path (run_phases (take k (save_phases path self)) fs) self2 = (Raise UnpicklingError, self2) /\
    QAgent_init acts lr0 g0 e0 d0 m0 (Some path) (run_phases (take k (save_phases path self)) fs) =
      Raise UnpicklingError.
Proof.
  intros Hd Hp. split; [unfold load_q_table; by rewrite Hd|].
  split; [unfold load_q_table; by rewrite save_q_table_eq, lookup_insert_eq|].
  exists 1%nat. split; [cbn; lia|].
  unfold load_q_table, QAgent_init, path_truthy. cbn. unfold save_open. rewrite lookup_insert_eq.
  split; [done|]. by rewrite bool_decide_false.
Qed.

End Files.


(** ** Witnesses *)

Lemma load_errors_witness :
  load_q_table "flappy_birds_q_table.pkl" ∅ agent0 = (Ret tt, set_q_table agent0 ∅) /\
  load_q_table "bad.pkl" {["bad.pkl" := OtherBytes]} agent0 = (Raise UnpicklingError, agent0) /\
  QAgent_init flap_actions (1 # 10) (99 # 100) 1 (995 # 1000) (1 # 100) (Some "bad.pkl"%string)
    {["bad.pkl" := OtherBytes]} = Raise UnpicklingError.
Proof.
  split; [by apply (load_errors "flappy_birds_q_table.pkl" agent0 ∅ flap_actions
                      (1 # 10) (99 # 100) 1 (995 # 1000) (1 # 100))|].
  by apply (load_errors "bad.pkl" agent0 {["bad.pkl" := OtherBytes]} flap_actions
              (1 # 10) (99 # 100) 1 (995 # 1000) (1 # 100)).
Defined.

Lemma save_interrupted_loses_snapshot_witness :
  load_q_table "q.pkl" {["q.pkl" := PickledDict ∅]} agent0 = (Ret tt, set_q_table agent0 ∅) /\
  load_q_table "q.pkl" (save_q_table "q.pkl" short_agent {["q.pkl" := PickledDict ∅]}) agent0 =
    (Ret tt, set_q_table agent0 (q_table short_agent)) /\
  exists k, (0 < k < length (save_phases "q.pkl" short_agent))%nat /\
    load_q_table "q.pkl" (run_phases (take k (save_phases "q.pkl" short_agent)) {["q.pkl" := PickledDict ∅]}) agent0 =
      (Raise UnpicklingError, agent0) /\
    QAgent_init flap_actions (1 # 10) (99 # 100) 1 (995 # 1000) (1 # 100) (Some "q.pkl"%string)
      (run_phases (take k (save_phases "q.pkl" short_agent)) {["q.pkl" := PickledDict ∅]}) = Raise UnpicklingError.
Proof.
  apply (save_interrupted_loses_snapshot "q.pkl" short_agent agent0 {["q.pkl" := PickledDict ∅]} ∅);
    [reflexivity | discriminate].
Defined.

Lemma save_load_roundtrip_witness :
  load_q_table "q.pkl" (save_q_table "q.pkl" short_agent ∅) agent0 =
    (Ret tt, set_q_table agent0 {[code0 := [5]]}) /\
  (forall p, p <> "q.pkl"%string -> save_q_table "q.pkl" short_agent ∅ !! p = (∅ : filesystem) !! p) /\
  QAgent_init flap_actions (1 # 10) (99 # 100) 1 (995 # 1000) (1 # 100) (Some "q.pkl"%string)
    (save_q_table "q.pkl" short_agent ∅) =
  Ret (mkQAgent flap_actions (1 # 10) (99 # 100) 1 (995 # 1000) (1 # 100) {[code0 := [5]]}).
Proof.
  destruct (save_load_roundtrip "q.pkl" short_agent agent0 ∅ flap_actions
              (1 # 10) (99 # 100) 1 (995 # 1000) (1 # 100)) as (H1 & H2 & H3).
  split; [exact H1|]. split; [exact H2|]. apply H3. discriminate.
Defined.

End Persistence.
