(* ===== verification/Schedule.v ===== *)
(** * The exploration schedule

    [QAgent.decay_epsilon] (src/agentes/dq_agent.py, lines 111-116)
    multiplies epsilon by [epsilon_decay] and keeps it above
    [min_epsilon].  This file models it and proves the closed form of
    [k] decays, that the floor
    is reached and kept when [decay < 1], and the exact schedule of the
    source's defaults ([0.995^k] until the 919th call, [0.01] from it on).
    It also shows that the constructor does not validate the decay rate:
    with [epsilon_decay > 1] every decay raises epsilon. *)

From Stdlib Require Import QArith Lqa.
From stdpp Require Import base list gmap strings.
From S2P Require Import Prelude Discretize QTable QAgent Persistence.

Open Scope Q_scope.

Module Schedule.
Import StateDiscretizer QTable DQAgent Persistence.

Section Defs.
Context {A : Type} `{EqDecision A}.

(** ** [decay_epsilon] *)

Definition decay_epsilon (self : QAgent A) : QAgent A :=
  set_epsilon self (py_max (min_epsilon self) (epsilon self * epsilon_decay self)).

End Defs.

Section Decay.
Context {A : Type} `{EqDecision A}.
Implicit Types self : QAgent A.

Lemma decay_epsilon_fields self :
  actions (decay_epsilon self) = actions self /\ q_table (decay_epsilon self) = q_table self /\
  epsilon_decay (decay_epsilon self) = epsilon_decay self /\
  min_epsilon (decay_epsilon self) = min_epsilon self.
Proof. done. Qed.

(** After [k] decays from [e0 >= min_epsilon], with [0 <= decay <= 1] and
    [0 <= min_epsilon], epsilon is [max(min_epsilon, e0 * decay^k)]. *)
Lemma decay_iter_closed self k :
  0 <= min_epsilon self <= epsilon self -> 0 <= epsilon_decay self <= 1 ->
  epsilon (Nat.iter k decay_epsilon self) ==
  py_max (min_epsilon self) (epsilon self * qpow (epsilon_decay self) k).
Proof.
  intros Hm Hd. induction k as [|k IH]; simpl Nat.iter; simpl qpow.
  - rewrite Qmult_1_r. unfold py_max. q_cases; lra.
  - cbn [epsilon decay_epsilon set_epsilon].
    set (sk := Nat.iter k decay_epsilon self).
    assert (min_epsilon sk = min_epsilon self /\ epsilon_decay sk = epsilon_decay self) as [-> ->].
    { unfold sk. clear IH. induction k as [|k IHk]; [done|]. simpl Nat.iter. apply IHk. }
    fold sk in IH. rewrite IH, py_max_decay_step by lra.
    apply py_max_proper; [reflexivity | ring].
Qed.

(** C28: The exploration floor is reached and kept: with [0 <= decay < 1]
    and [0 < min_epsilon <= epsilon], there is an [N] such that after
    every [k >= N] decays epsilon equals [min_epsilon]. *)
Theorem decay_reaches_floor self :
  0 < min_epsilon self <= epsilon self -> 0 <= epsilon_decay self < 1 ->
  exists N, forall k, (N <= k)%nat -> epsilon (Nat.iter k decay_epsilon self) == min_epsilon self.
Proof.
  intros Hm Hd.
  destruct (qpow_eventually_small (epsilon_decay self) (epsilon self) (min_epsilon self) Hd
              ltac:(lra) ltac:(lra)) as [N HN].
  exists N. intros k Hk. rewrite decay_iter_closed by lra.
  rewrite py_max_l by (by apply HN). reflexivity.
Qed.


(** C27: The default exploration schedule: an agent built with the
    source's defaults ([epsilon = 1.0], [epsilon_decay = 0.995],
    [min_epsilon = 0.01]) has, after [k] calls of [decay_epsilon],
    [epsilon = max(0.01, 0.995^k)], and it sits at the floor exactly from
    the 919th call on. *)
Theorem decay_default_schedule (acts : list A) (fs : filesystem) self k :
  QAgent_init_default acts fs = Ret self ->
  epsilon (Nat.iter k decay_epsilon self) == py_max (1 # 100) (qpow (995 # 1000) k) /\
  (epsilon (Nat.iter k decay_epsilon self) == 1 # 100 <-> (919 <= k)%nat).
Proof.
  intros Hinit.
  assert (epsilon self = 1 /\ epsilon_decay self = 995 # 1000 /\ min_epsilon self = 1 # 100)
    as (He & Hd & Hm).
  { unfold QAgent_init_default, QAgent_init in Hinit. simpl in Hinit.
    repeat case_match; simplify_eq/=; done. }
  assert (Hcl : epsilon (Nat.iter k decay_epsilon self) == py_max (1 # 100) (qpow (995 # 1000) k)).
  { rewrite decay_iter_closed by (rewrite ?He, ?Hd, ?Hm; split; discriminate).
    rewrite He, Hd, Hm, Qmult_1_l. reflexivity. }
  split; [done|]. rewrite Hcl.
  assert (H919 : qpow (995 # 1000) 919 <= 1 # 100) by (apply Qle_bool_iff; vm_compute; reflexivity).
  assert (H918 : ~ qpow (995 # 1000) 918 <= 1 # 100) by (rewrite <- Qle_bool_iff; vm_compute; discriminate).
  split; intros Hk.
  - destruct (Nat.le_gt_cases 919 k) as [|Hlt]; [done|]. exfalso. apply H918.
    pose proof (qpow_anti (995 # 1000) k 918 ltac:(split; discriminate) ltac:(lia)).
    unfold py_max in Hk. revert Hk. q_cases; intros; lra.
  - pose proof (qpow_anti (995 # 1000) 919 k ltac:(split; discriminate) Hk).
    rewrite py_max_l by lra. reflexivity.
Qed.


(** C31: The constructor checks none of its hyper-parameters (lines 11-18).
    Whatever [learning_rate], [discount_factor], [epsilon],
    [epsilon_decay] and [min_epsilon] it is given, it returns an agent
    that stores them unchanged, as long as the table file, if any, is
    missing or a pickled table.  When that [epsilon] is positive and
    [epsilon_decay > 1], [decay_epsilon] raises epsilon above its
    initial value, so an agent started at [epsilon = 1] leaves the range
    [[min_epsilon, 1]] the spec gives the exploration rate. *)
Theorem decay_unvalidated (acts : list A) lr0 g0 e0 d0 m0 (p : option string) (fs : filesystem) :
  (forall path, p = Some path -> fs !! path <> Some OtherBytes) ->
  exists t, QAgent_init acts lr0 g0 e0 d0 m0 p fs = Ret (mkQAgent acts lr0 g0 e0 d0 m0 t) /\
    (0 < e0 -> 1 < d0 -> e0 < epsilon (decay_epsilon (mkQAgent acts lr0 g0 e0 d0 m0 t))).
Proof.
  intros Hp.
  assert (Hinit : exists t, QAgent_init acts lr0 g0 e0 d0 m0 p fs = Ret (mkQAgent acts lr0 g0 e0 d0 m0 t)).
  { unfold QAgent_init. cbv zeta. destruct p as [path|]; [|by eexists].
    specialize (Hp path eq_refl). destruct (path_truthy _); [|by eexists].
    destruct (fs !! path) as [[q|]|]; [by eexists | done | by eexists]. }
  destruct Hinit as [t Ht]. exists t. split; [done|]. intros He Hd.
  cbn [decay_epsilon set_epsilon epsilon epsilon_decay min_epsilon].
  pose proof (py_max_ge_r m0 (e0 * d0)).
  assert (e0 * 1 < e0 * d0) by (apply Qmult_lt_l; lra). lra.
Qed.

End Decay.

Lemma decay_reaches_floor_witness :
  exists N, forall k, (N <= k)%nat -> epsilon (Nat.iter k decay_epsilon agent0) == 1 # 100.
Proof.
  apply (decay_reaches_floor agent0);
    [split; [reflexivity | discriminate] | split; [discriminate | reflexivity]].
Defined.

Lemma decay_default_schedule_witness :
  QAgent_init_default flap_actions ∅ = Ret agent0 /\
  epsilon (Nat.iter 919 decay_epsilon agent0) == py_max (1 # 100) (qpow (995 # 1000) 919) /\
  (epsilon (Nat.iter 919 decay_epsilon agent0) == 1 # 100 <-> (919 <= 919)%nat).
Proof.
  split; [reflexivity|]. by apply (decay_default_schedule flap_actions ∅ agent0 919).
Defined.

Lemma decay_unvalidated_witness :
  exists t, QAgent_init flap_actions (1 # 10) (99 # 100) 1 2 (1 # 100) (Some "flappy_birds_q_table.pkl"%string) ∅ =
      Ret (mkQAgent flap_actions (1 # 10) (99 # 100) 1 2 (1 # 100) t) /\
    (0 < 1 -> 1 < 2 -> 1 < epsilon (decay_epsilon (mkQAgent flap_actions (1 # 10) (99 # 100) 1 2 (1 # 100) t))).
Proof.
  apply (decay_unvalidated flap_actions (1 # 10) (99 # 100) 1 2 (1 # 100) (Some "flappy_birds_q_table.pkl"%string) ∅).
  intros path [= <-]. discriminate.
Defined.

End Schedule.
