(* ===== verification/Learning.v ===== *)
(** * Learning behaviour of the temporal-difference rule

    Properties of [QAgent.update] (src/agentes/dq_agent.py, lines 92-109)
    over many calls, which is how the training driver uses it: the
    Q-values stay within the bound [R / (1 - gamma)] of a reward bounded
    by [R], and on a state that loops to itself under a rewarded action
    the value of that action converges geometrically to
    [reward / (1 - gamma)] (the convergence sanity check of the spec). *)

From Stdlib Require Import QArith Qabs Lqa.
From stdpp Require Import base list gmap strings.
From S2P Require Import Prelude Discretize QTable QAgent.

Open Scope Q_scope.

Module Learning.
Import StateDiscretizer QTable DQAgent.

Section Loop.
Context {A : Type} `{EqDecision A}.

(** [k] successive calls of [agent.update(state, action, reward,
    next_state, done)] with the same transition. *)
Definition repeat_update (k : nat) (s : game_state) (a : A) (r : Q) (s' : game_state) (d : bool)
    (self : QAgent A) : QAgent A :=
  Nat.iter k (fun x => (update s a r s' d x).2) self.

(** Every stored value lies in [[-B, B]]. *)
Definition table_bounded (B : Q) (t : qtable) : Prop :=
  map_Forall (fun _ v => Forall (fun x => Qabs x <= B) v) t.

(** ** Helper lemmas *)

Lemma np_max_single (n i : nat) (q : Q) :
  (i < n)%nat -> 0 <= q -> exists m, np_max (<[i := q]> (np_zeros n)) = Ret m /\ m == q.
Proof.
  intros Hi Hq.
  destruct (np_max_spec (<[i := q]> (np_zeros n))) as (m & Hm & Hin & Hge).
  { intros E. pose proof (f_equal length E) as L.
    rewrite length_insert, np_zeros_length in L. simpl in L. lia. }
  exists m. split; [done|].
  assert (q <= m).
  { apply Hge. apply list_elem_of_lookup. exists i.
    apply list_lookup_insert_eq. by rewrite np_zeros_length. }
  apply list_elem_of_lookup in Hin as [j Hj].
  destruct (decide (i = j)) as [<-|Hne].
  - rewrite list_lookup_insert_eq in Hj by (by rewrite np_zeros_length). injection Hj as ->. lra.
  - rewrite list_lookup_insert_ne in Hj by done. apply lookup_replicate in Hj as [-> _]. lra.
Qed.

Lemma update_success (self : QAgent A) (s : game_state) (a : A) (r : Q) (s' : game_state) (d : bool) ds dns idx :
  table_wf (width self) (q_table self) ->
  discretize_state s = Ret ds -> discretize_state s' = Ret dns ->
  list_index a (actions self) = Ret idx ->
  exists t', update s a r s' d self = (Ret tt, set_q_table self t') /\ table_wf (width self) t'.
Proof.
  intros Hwf Hds Hdns Hidx.
  destruct (update_rows self s a r s' d ds dns idx Hwf Hds Hdns Hidx) as (cur & fut & t' & Hrun & _).
  destruct (update_cases self s a r s' d Hwf) as [(t'' & Hrun' & Hwf'') | (e & Hrun' & _)].
  - by exists t''.
  - rewrite Hrun in Hrun'. discriminate.
Qed.

(** The fields other than the table are those of the starting agent. *)
Lemma set_q_table_fields (self : QAgent A) (t : qtable) :
  actions (set_q_table self t) = actions self /\ lr (set_q_table self t) = lr self /\
  gamma (set_q_table self t) = gamma self /\ width (set_q_table self t) = width self.
Proof. done. Qed.


(** One step of the rule on the closed form [V (1 - c^k)]. *)
Lemma td_step_closed (alpha g r q fut : Q) (k : nat) :
  g < 1 -> q == r / (1 - g) * (1 - qpow (1 - alpha * (1 - g)) k) -> fut == q ->
  q + alpha * (r + g * fut - q) == r / (1 - g) * (1 - qpow (1 - alpha * (1 - g)) (S k)).
Proof.
  intros Hg Hq Hf. rewrite Hf, Hq. cbn [qpow].
  set (p := qpow (1 - alpha * (1 - g)) k). field. intros E. lra.
Qed.

Lemma td_rate_range (alpha g : Q) : 0 < alpha <= 1 -> 0 <= g < 1 -> 0 <= 1 - alpha * (1 - g) < 1.
Proof.
  intros Ha Hg.
  assert (0 < alpha * (1 - g)) by (apply Qmult_lt_0_compat; lra).
  assert (alpha * (1 - g) <= 1 * 1) by (apply Qmult_le_compat_nonneg; lra).
  lra.
Qed.

(** The value of the rewarded action after [k] self-loop updates from a
    zero row, in closed form. *)
Lemma repeat_update_closed (self : QAgent A) (s : game_state) (fav : A) (r : Q) ds i k :
  table_wf (width self) (q_table self) ->
  discretize_state s = Ret ds -> list_index fav (actions self) = Ret i ->
  (dd_getitem (width self) ds (q_table self)).1 = np_zeros (width self) ->
  0 < lr self <= 1 -> 0 <= gamma self < 1 -> 0 <= r ->
  let x := repeat_update k s fav r s false self in
  x = set_q_table self (q_table x) /\ table_wf (width self) (q_table x) /\
  exists q, (dd_getitem (width self) ds (q_table x)).1 = <[i := q]> (np_zeros (width self)) /\
    q == r / (1 - gamma self) * (1 - qpow (1 - lr self * (1 - gamma self)) k).
Proof.
  intros Hwf Hds Hi Hrow Hlr Hg Hr.
  pose proof (list_index_lt _ _ _ Hi) as Hin. fold (width self) in Hin.
  pose proof (td_rate_range _ _ Hlr Hg) as Hc.
  assert (HV : 0 <= r / (1 - gamma self)) by (apply Qle_shift_div_l; lra).
  induction k as [|k IH]; intros x.
  - unfold x, repeat_update. change (Nat.iter 0 ?f self) with self.
    split; [by rewrite set_q_table_id|]. split; [done|]. exists 0. split.
    + rewrite Hrow. symmetry. apply list_insert_id, lookup_replicate. split; [done | lia].
    + cbn [qpow]. ring.
  - destruct IH as (Hx & Hwfx & q & Hrowx & Hq). unfold x, repeat_update. rewrite Nat.iter_succ.
    fold (repeat_update k s fav r s false self).
    set (y := repeat_update k s fav r s false self) in *.
    rewrite Hx in Hwfx |- *. rewrite Hx in Hrowx. set (ty := q_table y) in *.
    cbn [q_table set_q_table] in Hwfx, Hrowx.
    assert (Hq0 : 0 <= q).
    { rewrite Hq. apply Qmult_le_0_compat; [done|].
      pose proof (qpow_le_1 (1 - lr self * (1 - gamma self)) k ltac:(lra)). lra. }
    destruct (update_success (set_q_table self ty) s fav r s false ds ds i Hwfx Hds Hds Hi)
      as (t' & Hrun & Hwf').
    destruct (update_row_after (set_q_table self ty) s fav r s false ds ds i ds Hwfx Hds Hds Hi)
      as (cur & fut & Hcur & Hfut & Hnew).
    rewrite Hrun in Hnew |- *. cbn [snd q_table set_q_table] in Hnew |- *.
    rewrite set_q_table_twice. split; [done|]. split; [done|].
    unfold width in Hcur, Hfut, Hnew, Hrowx |- *.
    cbn [actions lr gamma q_table set_q_table] in Hcur, Hfut, Hnew.
    fold (width self) in Hcur, Hfut, Hnew, Hrowx |- *.
    rewrite Hrowx in Hcur, Hfut, Hnew.
    rewrite list_lookup_insert_eq in Hcur by (by rewrite np_zeros_length). injection Hcur as <-.
    destruct (np_max_single (width self) i q Hin Hq0) as (m & Hm & Hmq). rewrite Hm in Hfut.
    injection Hfut as <-.
    exists (q + lr self * (r + gamma self * m - q)). split.
    + rewrite Hnew, decide_True by done. apply list_insert_insert_eq.
    + apply td_step_closed; [lra | done | done].
Qed.


(** One application of the rule keeps a value in [[-B, B]] when the
    reward is bounded by [R] and [R + gamma * B <= B]. *)
Lemma td_bounded (alpha g r cur fut R B : Q) :
  0 <= alpha <= 1 -> 0 <= g -> Qabs cur <= B -> Qabs fut <= B -> Qabs r <= R ->
  R + g * B <= B -> Qabs (cur + alpha * (r + g * fut - cur)) <= B.
Proof.
  intros Ha Hg Hc Hf Hr HB.
  apply Qabs_Qle_condition in Hc, Hf, Hr. apply Qabs_Qle_condition.
  assert (- (g * B) <= g * fut <= g * B) as [Hgf1 Hgf2].
  { split; [setoid_replace (- (g * B)) with (g * - B) by ring|];
      apply Qmult_le_mono_nonneg_l; lra. }
  assert (- B <= r + g * fut <= B) as [HT1 HT2] by lra.
  assert (alpha * (r + g * fut) <= alpha * B) by (apply Qmult_le_mono_nonneg_l; lra).
  assert (alpha * (- B) <= alpha * (r + g * fut)) by (apply Qmult_le_mono_nonneg_l; lra).
  assert ((1 - alpha) * cur <= (1 - alpha) * B) by (apply Qmult_le_mono_nonneg_l; lra).
  assert ((1 - alpha) * (- B) <= (1 - alpha) * cur) by (apply Qmult_le_mono_nonneg_l; lra).
  setoid_replace (cur + alpha * (r + g * fut - cur)) with ((1 - alpha) * cur + alpha * (r + g * fut)) by ring.
  split; lra.
Qed.

(** Every row read through the default of a bounded table is bounded. *)
Lemma row_bounded (n : nat) (B : Q) (t : qtable) (c : code) :
  0 <= B -> table_bounded B t -> Forall (fun x => Qabs x <= B) (dd_getitem n c t).1.
Proof.
  intros HB Ht. rewrite dd_getitem_value. destruct (t !! c) as [v|] eqn:E; simpl.
  - exact (Ht c v E).
  - apply Forall_replicate. by rewrite Qabs_pos by lra.
Qed.


(** ** Properties *)

(** C16: Boundedness.  If every stored value lies in [[-B, B]], rewards
    are bounded by [R], [0 <= lr <= 1], [0 <= gamma] and
    [R + gamma * B <= B] (for instance [B = R / (1 - gamma)]), then after
    any call of [update] (returning or raising) every stored value still
    lies in [[-B, B]]. *)
Theorem update_bounded (self : QAgent A) (s : game_state) (a : A) (r : Q) (s' : game_state)
    (d : bool) (R B : Q) :
  table_wf (width self) (q_table self) -> table_bounded B (q_table self) ->
  0 <= B -> 0 <= lr self <= 1 -> 0 <= gamma self -> Qabs r <= R -> R + gamma self * B <= B ->
  table_bounded B (q_table (update s a r s' d self).2).
Proof.
  intros Hwf Hb HB Hlr Hg Hr HRB.
  destruct (discretize_state s) as [ds|e] eqn:Hds;
    [|by unfold update, pbind, plift; rewrite Hds].
  destruct (discretize_state s') as [dns|e] eqn:Hdns;
    [|by unfold update, pbind, plift; rewrite Hds, Hdns].
  destruct (list_index a (actions self)) as [idx|e] eqn:Hidx;
    [|by unfold update, pbind, plift, pget; rewrite Hds, Hdns, Hidx].
  destruct (update_rows self s a r s' d ds dns idx Hwf Hds Hdns Hidx)
    as (cur & fut & t' & -> & Hcur & Hfut & Hrows & _). cbn [snd q_table set_q_table].
  intros c v Hcv. pose proof (Hrows c) as Hc.
  rewrite (dd_getitem_hit _ _ _ _ Hcv) in Hc. cbn [fst] in Hc. rewrite Hc.
  pose proof (row_bounded (width self) B _ ds HB Hb) as Hds_b.
  case_decide; [|by apply row_bounded].
  apply Forall_insert; [done|].
  apply (td_bounded _ _ _ _ _ R); try done.
  - exact (Forall_lookup_1 _ _ _ _ Hds_b Hcur).
  - destruct d; [subst fut; rewrite Qabs_pos; lra|].
    pose proof (row_bounded (width self) B _ dns HB Hb) as Hdns_b.
    destruct (np_max_spec (dd_getitem (width self) dns (q_table self)).1) as (m & Hm & Hin & _).
    { intros E. rewrite E in Hfut. discriminate. }
    rewrite Hm in Hfut. injection Hfut as ->. rewrite Forall_forall in Hdns_b. by apply Hdns_b.
Qed.

(** C17: The convergence sanity check of the spec.  Feed [update] the
    same transition [(s, fav, r, s, done = False)] [k] times, starting
    from a zero row for [s] ([s] loops to itself under [fav]), with
    [0 < lr <= 1], [0 <= gamma < 1] and [r >= 0].  After [k] calls the
    row of [s] is zero except at [fav]'s index, which holds
    [r / (1 - gamma) * (1 - c^k)] with [c = 1 - lr * (1 - gamma)]; so
    that value converges to [r / (1 - gamma)] from below: for every
    tolerance [eps > 0] there is an [N] such that after every [k >= N]
    updates it lies in [[r / (1 - gamma) - eps, r / (1 - gamma)]]. *)
Theorem td_converges (self : QAgent A) (s : game_state) (fav : A) (r : Q) ds i (eps : Q) :
  table_wf (width self) (q_table self) ->
  discretize_state s = Ret ds -> list_index fav (actions self) = Ret i ->
  (dd_getitem (width self) ds (q_table self)).1 = np_zeros (width self) ->
  0 < lr self <= 1 -> 0 <= gamma self < 1 -> 0 <= r -> 0 < eps ->
  (forall k, exists q,
    (dd_getitem (width self) ds (q_table (repeat_update k s fav r s false self))).1 =
      <[i := q]> (np_zeros (width self)) /\
    q == r / (1 - gamma self) * (1 - qpow (1 - lr self * (1 - gamma self)) k)) /\
  exists N, forall k, (N <= k)%nat -> exists q,
    (dd_getitem (width self) ds (q_table (repeat_update k s fav r s false self))).1 !! i = Some q /\
    r / (1 - gamma self) - eps <= q <= r / (1 - gamma self).
Proof.
  intros Hwf Hds Hi Hrow Hlr Hg Hr He.
  split; [intros k; by destruct (repeat_update_closed self s fav r ds i k Hwf Hds Hi Hrow Hlr Hg Hr)
                       as (_ & _ & Hq)|].
  pose proof (list_index_lt _ _ _ Hi) as Hin. fold (width self) in Hin.
  pose proof (td_rate_range _ _ Hlr Hg) as Hc.
  assert (HV : 0 <= r / (1 - gamma self)) by (apply Qle_shift_div_l; lra).
  destruct (qpow_eventually_small _ _ _ Hc HV He) as [N HN].
  exists N. intros k Hk.
  destruct (repeat_update_closed self s fav r ds i k Hwf Hds Hi Hrow Hlr Hg Hr) as (_ & _ & q & -> & Hq).
  exists q. rewrite list_lookup_insert_eq by (by rewrite np_zeros_length). split; [done|].
  specialize (HN k Hk).
  pose proof (qpow_nonneg (1 - lr self * (1 - gamma self)) k ltac:(lra)).
  assert (0 <= r / (1 - gamma self) * qpow (1 - lr self * (1 - gamma self)) k)
    by (by apply Qmult_le_0_compat).
  rewrite Hq. split; lra.
Qed.

End Loop.



(** ** Witnesses *)

Lemma update_bounded_witness :
  table_bounded 100 (q_table (update sample_state 119%nat 1 low_state false agent0).2).
Proof.
  apply (update_bounded agent0 sample_state 119%nat 1 low_state false 1 100);
    [apply table_wf_empty | apply map_Forall_empty | discriminate
    | split; discriminate | discriminate | discriminate | discriminate].
Defined.

Lemma td_converges_witness :
  (forall k, exists q,
    (dd_getitem 2 code0 (q_table (repeat_update k sample_state 119%nat 1 sample_state false agent0))).1 =
      <[0%nat := q]> (np_zeros 2) /\
    q == 1 / (1 - (99 # 100)) * (1 - qpow (1 - (1 # 10) * (1 - (99 # 100))) k)) /\
  exists N, forall k, (N <= k)%nat -> exists q,
    (dd_getitem 2 code0 (q_table (repeat_update k sample_state 119%nat 1 sample_state false agent0))).1
      !! 0%nat = Some q /\
    1 / (1 - (99 # 100)) - (1 # 10) <= q <= 1 / (1 - (99 # 100)).
Proof.
  apply (td_converges agent0 sample_state 119%nat 1 code0 0 (1 # 10));
    [apply table_wf_empty | reflexivity | reflexivity | reflexivity
    | split; [reflexivity | discriminate] | split; [discriminate | reflexivity]
    | discriminate | reflexivity].
Defined.

End Learning.
