(* ===== verification/Driver.v ===== *)
(** * The training driver as a state machine

    The driver that plays episodes is not in the sources; the spec (§2,
    §6) fixes the calls it makes on a [QAgent]: [act] and [update] once
    per environment step, [decay_epsilon] once per episode, and
    [save_q_table] / [load_q_table] at checkpoints, in any order.  This
    file models every such call as a transition of a world made of the
    agent, the global [np.random] generator and the file system (shared
    by every agent that saves or loads), whether the call returns or
    raises, and proves by rule induction the invariant every reachable
    world satisfies. *)

From Stdlib Require Import QArith Lqa.
From stdpp Require Import base list gmap strings relations.
From S2P Require Import Prelude Discretize QTable QAgent Persistence Schedule.

Open Scope Q_scope.

Module Driver.
Import StateDiscretizer QTable DQAgent Persistence Schedule.

Section Driver.
Context {A G : Type} `{EqDecision A} `{NpRandom G}.

Record world : Type := mkWorld {
  w_agent : QAgent A;
  w_rng : G;
  w_fs : filesystem
}.

(** One call of the driver on the agent. *)
Inductive step : world -> world -> Prop :=
  | step_act w (s : game_state) o self' g' :
      act s (w_agent w, w_rng w) = (o, (self', g')) ->
      step w (mkWorld self' g' (w_fs w))
  | step_update w (s : game_state) (a : A) (r : Q) (s' : game_state) (d : bool) o self' :
      update s a r s' d (w_agent w) = (o, self') ->
      step w (mkWorld self' (w_rng w) (w_fs w))
  | step_decay w :
      step w (mkWorld (decay_epsilon (w_agent w)) (w_rng w) (w_fs w))
  | step_save w (path : string) :
      step w (mkWorld (w_agent w) (w_rng w) (save_q_table path (w_agent w) (w_fs w)))
  | step_load w (path : string) o self' :
      load_q_table path (w_fs w) (w_agent w) = (o, self') ->
      step w (mkWorld self' (w_rng w) (w_fs w)).

(** Every pickled table on disk has width [n]. *)
Definition files_wf (n : nat) (fs : filesystem) : Prop :=
  forall p d, fs !! p = Some (PickledDict d) -> table_wf n d.

(** The invariant of a world whose agent has the actions [acts] and the
    floor [m0]: the table and every saved table have width [len(acts)],
    the hyper-parameters keep their values and ranges, and epsilon lies
    in [[m0, 1]]. *)
Definition world_inv (acts : list A) (m0 : Q) (w : world) : Prop :=
  let self := w_agent w in
  actions self = acts /\ min_epsilon self = m0 /\ table_wf (length acts) (q_table self) /\
  files_wf (length acts) (w_fs w) /\
  0 <= m0 <= 1 /\ 0 <= epsilon_decay self <= 1 /\ m0 <= epsilon self <= 1.

End Driver.
Arguments world : clear implicits.


(** ** A concrete run *)

Definition world0 : world nat Z := mkWorld agent0 7%Z ∅.
(** The world after saving the table and ending one episode. *)
Definition world2 : world nat Z :=
  mkWorld (decay_epsilon agent0) 7%Z (save_q_table "flappy_birds_q_table.pkl" agent0 ∅).


(** ** Preservation, one call at a time *)

Section Proofs.
Context {A G : Type} `{EqDecision A} `{NpRandom G}.
Implicit Types w : world A G.

(** The epsilon update of [decay_epsilon] stays in [[min_epsilon, e]]. *)
Lemma decay_value_range (m e d : Q) :
  0 <= m -> m <= e -> 0 <= d <= 1 -> m <= py_max m (e * d) <= e.
Proof.
  intros Hm He Hd. split; [apply py_max_ge_l|]. apply py_max_lub; [done|].
  assert (e * d <= e * 1) by (apply Qmult_le_mono_nonneg_l; lra). lra.
Qed.

Lemma world_inv_table (acts : list A) m0 w t :
  world_inv acts m0 w -> table_wf (length acts) t ->
  world_inv acts m0 (mkWorld (set_q_table (w_agent w) t) (w_rng w) (w_fs w)).
Proof.
  intros (Ha & Hm0 & _ & Hf & Hm & Hd & He) Ht. unfold world_inv.
  cbn [w_agent w_fs set_q_table actions q_table min_epsilon epsilon_decay epsilon]. tauto.
Qed.

Lemma step_preserves_inv (acts : list A) m0 w w' :
  world_inv acts m0 w -> step w w' -> world_inv acts m0 w'.
Proof.
  intros Hinv Hstep. pose proof Hinv as (Ha & Hm0 & Hwf & Hf & Hm & Hd & He).
  assert (Hn : width (w_agent w) = length acts) by (unfold width; by rewrite Ha).
  rewrite <- Hn in Hwf.
  destruct Hstep as [w s o self' g' Hact | w s a r s' d o self' Hupd | w | w path | w path o self' Hload].
  - destruct (act_frame s (w_agent w) (w_rng w) Hwf) as (t' & Ht' & Hwf').
    rewrite Hact in Ht'. cbn [fst snd] in Ht'. subst self'.
    rewrite Hn in Hwf'. by apply (world_inv_table acts m0 w t').
  - destruct (update_cases (w_agent w) s a r s' d Hwf) as [(t' & Hrun & Hwf') | (e & Hrun & _)];
      rewrite Hupd in Hrun; injection Hrun as -> ->.
    + rewrite Hn in Hwf'. by apply (world_inv_table acts m0 w t').
    + by destruct w.
  - pose proof (decay_value_range m0 (epsilon (w_agent w))
                  (epsilon_decay (w_agent w)) ltac:(lra) ltac:(lra) ltac:(lra)) as Hr.
    rewrite Hn in Hwf. unfold world_inv.
    cbn [w_agent w_fs decay_epsilon set_epsilon actions q_table min_epsilon epsilon_decay epsilon].
    rewrite Hm0. repeat split; try tauto; lra.
  - rewrite Hn in Hwf. unfold world_inv. cbn [w_agent w_fs]. repeat split; try tauto.
    intros p dd Hp. rewrite save_q_table_eq in Hp.
    destruct (decide (path = p)) as [<-|Hne].
    + rewrite lookup_insert_eq in Hp. by injection Hp as <-.
    + rewrite lookup_insert_ne in Hp by done. by apply (Hf p).
  - unfold load_q_table in Hload. destruct (w_fs w !! path) as [[q|]|] eqn:Hp;
      injection Hload as <- <-.
    + apply (world_inv_table acts m0 w q Hinv). by apply (Hf path).
    + by destruct w.
    + apply (world_inv_table acts m0 w ∅ Hinv), table_wf_empty.
Qed.

(** A call changes epsilon only through [decay_epsilon], which never
    increases it. *)
Lemma step_epsilon_le (acts : list A) m0 w w' :
  world_inv acts m0 w -> step w w' -> epsilon (w_agent w') <= epsilon (w_agent w).
Proof.
  intros (Ha & Hm0 & Hwf & Hf & Hm & Hd & He) Hstep.
  assert (Hn : width (w_agent w) = length acts) by (unfold width; by rewrite Ha).
  rewrite <- Hn in Hwf.
  destruct Hstep as [w s o self' g' Hact | w s a r s' d o self' Hupd | w | w path | w path o self' Hload];
    cbn [w_agent].
  - destruct (act_frame s (w_agent w) (w_rng w) Hwf) as (t' & Ht' & _).
    rewrite Hact in Ht'. cbn [fst snd] in Ht'. subst self'. cbn. lra.
  - destruct (update_cases (w_agent w) s a r s' d Hwf) as [(t' & Hrun & _) | (e & Hrun & _)];
      rewrite Hupd in Hrun; injection Hrun as -> ->; cbn; lra.
  - cbn [decay_epsilon set_epsilon epsilon]. rewrite Hm0.
    pose proof (decay_value_range m0 (epsilon (w_agent w))
                  (epsilon_decay (w_agent w)) ltac:(lra) ltac:(lra) ltac:(lra)). lra.
  - lra.
  - unfold load_q_table in Hload. destruct (w_fs w !! path) as [[q|]|];
      injection Hload as <- <-; cbn; lra.
Qed.



Lemma reachable_inv (acts : list A) m0 w w' :
  world_inv acts m0 w -> rtc step w w' -> world_inv acts m0 w'.
Proof.
  intros Hinv Hrtc. induction Hrtc as [w|w w1 w' Hstep _ IH]; [done|].
  apply IH. by eapply step_preserves_inv.
Qed.

(** Along a run from the invariant, epsilon never increases. *)
Lemma reachable_epsilon_le (acts : list A) m0 w w' :
  world_inv acts m0 w -> rtc step w w' -> epsilon (w_agent w') <= epsilon (w_agent w).
Proof.
  intros Hinv Hrtc. induction Hrtc as [w|w w1 w' Hstep Hrtc IH]; [lra|].
  pose proof (step_epsilon_le acts m0 w w1 Hinv Hstep).
  specialize (IH (step_preserves_inv acts m0 w w1 Hinv Hstep)). lra.
Qed.

(** The constructor with the default hyper-parameters starts in the
    invariant when every table on disk has the right width. *)
Lemma init_default_inv (acts : list A) (fs : filesystem) self (g : G) :
  QAgent_init_default acts fs = Ret self -> files_wf (length acts) fs ->
  world_inv acts (1 # 100) (mkWorld self g fs).
Proof.
  intros Hinit Hf. unfold QAgent_init_default, QAgent_init, path_truthy in Hinit.
  rewrite bool_decide_false in Hinit by done. cbn [negb] in Hinit.
  unfold world_inv. cbn [w_agent w_fs].
  destruct (fs !! "flappy_birds_q_table.pkl"%string) as [[q|]|] eqn:Hp; simplify_eq;
    cbn [actions q_table min_epsilon epsilon_decay epsilon defaultdict_of_dict];
    (repeat split; try done; try discriminate; try apply table_wf_empty).
  by apply (Hf "flappy_birds_q_table.pkl"%string).
Qed.

(** ** Properties *)

(** C10: The driver invariant.  Start from an agent built by the
    constructor with its default arguments, over a file system whose
    pickled tables all have one entry per action in every row.  In every
    world reached by any sequence of [act], [update], [decay_epsilon],
    [save_q_table] and [load_q_table] calls, returning or raising: the
    actions are unchanged, every row of the table and of every saved
    table has [len(actions)] entries (no key is ever partially present),
    and [0.01 <= epsilon <= 1].  From any such world on, epsilon never
    increases: only [decay_epsilon] changes it, never upwards, and
    loading a table does not reset it. *)
Theorem driver_invariant (acts : list A) (fs : filesystem) self (g : G) w :
  QAgent_init_default acts fs = Ret self -> files_wf (length acts) fs ->
  rtc step (mkWorld self g fs) w ->
  actions (w_agent w) = acts /\ table_wf (length acts) (q_table (w_agent w)) /\
  files_wf (length acts) (w_fs w) /\ 1 # 100 <= epsilon (w_agent w) <= 1 /\
  (forall w', rtc step w w' -> epsilon (w_agent w') <= epsilon (w_agent w)).
Proof.
  intros Hinit Hf Hrtc.
  pose proof (reachable_inv acts _ _ w (init_default_inv acts fs self g Hinit Hf) Hrtc) as Hinv.
  pose proof Hinv as (Ha & _ & Hwf & Hfs & _ & _ & He).
  do 4 (split; [done|]). intros w' Hw'. exact (reachable_epsilon_le acts (1 # 100) w w' Hinv Hw').
Qed.

(** C11: Safety on every reachable world: with a lawful generator and a
    non-empty action list, in any world reachable from the invariant,
    [act] on a state that discretizes returns one of the actions and
    raises nothing. *)
Theorem driver_act_safe `{!NpRandomLaws G} (acts : list A) m0 w w' (s : game_state) ds :
  world_inv acts m0 w -> acts <> [] -> rtc step w w' -> discretize_state s = Ret ds ->
  exists a (st : QAgent A * G), act s (w_agent w', w_rng w') = (Ret a, st) /\ a ∈ acts.
Proof.
  intros Hinv Hne Hrtc Hds.
  destruct (reachable_inv acts m0 w w' Hinv Hrtc) as (Ha & _ & Hwf & _).
  assert (Hn : width (w_agent w') = length acts) by (unfold width; by rewrite Ha).
  rewrite <- Hn in Hwf. rewrite <- Ha in Hne.
  destruct (act_returns_action s ds (w_agent w') (w_rng w') Hds Hwf Hne)
    as (a & self' & g' & Hact & Hin & _).
  exists a, (self', g'). rewrite <- Ha. by split.
Qed.

End Proofs.


(** ** Witnesses *)

Lemma world0_world2 : rtc step world0 world2.
Proof.
  eapply rtc_l; [apply (step_save world0 "flappy_birds_q_table.pkl")|].
  eapply rtc_l; [apply step_decay|]. apply rtc_refl.
Qed.

Lemma files_wf_empty (n : nat) : files_wf n ∅.
Proof. intros p d Hp. by rewrite lookup_empty in Hp. Qed.

Lemma world0_inv : world_inv flap_actions (1 # 100) world0.
Proof.
  apply (init_default_inv flap_actions ∅ agent0 7%Z); [reflexivity | apply files_wf_empty].
Qed.


Lemma driver_invariant_witness :
  actions (w_agent world2) = flap_actions /\ table_wf 2 (q_table (w_agent world2)) /\
  files_wf 2 (w_fs world2) /\ 1 # 100 <= epsilon (w_agent world2) <= 1 /\
  (forall w', rtc step world2 w' -> epsilon (w_agent w') <= epsilon (w_agent world2)).
Proof.
  apply (driver_invariant flap_actions ∅ agent0 7%Z world2);
    [reflexivity | apply files_wf_empty | apply world0_world2].
Defined.

Lemma driver_act_safe_witness :
  exists a (st : QAgent nat * Z), act sample_state (w_agent world2, w_rng world2) = (Ret a, st) /\
    a ∈ flap_actions.
Proof.
  apply (driver_act_safe flap_actions (1 # 100) world0 world2 sample_state code0);
    [apply world0_inv | discriminate | apply world0_world2 | reflexivity].
Defined.

End Driver.
