(* ===== verification/Spec.v ===== *)
(** * The learner's contract and its refinement by the code

    The spec (sections 3 and 4.2) describes the tabular learner
    abstractly: a value table that is a total map from codes to action
    vectors (an absent code reads as zeros), an exploration rate, an
    [act] that explores with probability epsilon (any action) and
    otherwise returns the first best action, an [update] that rewrites
    one cell by the temporal-difference rule or fails (discretization
    fault, unknown action), a [decay_epsilon], and [persist]/[restore]
    of snapshots.  This file states that contract as a labelled
    transition relation [aspec] on abstract states, the calls of the
    driver with what they return as labels ([lstep], one constructor per
    rule of [Driver.step]), the abstraction of a world (the table read
    through the default, the saved tables likewise), and proves a
    forward simulation: every trace of calls of the code on a world
    whose tables have the right width and whose files are readable is a
    trace of the contract.  Probability is abstracted as choice: the
    contract allows exploring only when epsilon is positive and
    exploiting only when epsilon is below 1.  The files that are not
    pickled tables are excluded: there the code raises where the spec
    falls back to an empty table (a finding of [Persistence]). *)

From Stdlib Require Import QArith Lqa.
From stdpp Require Import base list gmap strings relations.
From S2P Require Import Prelude Discretize QTable QAgent Persistence Schedule Driver.

Open Scope Q_scope.

Module LearnerSpec.
Import StateDiscretizer QTable DQAgent Persistence Schedule Driver.

(** What a caller sees of one call: the call, its arguments, and what
    it returned. *)
Inductive label (A : Type) : Type :=
  | LAct (s : game_state) (o : outcome A)
  | LUpdate (s : game_state) (a : A) (r : Q) (s' : game_state) (d : bool) (o : outcome unit)
  | LDecay
  | LPersist (path : string)
  | LRestore (path : string) (o : outcome unit).
Arguments LAct {A} s o.
Arguments LUpdate {A} s a r s' d o.
Arguments LDecay {A}.
Arguments LPersist {A} path.
Arguments LRestore {A} path o.

(** A run of a labelled relation. *)
Inductive ltrace {S L : Type} (R : S -> L -> S -> Prop) : S -> list L -> S -> Prop :=
  | ltrace_nil x : ltrace R x [] x
  | ltrace_cons x l y ls z : R x l y -> ltrace R y ls z -> ltrace R x (l :: ls) z.

Section Spec.
Context {A : Type} `{EqDecision A}.

(** ** The contract *)

(** The learner's state as the spec describes it: the value table is
    total (absent codes read as zeros), snapshots are tables too. *)
Record astate : Type := mkAState {
  a_actions : list A;
  a_alpha : Q;
  a_gamma : Q;
  a_eps : Q;
  a_decay : Q;
  a_min : Q;
  a_values : code -> list Q;
  a_snapshots : string -> option (code -> list Q)
}.

Definition set_values (σ : astate) (v : code -> list Q) : astate :=
  mkAState (a_actions σ) (a_alpha σ) (a_gamma σ) (a_eps σ) (a_decay σ) (a_min σ) v (a_snapshots σ).

Definition set_eps (σ : astate) (e : Q) : astate :=
  mkAState (a_actions σ) (a_alpha σ) (a_gamma σ) e (a_decay σ) (a_min σ) (a_values σ) (a_snapshots σ).

Definition set_snapshot (σ : astate) (path : string) (v : code -> list Q) : astate :=
  mkAState (a_actions σ) (a_alpha σ) (a_gamma σ) (a_eps σ) (a_decay σ) (a_min σ) (a_values σ)
    (fun p => if decide (p = path) then Some v else a_snapshots σ p).

(** The table after writing [x] into cell [(ds, idx)]: one scalar. *)
Definition write_cell (v : code -> list Q) (ds : code) (idx : nat) (x : Q) : code -> list Q :=
  fun c => if decide (c = ds) then <[idx := x]> (v ds) else v c.

(** Section 4.2, one rule per outcome of each operation. *)
Inductive aspec : astate -> label A -> astate -> Prop :=
  | as_explore σ s ds a :
      discretize_state s = Ret ds -> 0 < a_eps σ -> a ∈ a_actions σ ->
      aspec σ (LAct s (Ret a)) σ
  | as_exploit σ s ds i a :
      discretize_state s = Ret ds -> a_eps σ < 1 ->
      np_argmax (a_values σ ds) = Ret i -> a_actions σ !! i = Some a ->
      aspec σ (LAct s (Ret a)) σ
  | as_act_fault σ s e :
      discretize_state s = Raise e -> aspec σ (LAct s (Raise e)) σ
  | as_update σ (s : game_state) (a : A) (r : Q) (s' : game_state) (d : bool) ds dns idx (cur fut : Q) :
      discretize_state s = Ret ds -> discretize_state s' = Ret dns ->
      list_index a (a_actions σ) = Ret idx -> a_values σ ds !! idx = Some cur ->
      (if d then fut = 0 else np_max (a_values σ dns) = Ret fut) ->
      aspec σ (LUpdate s a r s' d (Ret tt))
        (set_values σ (write_cell (a_values σ) ds idx
                         (cur + a_alpha σ * (r + a_gamma σ * fut - cur))))
  | as_update_fault σ s a r s' d e :
      discretize_state s = Raise e -> aspec σ (LUpdate s a r s' d (Raise e)) σ
  | as_update_fault' σ s a r s' d ds e :
      discretize_state s = Ret ds -> discretize_state s' = Raise e ->
      aspec σ (LUpdate s a r s' d (Raise e)) σ
  | as_update_bad_action σ s a r s' d ds dns :
      discretize_state s = Ret ds -> discretize_state s' = Ret dns -> a ∉ a_actions σ ->
      aspec σ (LUpdate s a r s' d (Raise ValueError)) σ
  | as_decay σ :
      aspec σ LDecay (set_eps σ (py_max (a_min σ) (a_eps σ * a_decay σ)))
  | as_persist σ path :
      aspec σ (LPersist path) (set_snapshot σ path (a_values σ))
  | as_restore σ path v :
      a_snapshots σ path = Some v -> aspec σ (LRestore path (Ret tt)) (set_values σ v)
  | as_restore_missing σ path :
      a_snapshots σ path = None ->
      aspec σ (LRestore path (Ret tt)) (set_values σ (fun _ => np_zeros (length (a_actions σ)))).

End Spec.
Arguments astate : clear implicits.

(** ** The code, call by call *)

Section Code.
Context {A G : Type} `{EqDecision A} `{NpRandom G}.

(** [Driver.step] with what each call returned. *)
Inductive lstep : world A G -> label A -> world A G -> Prop :=
  | ls_act w (s : game_state) o self' g' :
      act s (w_agent w, w_rng w) = (o, (self', g')) ->
      lstep w (LAct s o) (mkWorld self' g' (w_fs w))
  | ls_update w (s : game_state) (a : A) (r : Q) (s' : game_state) (d : bool) o self' :
      update s a r s' d (w_agent w) = (o, self') ->
      lstep w (LUpdate s a r s' d o) (mkWorld self' (w_rng w) (w_fs w))
  | ls_decay w :
      lstep w LDecay (mkWorld (decay_epsilon (w_agent w)) (w_rng w) (w_fs w))
  | ls_save w (path : string) :
      lstep w (LPersist path) (mkWorld (w_agent w) (w_rng w) (save_q_table path (w_agent w) (w_fs w)))
  | ls_load w (path : string) o self' :
      load_q_table path (w_fs w) (w_agent w) = (o, self') ->
      lstep w (LRestore path o) (mkWorld self' (w_rng w) (w_fs w)).

(** The table read through the default. *)
Definition view (n : nat) (t : qtable) : code -> list Q := fun c => (dd_getitem n c t).1.

(** A saved table as the learner that restores it reads it. *)
Definition file_view (n : nat) (f : option file) : option (code -> list Q) :=
  match f with
  | Some (PickledDict d) => Some (view n d)
  | _ => None
  end.

(** The abstraction of a world: what the contract sees of it. *)
Definition abstr (w : world A G) : astate A :=
  let self := w_agent w in let n := width self in
  mkAState (actions self) (lr self) (gamma self) (epsilon self) (epsilon_decay self)
    (min_epsilon self) (view n (q_table self)) (fun p => file_view n (w_fs w !! p)).

(** Two abstract states are the same learner: equal attributes, equal
    tables and snapshots at every code. *)
Definition aequiv (σ1 σ2 : astate A) : Prop :=
  a_actions σ1 = a_actions σ2 /\ a_alpha σ1 = a_alpha σ2 /\ a_gamma σ1 = a_gamma σ2 /\
  a_eps σ1 = a_eps σ2 /\ a_decay σ1 = a_decay σ2 /\ a_min σ1 = a_min σ2 /\
  (forall c, a_values σ1 c = a_values σ2 c) /\
  (forall p, option_Forall2 (fun v1 v2 => forall c, v1 c = v2 c) (a_snapshots σ1 p) (a_snapshots σ2 p)).

(** The match between a world and an abstract state. *)
Definition match_world (w : world A G) (σ : astate A) : Prop := aequiv σ (abstr w).

(** Every file is a pickled table. *)
Definition files_readable (fs : filesystem) : Prop :=
  forall p, fs !! p <> Some OtherBytes.

(** The worlds the simulation starts from and stays in. *)
Definition spec_inv (w : world A G) : Prop :=
  let self := w_agent w in
  actions self <> [] /\ table_wf (width self) (q_table self) /\
  files_wf (width self) (w_fs w) /\ files_readable (w_fs w).

End Code.


(** ** The contract up to equal tables *)

Section SpecProofs.
Context {A : Type} `{EqDecision A}.

#[export] Instance aequiv_equivalence : Equivalence (@aequiv A).
Proof.
  split.
  - intros σ. repeat split; try done. intros p. destruct (a_snapshots σ p); by constructor.
  - intros σ1 σ2 (? & ? & ? & ? & ? & ? & Hv & Hs). repeat split; try done.
    intros p. specialize (Hs p). inversion Hs; constructor. intros c. by symmetry.
  - intros σ1 σ2 σ3 (? & ? & ? & ? & ? & ? & Hv12 & Hs12) (? & ? & ? & ? & ? & ? & Hv23 & Hs23).
    repeat split; try congruence.
    intros p. specialize (Hs12 p). specialize (Hs23 p).
      inversion Hs12 as [v1 v2 H12 E1 E2|E1 E2]; rewrite <- E2 in Hs23;
        inversion Hs23 as [v2' v3 H23|]; constructor. intros c. by rewrite H12.
Qed.

(** Equal learners allow the same calls with the same results, and end
    equal. *)
Lemma aspec_aequiv (σ1 σ2 σ2' : astate A) (l : label A) :
  aequiv σ1 σ2 -> aspec σ2 l σ2' -> exists σ1', aspec σ1 l σ1' /\ aequiv σ1' σ2'.
Proof.
  intros Heq Hs. pose proof Heq as (Ha & Hal & Hg & He & Hd & Hm & Hv & Hsn).
  destruct Hs as [σ s ds a Hds Heps Hin | σ s ds i a Hds Heps Hi Ha'
    | σ s e Hds | σ s a r s' d ds dns idx cur fut Hds Hdns Hidx Hcur Hfut
    | σ s a r s' d e Hds | σ s a r s' d ds e Hds Hdns | σ s a r s' d ds dns Hds Hdns Hin
    | σ | σ path | σ path v Hv' | σ path Hnone].
  - exists σ1. split; [|done]. eapply as_explore; [done | by rewrite He | by rewrite Ha].
  - exists σ1. split; [|done]. eapply as_exploit; [done | by rewrite He | by rewrite Hv | by rewrite Ha].
  - exists σ1. split; [by constructor | done].
  - eexists. split.
    + eapply as_update; [done | done | by rewrite Ha | by rewrite Hv | ].
      destruct d; [done|]. by rewrite Hv.
    + repeat split; try done. intros c. cbn. unfold write_cell.
      rewrite Hal, Hg. case_decide; subst; by rewrite Hv.
  - exists σ1. split; [by constructor | done].
  - exists σ1. split; [by eapply as_update_fault' | done].
  - exists σ1. split; [|done]. eapply as_update_bad_action; [done | done | by rewrite Ha].
  - eexists. split; [apply as_decay|]. repeat split; try done. cbn. by rewrite Hm, He, Hd.
  - eexists. split; [apply as_persist|]. repeat split; try done.
    intros p. cbn. case_decide; [constructor; intros c; apply Hv | apply Hsn].
  - pose proof (Hsn path) as Hp. rewrite Hv' in Hp. inversion Hp as [v1 v2 H12 E1|].
    eexists. split; [by apply as_restore|]. repeat split; try done.
  - pose proof (Hsn path) as Hp. rewrite Hnone in Hp. inversion Hp as [|E1].
    eexists. split; [by apply as_restore_missing|]. repeat split; try done.
    all: try (intros c; cbn; by rewrite Ha).
Qed.

End SpecProofs.


(** ** One call of the code is one transition of the contract *)

Section CodeProofs.
Context {A G : Type} `{EqDecision A} `{NpRandom G}.
Implicit Types w : world A G.

(** A world whose agent changed only its table, to a read-equivalent
    one, has the same abstraction. *)
Lemma abstr_read_equiv w (t : qtable) (g : G) :
  read_equiv (width (w_agent w)) (q_table (w_agent w)) t ->
  aequiv (abstr w) (abstr (mkWorld (set_q_table (w_agent w) t) g (w_fs w))).
Proof.
  intros Ht. repeat split; try done.
  - intros c. unfold abstr, view. cbn [a_values w_agent w_fs set_q_table q_table].
    rewrite !dd_getitem_value. apply Ht.
  - intros p. unfold abstr. cbn [a_snapshots w_agent w_fs].
    destruct (w_fs w !! p) as [[d|]|]; by repeat constructor.
Qed.

(** [act] is [as_explore], [as_exploit] or [as_act_fault], and leaves
    the abstraction unchanged. *)
Lemma act_simulates `{!NpRandomLaws G} w (s : game_state) o self' g' :
  spec_inv w -> act s (w_agent w, w_rng w) = (o, (self', g')) ->
  aspec (abstr w) (LAct s o) (abstr w) /\ aequiv (abstr w) (abstr (mkWorld self' g' (w_fs w))).
Proof.
  intros (Hne & Hwf & _) Hact.
  destruct (discretize_state s) as [ds|e] eqn:Hds;
    [| unfold act, pbind, plift in Hact; rewrite Hds in Hact; simplify_eq;
       split; [by constructor | by destruct w]].
  rewrite (act_run s ds _ _ Hds) in Hact. pose proof (np_rand_range (w_rng w)) as Hu.
  destruct (Qltb _ _) eqn:Hlt.
  - apply Qltb_iff in Hlt. rewrite random_choice_run in Hact by done.
    assert (0 < length (actions (w_agent w)))%nat by (destruct (actions _); simpl; [done | lia]).
    destruct (py_getitem_lt (actions (w_agent w)) _ (np_choice_index_lt _ (np_rand (w_rng w)).2 ltac:(done)))
      as (a & Ha & Ha'). rewrite Ha in Hact. simplify_eq.
    split; [|by destruct w]. eapply as_explore; [done | cbn; lra | by eapply list_elem_of_lookup_2].
  - apply Qltb_false in Hlt. cbv zeta in Hact.
    destruct (dd_getitem_width (width (w_agent w)) ds _ Hwf) as [Hlen _].
    destruct (np_argmax_spec (dd_getitem (width (w_agent w)) ds (q_table (w_agent w))).1) as (i & m & Hi & _).
    { intros E. rewrite E in Hlen. unfold width in Hlen. destruct (actions _); [done | discriminate]. }
    pose proof (np_argmax_lt _ _ Hi) as Hil. rewrite Hlen in Hil.
    destruct (py_getitem_lt (actions (w_agent w)) i Hil) as (a & Ha & Ha').
    rewrite Hi in Hact. cbn [obind] in Hact. rewrite Ha in Hact. simplify_eq.
    split; [eapply as_exploit; [done | cbn; lra | exact Hi | done]|].
    apply abstr_read_equiv. symmetry. apply dd_getitem_read_equiv.
Qed.


(** [update] is one of the four [as_update] rules. *)
Lemma update_simulates w (s : game_state) (a : A) (r : Q) (s' : game_state) (d : bool) o self' :
  spec_inv w -> update s a r s' d (w_agent w) = (o, self') ->
  exists σ', aspec (abstr w) (LUpdate s a r s' d o) σ' /\
    aequiv σ' (abstr (mkWorld self' (w_rng w) (w_fs w))).
Proof.
  intros (_ & Hwf & _) Hupd.
  destruct (discretize_state s) as [ds|e] eqn:Hds;
    [| unfold update, pbind, plift in Hupd; rewrite Hds in Hupd; simplify_eq;
       eexists; split; [by constructor | by destruct w]].
  destruct (discretize_state s') as [dns|e] eqn:Hdns;
    [| unfold update, pbind, plift in Hupd; rewrite Hds, Hdns in Hupd; simplify_eq;
       eexists; split; [by eapply as_update_fault' | by destruct w]].
  destruct (list_index a (actions (w_agent w))) as [idx|e] eqn:Hidx.
  - destruct (update_rows (w_agent w) s a r s' d ds dns idx Hwf Hds Hdns Hidx)
      as (cur & fut & t' & Hrun & Hcur & Hfut & Hrows & _).
    rewrite Hrun in Hupd. simplify_eq.
    eexists. split; [eapply as_update; [done | done | exact Hidx | exact Hcur | exact Hfut]|].
    repeat split; try done.
    + intros c. unfold abstr, view, write_cell.
      cbn [a_values a_alpha a_gamma set_values w_agent set_q_table q_table].
      change (width (set_q_table (w_agent w) t')) with (width (w_agent w)).
      rewrite (Hrows c). by case_decide.
    + intros p. unfold abstr. cbn [a_snapshots set_values w_agent w_fs].
      destruct (w_fs w !! p) as [[dd|]|]; by repeat constructor.
  - pose proof Hidx as [Hnot ->]%list_index_raise.
    unfold update, pbind, plift, pget in Hupd. rewrite Hds, Hdns, Hidx in Hupd. simplify_eq.
    eexists. split; [by eapply as_update_bad_action | by destruct w].
Qed.

(** [save_q_table] is [as_persist]. *)
Lemma save_simulates w (path : string) :
  aequiv (set_snapshot (abstr w) path (a_values (abstr w)))
         (abstr (mkWorld (w_agent w) (w_rng w) (save_q_table path (w_agent w) (w_fs w)))).
Proof.
  repeat split; try done. intros p. unfold abstr, set_snapshot.
  cbn [a_snapshots a_values w_agent w_fs]. rewrite save_q_table_eq. case_decide as Hp.
  - subst. rewrite lookup_insert_eq. by repeat constructor.
  - rewrite lookup_insert_ne by done. destruct (w_fs w !! p) as [[dd|]|]; by repeat constructor.
Qed.

(** [load_q_table] from a readable or missing file is [as_restore] or
    [as_restore_missing]. *)
Lemma load_simulates w (path : string) o self' :
  spec_inv w -> load_q_table path (w_fs w) (w_agent w) = (o, self') ->
  exists σ', aspec (abstr w) (LRestore path o) σ' /\
    aequiv σ' (abstr (mkWorld self' (w_rng w) (w_fs w))).
Proof.
  intros (_ & _ & _ & Hread) Hload. unfold load_q_table in Hload.
  destruct (w_fs w !! path) as [[dd|]|] eqn:Hp; [| by destruct (Hread path) |]; simplify_eq.
  - eexists. split; [apply as_restore; unfold abstr; cbn; by rewrite Hp|].
    repeat split; try done. intros p. unfold abstr. cbn [a_snapshots set_values w_agent w_fs].
    destruct (w_fs w !! p) as [[d'|]|]; by repeat constructor.
  - eexists. split; [apply as_restore_missing; unfold abstr; cbn; by rewrite Hp|].
    repeat split; try done. intros p. unfold abstr. cbn [a_snapshots set_values w_agent w_fs].
    destruct (w_fs w !! p) as [[d'|]|]; by repeat constructor.
Qed.


(** A world whose agent changed only its table, to one of the right
    width, stays in the invariant. *)
Lemma spec_inv_table w (t : qtable) (g : G) :
  spec_inv w -> table_wf (width (w_agent w)) t ->
  spec_inv (mkWorld (set_q_table (w_agent w) t) g (w_fs w)).
Proof. intros (Hne & _ & Hf & Hr) Ht. by repeat split. Qed.

Lemma lstep_spec_inv w l w' : spec_inv w -> lstep w l w' -> spec_inv w'.
Proof.
  intros Hinv Hs. pose proof Hinv as (Hne & Hwf & Hf & Hr).
  destruct Hs as [w s o self' g' Hact | w s a r s' d o self' Hupd | w | w path | w path o self' Hload].
  - destruct (act_frame s (w_agent w) (w_rng w) Hwf) as (t' & Ht' & Hwf').
    rewrite Hact in Ht'. cbn [fst snd] in Ht'. subst self'. by apply spec_inv_table.
  - destruct (update_cases (w_agent w) s a r s' d Hwf) as [(t' & Hrun & Hwf') | (e & Hrun & _)];
      rewrite Hupd in Hrun; injection Hrun as -> ->; [by apply spec_inv_table | by destruct w].
  - done.
  - repeat split; try done; cbn [w_fs w_agent]; intros p; rewrite save_q_table_eq;
      (destruct (decide (path = p)) as [<-|Hne']; [rewrite lookup_insert_eq | rewrite lookup_insert_ne by done]).
    + intros dd [= <-]. exact Hwf.
    + by apply Hf.
    + done.
    + apply Hr.
  - unfold load_q_table in Hload. destruct (w_fs w !! path) as [[dd|]|] eqn:Hp;
      injection Hload as <- <-.
    + apply spec_inv_table; [done|]. by apply (Hf path).
    + by destruct w.
    + apply spec_inv_table; [done | apply table_wf_empty].
Qed.

(** The simulation diagram: one call of the code from a world of the
    invariant is one transition of the contract between the
    abstractions. *)
Lemma simulation_step `{!NpRandomLaws G} w l w' :
  spec_inv w -> lstep w l w' -> exists σ', aspec (abstr w) l σ' /\ aequiv σ' (abstr w').
Proof.
  intros Hinv Hs.
  destruct Hs as [w s o self' g' Hact | w s a r s' d o self' Hupd | w | w path | w path o self' Hload].
  - destruct (act_simulates w s o self' g' Hinv Hact) as [Ha He]. by exists (abstr w).
  - by apply update_simulates.
  - eexists. split; [apply as_decay | reflexivity].
  - eexists. split; [apply as_persist | apply save_simulates].
  - by apply load_simulates.
Qed.

(** ** Properties *)

(** C9: The code refines the spec's learner.  From a world whose agent
    has actions, whose table and saved tables have one entry per action
    in every row and whose files are all pickled tables, every sequence
    of calls of [act], [update], [decay_epsilon], [save_q_table] and
    [load_q_table], with what each returned (an action, an exception,
    nothing), is a trace of the contract of section 4.2, from any
    abstract state equal to the world's abstraction; the final
    abstract state is again the abstraction of the final world. *)
Theorem driver_refines_spec `{!NpRandomLaws G} w (σ : astate A) ls w' :
  spec_inv w -> aequiv σ (abstr w) -> ltrace lstep w ls w' ->
  exists σ', ltrace aspec σ ls σ' /\ aequiv σ' (abstr w').
Proof.
  intros Hinv Heq Htr. revert σ Hinv Heq.
  induction Htr as [w|w l w1 ls w' Hs Htr IH]; intros σ Hinv Heq; [exists σ; split; [constructor | done]|].
  destruct (simulation_step w l w1 Hinv Hs) as (σ1 & Hσ1 & Heq1).
  destruct (aspec_aequiv σ (abstr w) σ1 l Heq Hσ1) as (σ' & Hσ' & Heq').
  destruct (IH σ' (lstep_spec_inv w l w1 Hinv Hs) (transitivity Heq' Heq1)) as (σ'' & Htr' & Heq'').
  exists σ''. split; [by econstructor|done].
Qed.

End CodeProofs.


(** ** Witnesses *)

Lemma world0_spec_inv : spec_inv world0.
Proof.
  split; [discriminate|]. split; [apply table_wf_empty|].
  change (w_fs world0) with (∅ : filesystem).
  split; [intros p d Hp; by rewrite lookup_empty in Hp | intros p; by rewrite lookup_empty].
Qed.

(** Act on [sample_state], update on the transition to [low_state],
    decay, save: a trace of the contract. *)
Lemma driver_refines_spec_witness :
  exists ls (w' : world nat Z), ltrace lstep world0 ls w' /\ length ls = 4%nat /\
    exists σ', ltrace aspec (abstr world0) ls σ' /\ aequiv σ' (abstr w').
Proof.
  destruct (act sample_state (w_agent world0, w_rng world0)) as [o [self1 g1]] eqn:Hact.
  destruct (update sample_state 0%nat 1 low_state false self1) as [o2 self2] eqn:Hupd.
  set (w1 := mkWorld self1 g1 (w_fs world0)). set (w2 := mkWorld self2 (w_rng w1) (w_fs w1)).
  set (w3 := mkWorld (decay_epsilon (w_agent w2)) (w_rng w2) (w_fs w2)).
  eexists [LAct sample_state o; LUpdate sample_state 0%nat 1 low_state false o2; LDecay;
           LPersist "flappy_birds_q_table.pkl"%string], _.
  assert (Htr : ltrace lstep world0
      [LAct sample_state o; LUpdate sample_state 0%nat 1 low_state false o2; LDecay;
       LPersist "flappy_birds_q_table.pkl"%string]
      (mkWorld (w_agent w3) (w_rng w3)
         (save_q_table "flappy_birds_q_table.pkl" (w_agent w3) (w_fs w3)))).
  { econstructor; [by apply ls_act|]. econstructor; [by apply (ls_update w1)|].
    econstructor; [apply (ls_decay w2)|]. econstructor; [apply (ls_save w3)|]. constructor. }
  split; [exact Htr|]. split; [reflexivity|].
  apply (driver_refines_spec world0 (abstr world0) _ _ world0_spec_inv ltac:(reflexivity) Htr).
Defined.

End LearnerSpec.
