(* ===== verification/Shared.v ===== *)
(** * Learners sharing one persisted table

    The spec (section 5) lets several learners train in parallel against
    the same persisted table; the core gives no concurrency guarantee
    and the caller must serialise access.  The learners are separate
    processes: each has its own [QAgent] and its own [np.random]
    generator, and all of them save to and load from one file system.
    This file models such a run in the style of a thread pool: a
    configuration is the list of learners and the shared file system,
    and a step lets the learner at one index make one call of the
    driver ([LearnerSpec.lstep], labelled with the call and what it
    returned) on the shared file system while the others wait.

    It proves that any interleaving keeps every learner in the driver's
    invariant when all of them have the same actions, and that
    [save_q_table] and [load_q_table] are not a transaction: two
    learners that load the same snapshot and then both save lose the
    first one's update, which the serial order of the same calls
    keeps.  A snapshot records nothing of the actions it was learned
    with: a learner with other actions restores it without an error
    and fails later, in [act]. *)

From Stdlib Require Import QArith Lqa.
From stdpp Require Import base list gmap strings relations.
From S2P Require Import Prelude Discretize QTable QAgent Persistence Schedule Driver Spec.

Open Scope Q_scope.

Module Shared.
Import StateDiscretizer QTable DQAgent Persistence Schedule Driver LearnerSpec.

Section Shared.
Context {A G : Type} `{EqDecision A} `{NpRandom G}.

(** The learners, each an agent and its generator, and the one file
    system they share. *)
Record config : Type := mkConfig {
  c_learners : list (QAgent A * G);
  c_fs : filesystem
}.

(** The world the learner [l] sees. *)
Definition learner_world (l : QAgent A * G) (fs : filesystem) : world A G :=
  mkWorld l.1 l.2 fs.

(** One call by the learner at index [i]: its agent and generator are
    replaced by the call's results, and the call's effect on the files
    is seen by every learner. *)
Inductive cstep : config -> nat * label A -> config -> Prop :=
  | cstep_call c (i : nat) l (lbl : label A) w' :
      c_learners c !! i = Some l ->
      lstep (learner_world l (c_fs c)) lbl w' ->
      cstep c (i, lbl) (mkConfig (<[i := (w_agent w', w_rng w')]> (c_learners c)) (w_fs w')).

(** Two learners, 0 and 1, restore the snapshot at [path]; learner 0
    makes the call [u] and saves; learner 1 saves.  In the serial
    schedule learner 0 finishes before learner 1 restores. *)
Definition race_schedule (path : string) (u : label A) : list (nat * label A) :=
  [(0, LRestore path (Ret tt)); (1, LRestore path (Ret tt)); (0, u);
   (0, LPersist path); (1, LPersist path)]%nat.

Definition serial_schedule (path : string) (u : label A) : list (nat * label A) :=
  [(0, LRestore path (Ret tt)); (0, u); (0, LPersist path);
   (1, LRestore path (Ret tt)); (1, LPersist path)]%nat.

End Shared.
Arguments config : clear implicits.


(** ** Running a schedule *)

Section Steps.
Context {A G : Type} `{EqDecision A} `{NpRandom G}.

(** A step by the learner at [i], with the configuration it leaves
    given up to conversion. *)
Lemma cstep_intro c (i : nat) l (lbl : label A) w' c' :
  c_learners c !! i = Some l -> lstep (learner_world l (c_fs c)) lbl w' ->
  c' = mkConfig (<[i := (w_agent w', w_rng w')]> (c_learners c)) (w_fs w') ->
  cstep c (i, lbl) c'.
Proof. intros Hl Hs ->. by econstructor. Qed.

(** [load_q_table] of a pickled table as a labelled call. *)
Lemma lstep_restore (self : QAgent A) (g : G) (fs : filesystem) (path : string) (d : qtable) :
  fs !! path = Some (PickledDict d) ->
  lstep (mkWorld self g fs) (LRestore path (Ret tt))
        (mkWorld (set_q_table self (defaultdict_of_dict d)) g fs).
Proof. intros Hp. apply ls_load. unfold load_q_table. cbn [w_fs]. by rewrite Hp. Qed.

(** A labelled trace whose end is given up to an equation. *)
Lemma ltrace_end {S L : Type} (R : S -> L -> S -> Prop) x ls y y' :
  ltrace R x ls y -> y = y' -> ltrace R x ls y'.
Proof. by intros ? ->. Qed.

End Steps.

(** Take the next call of a schedule, discharging the call with [l]. *)
Ltac run_call l :=
  eapply ltrace_cons;
  [ eapply cstep_intro; [reflexivity | l | reflexivity]
  | cbn [c_learners c_fs insert list_insert w_agent w_rng w_fs learner_world fst snd] ].


(** ** Two learners over one snapshot *)

Definition shared_path : string := "flappy_birds_q_table.pkl".
Definition shared_fs : filesystem := {[shared_path := PickledDict ∅]}.
(** Two processes of the training script with different seeds. *)
Definition shared0 : config nat Z := mkConfig [(agent0, 1%Z); (agent0, 2%Z)] shared_fs.
(** Learner 0's update after restoring the snapshot. *)
Definition shared_upd : outcome unit * QAgent nat :=
  update sample_state 119%nat 1 low_state false (set_q_table agent0 (defaultdict_of_dict ∅)).

(** A learner whose table prefers doing nothing (index 1) at [code0], and
    a greedy learner that only knows the flap action. *)
Definition wide_agent : QAgent nat := set_q_table agent0 {[code0 := [0; 1]]}.
Definition flap_only : QAgent nat := mkQAgent [119%nat] (1 # 10) (99 # 100) 0 (995 # 1000) (1 # 100) ∅.

(** ** Determinism and the invariant *)

Section Proofs.
Context {A G : Type} `{EqDecision A} `{NpRandom G}.
Implicit Types (w : world A G) (c : config A G).

(** A labelled call has one result: the label records the arguments and
    what the call returned. *)
Lemma lstep_det w (l : label A) w1 w2 : lstep w l w1 -> lstep w l w2 -> w1 = w2.
Proof. intros H1 H2. destruct H1; inversion H2; simplify_eq; congruence. Qed.

Lemma cstep_det c il c1 c2 : cstep c il c1 -> cstep c il c2 -> c1 = c2.
Proof.
  intros H1 H2. destruct H1 as [c i l lbl w1 Hl H1].
  inversion H2 as [? ? l' ? w2 Hl' H2']; subst. rewrite Hl in Hl'. injection Hl' as <-.
  by rewrite (lstep_det _ _ _ _ H1 H2').
Qed.

Lemma ltrace_cstep_det c ils c1 c2 :
  ltrace cstep c ils c1 -> ltrace cstep c ils c2 -> c1 = c2.
Proof.
  intros H1. revert c2. induction H1 as [c|c il c' ils c1 Hs _ IH]; intros c2 H2;
    inversion H2; subst; [done|].
  apply IH. by rewrite (cstep_det _ _ _ _ Hs ltac:(eassumption)).
Qed.

(** The labelled call is a call of the driver. *)
Lemma lstep_step w (l : label A) w' : lstep w l w' -> step w w'.
Proof. intros []; econstructor; eassumption. Qed.

(** The driver's invariant of a learner depends on the files only
    through their widths. *)
Lemma world_inv_files (acts : list A) m0 self (g : G) (fs fs' : filesystem) :
  world_inv acts m0 (mkWorld self g fs) -> files_wf (length acts) fs' ->
  world_inv acts m0 (mkWorld self g fs').
Proof. unfold world_inv. cbn [w_agent w_fs]. tauto. Qed.

(** The files have the width of [acts], and every learner of the
    configuration is in the driver's invariant. *)
Definition config_inv (acts : list A) (m0 : Q) c : Prop :=
  files_wf (length acts) (c_fs c) /\
  Forall (fun l => world_inv acts m0 (learner_world l (c_fs c))) (c_learners c).

Lemma cstep_preserves_inv (acts : list A) m0 c il c' :
  config_inv acts m0 c -> cstep c il c' -> config_inv acts m0 c'.
Proof.
  intros [_ Hinv] Hstep. destruct Hstep as [c i l lbl w' Hl Hs].
  unfold config_inv in *. cbn [c_learners c_fs].
  pose proof (Forall_lookup_1 _ _ _ _ Hinv Hl) as Hi.
  pose proof (step_preserves_inv acts m0 _ _ Hi (lstep_step _ _ _ Hs)) as Hi'.
  assert (Hf : files_wf (length acts) (w_fs w')) by apply Hi'.
  split; [done|]. apply Forall_insert.
  - eapply Forall_impl; [exact Hinv|]. intros [self g] Hw. by eapply world_inv_files.
  - by destruct w'.
Qed.

Lemma ltrace_preserves_inv (acts : list A) m0 c ils c' :
  config_inv acts m0 c -> ltrace cstep c ils c' -> config_inv acts m0 c'.
Proof.
  intros Hinv Htr. induction Htr as [|c il c1 ils c' Hs _ IH]; [done|].
  apply IH. by eapply cstep_preserves_inv.
Qed.

Lemma cstep_length c il c' : cstep c il c' -> length (c_learners c') = length (c_learners c).
Proof. intros Hs. destruct Hs. cbn [c_learners]. apply length_insert. Qed.

Lemma ltrace_length c ils c' : ltrace cstep c ils c' -> length (c_learners c') = length (c_learners c).
Proof. induction 1 as [|? ? ? ? ? Hs _ IH]; [done|]. by rewrite IH, (cstep_length _ _ _ Hs). Qed.

(** ** Properties *)

(** C12: Any interleaving keeps the driver's invariant.  Start from
    learners all built by the constructor with its default arguments and
    the same actions, over files whose pickled tables all have one entry
    per action in every row.  After any sequence of calls of any of the
    learners, in any order, on the shared files: there are as many
    learners, every pickled table on disk still has [len(actions)]
    entries per row, and every learner keeps its actions, a table with
    rows of that width and [0.01 <= epsilon <= 1].  A save by one
    learner never breaks another: it writes a table of the same
    width. *)
Theorem shared_invariant (acts : list A) (fs : filesystem) (ls0 : list (QAgent A * G)) ils c :
  Forall (fun l => QAgent_init_default acts fs = Ret l.1) ls0 -> files_wf (length acts) fs ->
  ltrace cstep (mkConfig ls0 fs) ils c ->
  length (c_learners c) = length ls0 /\ files_wf (length acts) (c_fs c) /\
  Forall (fun l => actions l.1 = acts /\ table_wf (length acts) (q_table l.1) /\
                   1 # 100 <= epsilon l.1 <= 1) (c_learners c).
Proof.
  intros Hinit Hf Htr. split; [exact (ltrace_length _ _ _ Htr)|].
  assert (Hinv : config_inv acts (1 # 100) (mkConfig ls0 fs)).
  { split; [done|]. eapply Forall_impl; [exact Hinit|]. intros [self g] Hs.
    exact (init_default_inv acts fs self g Hs Hf). }
  destruct (ltrace_preserves_inv _ _ _ _ _ Hinv Htr) as [Hf' Hls]. split; [done|].
  eapply Forall_impl; [exact Hls|]. intros l (Ha & _ & Hwf & _ & _ & _ & He). done.
Qed.

(** C34: Saving and loading are not a transaction (spec section 5: the
    caller must serialise).  Two learners share a pickled snapshot [d]
    at [path].  If both restore it, then learner 0 makes an [update] and
    saves, and then learner 1 saves, the run has exactly one result: the
    file system is the one the run started from, so learner 0's update
    is lost on disk although learner 0 still holds it.  The serial
    order of the same calls (learner 0 restores, updates and saves
    before learner 1 restores and saves) has exactly one result too: the
    file holds learner 0's updated table, and learner 1 has it. *)
Theorem shared_lost_update (self1 self2 : QAgent A) (g1 g2 : G) (fs : filesystem) (path : string)
    (d : qtable) (s : game_state) (a : A) (r : Q) (s' : game_state) (dn : bool) o self1' c :
  fs !! path = Some (PickledDict d) ->
  update s a r s' dn (set_q_table self1 (defaultdict_of_dict d)) = (o, self1') ->
  (ltrace cstep (mkConfig [(self1, g1); (self2, g2)] fs) (race_schedule path (LUpdate s a r s' dn o)) c <->
   c = mkConfig [(self1', g1); (set_q_table self2 (defaultdict_of_dict d), g2)] fs) /\
  (ltrace cstep (mkConfig [(self1, g1); (self2, g2)] fs) (serial_schedule path (LUpdate s a r s' dn o)) c <->
   c = mkConfig [(self1', g1); (set_q_table self2 (q_table self1'), g2)]
                (<[path := PickledDict (q_table self1')]> fs)).
Proof.
  intros Hp Hu.
  assert (Hs1 : save_q_table path self1' fs !! path = Some (PickledDict (q_table self1')))
    by apply lookup_insert_eq.
  split; split; [intros Htr; eapply ltrace_cstep_det; [exact Htr|] | intros ->
                | intros Htr; eapply ltrace_cstep_det; [exact Htr|] | intros -> ].
  1,2: run_call ltac:(by apply lstep_restore); run_call ltac:(by apply lstep_restore);
       run_call ltac:(by apply ls_update); run_call ltac:(apply ls_save);
       run_call ltac:(apply ls_save); apply ltrace_end with (1 := ltrace_nil _ _);
       rewrite !save_q_table_eq; by rewrite insert_insert_eq, insert_id.
  all: run_call ltac:(by apply lstep_restore); run_call ltac:(by apply ls_update);
       run_call ltac:(apply ls_save); run_call ltac:(by apply lstep_restore);
       run_call ltac:(apply ls_save); apply ltrace_end with (1 := ltrace_nil _ _);
       rewrite !save_q_table_eq; by rewrite insert_insert_eq.
Qed.

(** C35: A snapshot carries no record of the actions it was learned
    with (spec section 6 leaves a version field as an open question).
    When learner 0 saves to [path] and learner 1, whatever its actions,
    restores it, the restore returns normally and is the only result:
    learner 1 now holds learner 0's table.  If a row of that table has
    its first maximum at an index past learner 1's actions, learner 1's
    greedy [act] on a state of that row raises [IndexError]. *)
Theorem shared_foreign_actions (self0 self1 : QAgent A) (g0 g1 : G) (fs : filesystem) (path : string) c :
  (ltrace cstep (mkConfig [(self0, g0); (self1, g1)] fs)
     [(0, LPersist path); (1, LRestore path (Ret tt))]%nat c <->
   c = mkConfig [(self0, g0); (set_q_table self1 (q_table self0), g1)] (save_q_table path self0 fs)) /\
  (forall (s : game_state) ds v i,
     discretize_state s = Ret ds -> q_table self0 !! ds = Some v -> np_argmax v = Ret i ->
     (length (actions self1) <= i)%nat -> epsilon self1 <= (np_rand g1).1 ->
     (act s (set_q_table self1 (q_table self0), g1)).1 = Raise IndexError).
Proof.
  assert (Hp : save_q_table path self0 fs !! path = Some (PickledDict (q_table self0)))
    by apply lookup_insert_eq.
  split; [split|].
  - intros Htr. eapply ltrace_cstep_det; [exact Htr|].
    run_call ltac:(apply ls_save). run_call ltac:(by apply lstep_restore). apply ltrace_nil.
  - intros ->. run_call ltac:(apply ls_save). run_call ltac:(by apply lstep_restore). apply ltrace_nil.
  - intros s ds v i Hds Hv Hi Hlen He. rewrite (act_run s ds _ g1 Hds).
    cbn [epsilon set_q_table q_table actions]. rewrite (proj2 (Qltb_false _ _) He).
    rewrite (dd_getitem_hit _ _ _ _ Hv). cbn [fst obind]. rewrite Hi. cbn [obind].
    unfold py_getitem. by rewrite (lookup_ge_None_2 _ _ Hlen).
Qed.

End Proofs.

(** ** Witnesses *)

Lemma shared_invariant_witness :
  length (c_learners (mkConfig [(agent0, 1%Z); (decay_epsilon agent0, 2%Z)] (save_q_table shared_path agent0 ∅))) = 2%nat /\
  files_wf 2 (c_fs (mkConfig [(agent0, 1%Z); (decay_epsilon agent0, 2%Z)] (save_q_table shared_path agent0 ∅))) /\
  Forall (fun l : QAgent nat * Z => actions l.1 = flap_actions /\ table_wf 2 (q_table l.1) /\
                   1 # 100 <= epsilon l.1 <= 1)
    (c_learners (mkConfig [(agent0, 1%Z); (decay_epsilon agent0, 2%Z)] (save_q_table shared_path agent0 ∅))).
Proof.
  apply (shared_invariant flap_actions ∅ [(agent0, 1%Z); (agent0, 2%Z)]
           [(0%nat, LPersist shared_path); (1%nat, LDecay)]).
  - repeat constructor.
  - apply files_wf_empty.
  - run_call ltac:(apply ls_save). run_call ltac:(apply ls_decay). apply ltrace_nil.
Defined.

Lemma shared_lost_update_witness :
  q_table shared_upd.2 !! code0 <> Some [0; 0] /\
  ltrace cstep shared0 (race_schedule shared_path (LUpdate sample_state 119%nat 1 low_state false shared_upd.1))
    (mkConfig [(shared_upd.2, 1%Z); (set_q_table agent0 (defaultdict_of_dict ∅), 2%Z)] shared_fs) /\
  ltrace cstep shared0 (serial_schedule shared_path (LUpdate sample_state 119%nat 1 low_state false shared_upd.1))
    (mkConfig [(shared_upd.2, 1%Z); (set_q_table agent0 (q_table shared_upd.2), 2%Z)]
              (<[shared_path := PickledDict (q_table shared_upd.2)]> shared_fs)).
Proof.
  split; [vm_compute; discriminate|].
  assert (Hu : update sample_state 119%nat 1 low_state false (set_q_table agent0 (defaultdict_of_dict ∅)) =
               (shared_upd.1, shared_upd.2)) by (vm_compute; reflexivity).
  split.
  - apply (shared_lost_update agent0 agent0 1%Z 2%Z shared_fs shared_path ∅ sample_state 119%nat 1
             low_state false shared_upd.1 shared_upd.2 _ eq_refl Hu). reflexivity.
  - apply (shared_lost_update agent0 agent0 1%Z 2%Z shared_fs shared_path ∅ sample_state 119%nat 1
             low_state false shared_upd.1 shared_upd.2 _ eq_refl Hu). reflexivity.
Defined.

Lemma shared_foreign_actions_witness :
  ltrace cstep (mkConfig [(wide_agent, 1%Z); (flap_only, 2%Z)] ∅)
    [(0, LPersist shared_path); (1, LRestore shared_path (Ret tt))]%nat
    (mkConfig [(wide_agent, 1%Z); (set_q_table flap_only (q_table wide_agent), 2%Z)]
              (save_q_table shared_path wide_agent ∅)) /\
  (act sample_state (set_q_table flap_only (q_table wide_agent), 2%Z)).1 = Raise IndexError.
Proof.
  destruct (shared_foreign_actions wide_agent flap_only 1%Z 2%Z ∅ shared_path
              (mkConfig [(wide_agent, 1%Z); (set_q_table flap_only (q_table wide_agent), 2%Z)]
                        (save_q_table shared_path wide_agent ∅))) as [[_ Htr] Hact].
  split; [by apply Htr|].
  apply (Hact sample_state code0 [0; 1] 1%nat); [reflexivity | reflexivity | reflexivity | simpl; lia |].
  apply Qle_bool_iff. vm_compute. reflexivity.
Defined.

End Shared.
