(* ===== verification/Episode.v ===== *)
(** * One training episode of the driver

    The spec (section 5, "CLI/training driver", and section 4, one
    [act]/[update] pair per environment step) describes the loop that
    uses the agent: in each step it calls [act] on the observation,
    hands the action to the environment, which answers with a reward,
    the next observation and [done], and calls [update] on the
    transition; when the episode ends it calls [decay_epsilon] once.
    The loop is outside src/ and is modelled from the spec.  The
    environment is an interface ([Environment]); an environment whose
    episodes end has a rank that every step that does not end the
    episode decreases ([EnvHorizon]).  The loop takes fuel: it returns
    [None] only when the fuel runs out.  The lemmas show that fuel
    beyond the environment's rank is enough for the loop to return,
    that more fuel changes nothing, and that an episode is a run of the
    driver's [step] relation (so every invariant of [Driver] holds
    after it).  The theorems show what the agent's code adds: an
    episode of a well-formed agent whose observations all discretize
    completes without an exception ([act] returns one of the actions,
    which [update] finds), and epsilon decays exactly once per
    completed episode. *)

From Stdlib Require Import QArith Lqa.
From stdpp Require Import base list gmap strings relations.
From S2P Require Import Prelude Discretize QTable QAgent Driver Persistence Schedule.

Open Scope Q_scope.

Module Episode.
Import StateDiscretizer QTable DQAgent Driver Persistence Schedule.

(** The environment: one step on an action answers
    [(reward, next_observation, done)]. *)
Class Environment (E A : Type) := env_step : E -> A -> (Q * game_state * bool) * E.

(** An environment whose episodes end: a step that does not end the
    episode lowers the rank. *)
Class EnvHorizon (E A : Type) `{Environment E A} := {
  env_rank : E -> nat;
  env_rank_dec : forall e a r s' e', env_step e a = ((r, s', false), e') -> (env_rank e' < env_rank e)%nat
}.

Section Episode.
Context {A G E : Type} `{EqDecision A} `{NpRandom G} `{Environment E A}.

(** One episode from observation [s]: [action = agent.act(s)], the
    environment's step, [agent.update(s, action, reward, s', done)];
    at the end of the episode [agent.decay_epsilon()].  An exception of
    the agent ends the loop with the world as the exception left it. *)
Fixpoint run_episode (fuel : nat) (s : game_state) (w : world A G) (e : E)
    : option (outcome unit * world A G * E) :=
  match fuel with
  | O => None
  | S fuel' =>
      match act s (w_agent w, w_rng w) with
      | (Raise ex, (self', g')) => Some (Raise ex, mkWorld self' g' (w_fs w), e)
      | (Ret a, (self', g')) =>
          match env_step e a with
          | ((r, s', done), e') =>
              match update s a r s' done self' with
              | (Raise ex, self'') => Some (Raise ex, mkWorld self'' g' (w_fs w), e')
              | (Ret _, self'') =>
                  if done then Some (Ret tt, mkWorld (decay_epsilon self'') g' (w_fs w), e')
                  else run_episode fuel' s' (mkWorld self'' g' (w_fs w)) e'
              end
          end
      end
  end.

End Episode.


(** ** A concrete environment *)

(** An environment that counts down the steps left, pays 1 per step and
    shows [sample_state] until the count reaches 0, which ends the
    episode. *)
#[export] Instance countdown_env : Environment nat nat :=
  fun k _ => ((1, sample_state, Nat.eqb k 0), Nat.pred k).


(** ** Unfolding one step of the loop *)

Section Proofs.
Context {A G E : Type} `{EqDecision A} `{NpRandom G} `{Environment E A}.
Implicit Types w : world A G.

(** Split a step of the loop on the results of [act], of the
    environment and of [update], and on [done]. *)
Ltac episode_step :=
  cbn [run_episode];
  let o := fresh "o" in let Hact := fresh "Hact" in
  let Hstep := fresh "Hstep" in let Hupd := fresh "Hupd" in
  destruct (act _ (w_agent _, w_rng _)) as [[?a|?ex] [?self' ?g']] eqn:Hact;
  [ destruct (env_step _ _) as [[[?r ?s'] [|]] ?e'] eqn:Hstep;
    destruct (update _ _ _ _ _ _) as [[[]|?ex] ?self''] eqn:Hupd
  | ].

(** More fuel changes nothing: the loop's result does not depend on the
    fuel once it has one. *)
Lemma run_episode_mono (f f' : nat) (s : game_state) w (e : E) res :
  run_episode f s w e = Some res -> (f <= f')%nat -> run_episode f' s w e = Some res.
Proof.
  revert f' s w e. induction f as [|f IH]; intros f' s w e Hrun Hle; [done|].
  destruct f' as [|f']; [lia|]. revert Hrun. episode_step; try done.
  intros Hrun. apply (IH f' _ _ _ Hrun). lia.
Qed.


(** An episode changes the agent's table, and at its normal end the
    exploration rate, and nothing else; the table keeps its width. *)
Lemma run_episode_frame (f : nat) (s : game_state) w (e : E) o w' e' :
  table_wf (width (w_agent w)) (q_table (w_agent w)) ->
  run_episode f s w e = Some (o, w', e') ->
  w_fs w' = w_fs w /\
  exists t, table_wf (width (w_agent w)) t /\
    w_agent w' = if o is Ret _ then decay_epsilon (set_q_table (w_agent w) t)
                 else set_q_table (w_agent w) t.
Proof.
  revert s w e. induction f as [|f IH]; intros s w e Hwf; [done|].
  destruct (act_frame s (w_agent w) (w_rng w) Hwf) as (t1 & Ht1 & Hwf1).
  cbn [run_episode].
  destruct (act s (w_agent w, w_rng w)) as [[a|ex] [self' g']]; cbn [fst snd] in Ht1; subst self';
    [|intros [= <- <- <-]; split; [done|]; by exists t1].
  destruct (env_step e a) as [[[r s'] d] e1].
  destruct (update_cases (set_q_table (w_agent w) t1) s a r s' d Hwf1)
    as [(t2 & -> & Hwf2) | (ex & -> & _)];
    [|intros [= <- <- <-]; split; [done|]; by exists t1].
  destruct d.
  - intros [= <- <- <-]. split; [done|]. by exists t2.
  - intros Hrun. destruct (IH s' (mkWorld (set_q_table (set_q_table (w_agent w) t1) t2) g' (w_fs w)) e1 Hwf2 Hrun)
      as [Hfs (t & Hwt & Ht)].
    split; [done|]. exists t. split; [done|]. rewrite Ht. by destruct o.
Qed.


(** One [act] and the [update] of its transition are two steps of the
    driver. *)
Lemma act_update_steps w (s : game_state) a self' g' r s' d o self'' :
  act s (w_agent w, w_rng w) = (Ret a, (self', g')) ->
  update s a r s' d self' = (o, self'') ->
  rtc step w (mkWorld self'' g' (w_fs w)).
Proof.
  intros Hact Hupd. eapply rtc_l; [by eapply (step_act w s)|].
  apply rtc_once. exact (step_update (mkWorld self' g' (w_fs w)) s a r s' d o self'' Hupd).
Qed.

(** [update] on a known action and observations that discretize
    returns, and keeps the rows' width. *)
Lemma update_known self (s : game_state) (a : A) (r : Q) (s' : game_state) (d : bool) ds dns :
  table_wf (width self) (q_table self) ->
  discretize_state s = Ret ds -> discretize_state s' = Ret dns -> a ∈ actions self ->
  exists t, update s a r s' d self = (Ret tt, set_q_table self t) /\ table_wf (width self) t.
Proof.
  intros Hwf Hds Hdns Hin.
  destruct (list_index a (actions self)) as [idx|ex] eqn:Hidx;
    [|by apply list_index_raise in Hidx as [? _]].
  destruct (update_run self s a r s' d ds dns idx Hwf Hds Hdns Hidx) as (cur & fut & _ & _ & Hrun).
  destruct (update_cases self s a r s' d Hwf) as [(t & Hu & Ht) | (ex & Hu & _)];
    [by exists t | by rewrite Hrun in Hu].
Qed.

(** ** Properties *)

(** Termination.  In an environment whose episodes end, the loop
    returns (normally or with the agent's exception) on any fuel larger
    than the environment's rank: the fuel is only a bound, never the
    reason the loop stops. *)
Lemma episode_terminates `{!EnvHorizon E A} (fuel : nat) (s : game_state) w (e : E) :
  (env_rank e < fuel)%nat -> exists res, run_episode fuel s w e = Some res.
Proof.
  revert s w e. induction fuel as [|f IH]; intros s w e Hf; [lia|].
  episode_step; try by eexists.
  apply IH. pose proof (env_rank_dec e a r s' e' Hstep). lia.
Qed.

(** An episode is a run of the driver.  Whatever the loop returns,
    the world it leaves is reached from the first by the driver's
    [step] relation ([act], [update] and [decay_epsilon] calls), so every
    invariant proved of the driver holds after every episode. *)
Lemma episode_refines_driver (fuel : nat) (s : game_state) w (e : E) o w' e' :
  run_episode fuel s w e = Some (o, w', e') -> rtc step w w'.
Proof.
  revert s w e. induction fuel as [|f IH]; intros s w e; [done|].
  episode_step; intros Hrun; simplify_eq/=.
  - apply (rtc_r _ (mkWorld self'' g' (w_fs w))); [by eapply act_update_steps|].
    exact (step_decay (mkWorld self'' g' (w_fs w))).
  - by eapply act_update_steps.
  - etrans; [by eapply act_update_steps | exact (IH _ _ _ Hrun)].
  - by eapply act_update_steps.
  - apply rtc_once. by eapply (step_act w s).
Qed.

(** C14: An episode of the learner completes.  In an environment whose
    episodes end and whose observations all discretize, an agent with
    actions and rows of the right width, started on an observation that
    discretizes, plays the episode to its end without an exception on
    any fuel above the environment's rank: [act] returns one of the
    actions, so [update]'s [actions.index] finds it, and [update]
    returns and keeps the rows' width, at every step. *)
Theorem episode_completes `{!NpRandomLaws G} `{!EnvHorizon E A} (fuel : nat) (s : game_state) w (e : E) :
  (env_rank e < fuel)%nat ->
  (forall e0 a r s' d e1, env_step e0 a = ((r, s', d), e1) -> exists ds', discretize_state s' = Ret ds') ->
  table_wf (width (w_agent w)) (q_table (w_agent w)) -> actions (w_agent w) <> [] ->
  (exists ds, discretize_state s = Ret ds) ->
  exists w' e', run_episode fuel s w e = Some (Ret tt, w', e').
Proof.
  intros Hf Hobs. revert s w e Hf. induction fuel as [|f IH]; intros s w e Hf Hwf Hne [ds Hds]; [lia|].
  destruct (act_returns_action s ds (w_agent w) (w_rng w) Hds Hwf Hne)
    as (a & self' & g' & Hact & Hin & Hself' & Hwf').
  cbn [run_episode]. rewrite Hact.
  destruct (env_step e a) as [[[r s'] d] e1] eqn:Hstep.
  destruct (Hobs e a r s' d e1 Hstep) as [dns Hdns].
  destruct (update_known self' s a r s' d ds dns) as (t & Hupd & Hwft);
    [rewrite Hself'; exact Hwf' | exact Hds | exact Hdns | rewrite Hself'; exact Hin |].
  rewrite Hupd. destruct d; [by do 2 eexists|].
  apply IH; [pose proof (env_rank_dec e a r s' e1 Hstep); lia | | | by exists dns];
    cbn [w_agent set_q_table q_table actions width] in *; rewrite Hself' in Hwft |- *; done.
Qed.

(** C15: Epsilon decays exactly once per completed episode.  An episode
    on a table of the right width changes none of the agent's
    hyper-parameters; when it ends normally epsilon is
    [max(min_epsilon, epsilon * epsilon_decay)] of its value at the
    start (one call of [decay_epsilon], none by [act] or [update]); when
    the agent raises, epsilon is unchanged. *)
Theorem episode_decays_once (fuel : nat) (s : game_state) w (e : E) o w' e' :
  table_wf (width (w_agent w)) (q_table (w_agent w)) ->
  run_episode fuel s w e = Some (o, w', e') ->
  let self := w_agent w in let self' := w_agent w' in
  actions self' = actions self /\ lr self' = lr self /\ gamma self' = gamma self /\
  epsilon_decay self' = epsilon_decay self /\ min_epsilon self' = min_epsilon self /\
  epsilon self' = if o is Ret _ then py_max (min_epsilon self) (epsilon self * epsilon_decay self)
                  else epsilon self.
Proof.
  intros Hwf Hrun self self'. destruct (run_episode_frame fuel s w e o w' e' Hwf Hrun) as [_ (t & _ & Ht)].
  subst self self'. rewrite Ht. by destruct o.
Qed.

End Proofs.


(** ** Witnesses *)

#[export] Instance countdown_horizon : EnvHorizon nat nat.
Proof.
  refine {| env_rank k := k |}. intros k a r s' e' Hk. cbv in Hk.
  destruct k; simplify_eq; lia.
Defined.

Lemma episode_completes_witness :
  exists w' e', run_episode 4 sample_state world0 2%nat = Some (Ret tt, w', e').
Proof.
  apply (episode_completes 4 sample_state world0 2%nat).
  - cbn. lia.
  - intros e0 a r s' d e1 [= _ <- _ _]. exists code0. reflexivity.
  - apply table_wf_empty.
  - discriminate.
  - exists code0. reflexivity.
Defined.

Lemma episode_decays_once_witness :
  exists w' e', run_episode 4 sample_state world0 2%nat = Some (Ret tt, w', e') /\
    epsilon (w_agent w') = py_max (1 # 100) (1 * (995 # 1000)).
Proof.
  do 2 eexists. split; [vm_compute; reflexivity|].
  edestruct (episode_decays_once 4 sample_state world0 2%nat (Ret tt)) as (_ & _ & _ & _ & _ & Heps);
    [apply table_wf_empty | vm_compute; reflexivity | exact Heps].
Defined.

End Episode.
