(* ===== verification/NNAgent.v ===== *)
(** * The neural-network agent and the shared agent interface

    [NNAgent] (src/agentes/nn_agent.py) answers with the action whose
    network output is largest.  Its [get_state] is a second copy of the
    discretizer; the network is the loaded Keras model's call on one
    row of features, which returns the output row or raises (Network.v
    models the layers of the model the training script builds).  This file models [get_state] and [act], proves the copy
    equal to [QAgent.discretize_state], and proves that the network agent
    refines the greedy table agent: exactly when the network reproduces
    the table, and approximately when the network's error is below half
    the margin of the best action.  The [Agent] class states the
    capability both agents share ([act]), with an instance for each. *)

From Stdlib Require Import QArith Qround Qabs Lqa.
From stdpp Require Import base list gmap strings.
From S2P Require Import Prelude Discretize QTable QAgent.

Open Scope Q_scope.

Module NN.
Import StateDiscretizer QTable DQAgent.

(** ** The capability the two agents share *)

(** [act(state) -> action] on an agent state [S] (with whatever global
    state the agent draws from). *)
Class Agent (S A : Type) := agent_act : game_state -> PyM S A.

Section NNAgent.
Context {A : Type} `{EqDecision A}.

(** The attributes of an [NNAgent]: [actions] from the base class and
    the loaded model, as its call on one row of features:
    [self.model(state_values, training=False).numpy()[0]]. *)
Record NNAgent : Type := mkNNAgent {
  nn_actions : list A;
  model : list Q -> outcome (list Q)
}.

Definition get_state (state : game_state) : outcome code :=
  let? player_y := dict_getitem state "player_y" in
  let? player_vel := dict_getitem state "player_vel" in
  let? pipe_dist := dict_getitem state "next_pipe_dist_to_player" in
  let? next_pipe_dist := dict_getitem state "next_next_pipe_dist_to_player" in
  let? pipe_top_y := dict_getitem state "next_pipe_top_y" in
  let? pipe_bottom_y := dict_getitem state "next_pipe_bottom_y" in
  let? next_pipe_top_y := dict_getitem state "next_next_pipe_top_y" in
  let pipe_center_y := (pipe_top_y + pipe_bottom_y) / 2 in
  let pipe_gap_height := pipe_bottom_y - pipe_top_y in
  let player_pos := py_bool_int (Qltb pipe_center_y player_y) in
  let? player_relative_y := py_div (player_y - pipe_center_y) pipe_gap_height in
  let player_zone :=
    if Qltb (3 # 10) player_relative_y then 2%Z
    else if Qltb player_relative_y (-3 # 10) then 0%Z
    else 1%Z in
  let? pipe_dist_norm := py_div pipe_dist (next_pipe_dist - pipe_dist) in
  let dist_zone :=
    if Qltb (66 # 100) pipe_dist_norm then 2%Z
    else if Qltb (33 # 100) pipe_dist_norm then 1%Z
    else 0%Z in
  let pipe_height_trend := np_sign (next_pipe_top_y - pipe_top_y) in
  let player_vel_norm := (player_vel + 10) / 20 in
  let player_vel_bin := py_int (np_clip (player_vel_norm * 4) 0 3) in
  Ret (player_pos, player_vel_bin, py_bool_int (Z.leb 0 pipe_height_trend),
       player_zone, dist_zone).

(** [np.array(state_values, dtype=np.float32).reshape(1, -1)]: the five
    small integers are exact in float32. *)
Definition features (c : code) : list Q :=
  let '(p, v, t, z, d) := c in [inject_Z p; inject_Z v; inject_Z t; inject_Z z; inject_Z d].

Definition nn_act (self : NNAgent) (state : game_state) : outcome A :=
  let? state_values := get_state state in
  let? actions := model self (features state_values) in
  let? action_index := np_argmax actions in
  py_getitem (nn_actions self) action_index.

End NNAgent.
Arguments NNAgent : clear implicits.

#[export] Instance nn_agent_act {A} : Agent (NNAgent A) A :=
  fun state self => (nn_act self state, self).

#[export] Instance q_agent_act {A G} `{EqDecision A} `{NpRandom G} : Agent (QAgent A * G) A :=
  act.


(** ** Concrete networks *)

(** A network that answers zeros everywhere: it reproduces an empty table. *)
Definition zero_net : NNAgent nat := mkNNAgent flap_actions (fun _ => Ret [0; 0]).
(** A network that prefers flapping by a margin of 1. *)
Definition flap_net : NNAgent nat := mkNNAgent flap_actions (fun _ => Ret [1; 0]).


(** ** Properties *)

Section Proofs.
Context {A : Type} `{EqDecision A}.

Lemma get_state_eq (st : game_state) : get_state st = discretize_state st.
Proof. reflexivity. Qed.

(** C20: Refinement of the greedy table agent.  If the network agent has
    the same actions as a table agent with [epsilon <= 0], and on the
    discretized state the network outputs exactly the row the table
    agent reads (the stored row, or zeros for an unseen state), then the
    network agent's [act] has the outcome of the table agent's [act] for
    every generator state: the same action, or the same exception. *)
Theorem nn_act_refines_greedy {G} `{NpRandomLaws G} (nn : NNAgent A) (self : QAgent A)
    (s : game_state) (g : G) :
  nn_actions nn = actions self -> epsilon self <= 0 ->
  (forall ds, discretize_state s = Ret ds ->
     model nn (features ds) = Ret (dd_getitem (width self) ds (q_table self)).1) ->
  nn_act nn s = (act s (self, g)).1.
Proof.
  intros Ha He Hm. unfold nn_act. rewrite get_state_eq.
  destruct (discretize_state s) as [ds|e] eqn:Hds.
  - rewrite (act_run s ds self g Hds).
    rewrite (proj2 (Qltb_false _ _)) by (pose proof (np_rand_range g); lra).
    cbn [obind fst]. by rewrite Hm, Ha.
  - unfold act, pbind, plift. by rewrite Hds.
Qed.

(** C21: Robustness of the network agent.  If on the discretized state the
    network's call returns a row within [delta] of the table row, entry by entry,
    and the row's entry [k] beats every other entry by more than
    [2 * delta], then the network agent returns action [k], the table's
    unique greedy choice. *)
Theorem nn_act_margin (nn : NNAgent A) (s : game_state) ds (out row : list Q) delta vk k :
  discretize_state s = Ret ds -> model nn (features ds) = Ret out ->
  Forall2 (fun x y => Qabs (x - y) <= delta) row out ->
  row !! k = Some vk ->
  (forall j x, j <> k -> row !! j = Some x -> x + 2 * delta < vk) ->
  nn_act nn s = py_getitem (nn_actions nn) k.
Proof.
  intros Hds Hout Hclose Hk Hgap. unfold nn_act. rewrite get_state_eq, Hds. cbn [obind].
  rewrite Hout. cbn [obind]. by rewrite (np_argmax_margin row _ delta vk k Hclose Hk Hgap).
Qed.

(** A network whose output on the features is a non-empty row no wider
    than the action list makes [act] return one of the actions. *)
Lemma nn_act_of_shape (nn : NNAgent A) (s : game_state) ds (y : list Q) :
  discretize_state s = Ret ds -> model nn (features ds) = Ret y ->
  y <> [] -> (length y <= length (nn_actions nn))%nat ->
  exists a, nn_act nn s = Ret a /\ a ∈ nn_actions nn.
Proof.
  intros Hds Hy Hne Hlen. unfold nn_act. rewrite get_state_eq, Hds. cbn [obind].
  rewrite Hy. cbn [obind].
  destruct (np_argmax_spec y Hne) as (i & m & Hi & _). rewrite Hi. cbn [obind].
  pose proof (np_argmax_lt y i Hi) as Hlt.
  destruct (py_getitem_lt (nn_actions nn) i ltac:(lia)) as (a & Ha & Ha').
  exists a. split; [done|]. by eapply list_elem_of_lookup_2.
Qed.

(** The features of a code are a row of five numbers. *)
Lemma features_length (c : code) : length (features c) = 5%nat.
Proof. by destruct c as [[[[? ?] ?] ?] ?]. Qed.

End Proofs.


(** ** Witnesses *)

Lemma nn_act_refines_greedy_witness :
  nn_act zero_net sample_state = (act sample_state (greedy0, 7%Z)).1.
Proof.
  apply (nn_act_refines_greedy zero_net greedy0 sample_state 7%Z);
    [reflexivity | apply Qle_bool_iff; reflexivity | intros ds _; reflexivity].
Defined.

Lemma nn_act_margin_witness :
  nn_act flap_net sample_state = py_getitem flap_actions 0.
Proof.
  apply (nn_act_margin flap_net sample_state code0 [1; 0] [9 # 10; 1 # 10] (1 # 4) (9 # 10) 0).
  - reflexivity.
  - reflexivity.
  - repeat (constructor; [apply Qle_bool_iff; reflexivity|]). constructor.
  - reflexivity.
  - intros [|[|j]] x Hj Hx; simpl in Hx; [done | injection Hx as <-; reflexivity | done].
Defined.

End NN.
