(* ===== verification/Train.v ===== *)
(** * The training script: from the pickled Q-table to a regression dataset

    src/train_q_nn.py, lines 7-20: the script loads the pickled table
    (nothing is caught), appends every [(state, q_values)] pair of
    [q_table.items()] to the lists [X] and [y], and turns them into numpy
    arrays.  The network definition and [model.fit] (lines 22-42) are
    Keras library calls and are not modelled.  The theorems show that the
    dataset is exactly the table the agent saved, that it is well formed
    when the table is, and when the script fails. *)

From Stdlib Require Import QArith Lqa.
From stdpp Require Import base list gmap strings.
From S2P Require Import Prelude Discretize QTable QAgent Persistence.

Open Scope Q_scope.

Module Train.
Import StateDiscretizer QTable DQAgent Persistence.

Definition QTABLE_PATH : string := "flappy_birds_q_table.pkl".

(** [with open(QTABLE_PATH, 'rb') as f: q_table = pickle.load(f)]. *)
Definition pickle_load (fs : filesystem) (path : string) : outcome qtable :=
  match fs !! path with
  | Some (PickledDict d) => Ret d
  | Some OtherBytes => Raise UnpicklingError
  | None => Raise FileNotFoundError
  end.

(** The loop [for state, q_values in q_table.items(): X.append(state);
    y.append(q_values)]. *)
Definition collect (items : list (code * list Q)) : list code * list (list Q) :=
  foldl (fun '(X, y) '(state, q_values) => (X ++ [state], y ++ [q_values])) ([], []) items.

(** [np.array(y)] of a list of rows: numpy refuses rows of different
    lengths ([ValueError: inhomogeneous shape]). *)
Definition np_array_2d (rows : list (list Q)) : outcome (list (list Q)) :=
  match rows with
  | [] => Ret []
  | r :: rs => if bool_decide (Forall (fun r' => length r' = length r) rs) then Ret rows
               else Raise ValueError
  end.

(** Lines 9-20: the arrays [X] and [y] the network is fitted on. *)
Definition training_data (fs : filesystem) : outcome (list code * list (list Q)) :=
  let? q_table := pickle_load fs QTABLE_PATH in
  let '(X, y) := collect (map_to_list q_table) in
  let? y' := np_array_2d y in
  Ret (X, y').


(** ** Concrete tables *)

(** A table of width 2 with one learned row, and a ragged one. *)
Definition table1 : qtable := {[code0 := [1; 0]]}.
Definition ragged_table : qtable := <[code1 := [1]]> {[code0 := [1; 0]]}.


(** ** Helper lemmas *)

Lemma collect_acc (items : list (code * list Q)) X0 y0 :
  foldl (fun '(X, y) '(state, q_values) => (X ++ [state], y ++ [q_values])) (X0, y0) items =
  (X0 ++ map fst items, y0 ++ map snd items).
Proof.
  revert X0 y0. induction items as [|[c v] items IH]; intros X0 y0; simpl.
  - by rewrite !app_nil_r.
  - by rewrite IH, <- !app_assoc.
Qed.

Lemma collect_spec (items : list (code * list Q)) :
  collect items = (map fst items, map snd items).
Proof. apply collect_acc. Qed.

(** [np.array] accepts the rows exactly when they all have one length. *)
Lemma np_array_2d_ok (rows : list (list Q)) :
  (forall r1 r2, r1 ∈ rows -> r2 ∈ rows -> length r1 = length r2) -> np_array_2d rows = Ret rows.
Proof.
  intros H. destruct rows as [|r rs]; [done|]. simpl. rewrite bool_decide_eq_true_2; [done|].
  apply Forall_forall. intros r' Hr'. apply H; [by right | by left].
Qed.

Lemma np_array_2d_raise (rows : list (list Q)) e :
  np_array_2d rows = Raise e <->
  e = ValueError /\ exists r1 r2, r1 ∈ rows /\ r2 ∈ rows /\ length r1 <> length r2.
Proof.
  destruct rows as [|r rs]; simpl.
  - split; [done|]. intros [_ (r1 & r2 & Hr1 & _)]. by apply not_elem_of_nil in Hr1.
  - case_bool_decide as Hall.
    + split; [done|]. intros [_ (r1 & r2 & Hr1 & Hr2 & Hne)]. exfalso. apply Hne.
      rewrite Forall_forall in Hall.
      apply elem_of_cons in Hr1 as [->|Hr1]; apply elem_of_cons in Hr2 as [->|Hr2];
        [done | symmetry; by apply Hall | by apply Hall | by rewrite (Hall r1), (Hall r2)].
    + split; [intros [= <-]|intros [-> _]; done]. split; [done|].
      apply not_Forall_Exists in Hall; [|intros x; apply _].
      apply Exists_exists in Hall as (r' & Hr' & Hne).
      exists r', r. split; [by right|]. split; [by left | done].
Qed.


(** ** Properties *)

(** C36: The dataset is the saved table.  After the agent saves a table of
    width [n] to [QTABLE_PATH], the script builds [X] and [y] without
    error; [X] lists every key once, and the pairs [(X[i], y[i])] are
    exactly the entries of the table, every row of width [n]. *)
Theorem training_data_of_saved {A} `{EqDecision A} (self : QAgent A) (fs : filesystem) (n : nat) :
  table_wf n (q_table self) ->
  exists X y,
    training_data (save_q_table QTABLE_PATH self fs) = Ret (X, y) /\
    NoDup X /\ length X = length y /\ Forall (fun r => length r = n) y /\
    (forall c v, q_table self !! c = Some v <-> exists i, X !! i = Some c /\ y !! i = Some v).
Proof.
  intros Hwf. set (l := map_to_list (q_table self)).
  assert (Hrows : forall r, r ∈ map snd l -> length r = n).
  { intros r ([c v] & -> & Hcv)%list_elem_of_fmap. apply elem_of_map_to_list in Hcv.
    exact (Hwf c v Hcv). }
  exists (map fst l), (map snd l).
  rewrite save_q_table_eq. unfold training_data, pickle_load, dict_of_defaultdict.
  rewrite lookup_insert_eq. cbn [obind]. rewrite collect_spec. fold l.
  rewrite np_array_2d_ok by (intros r1 r2 H1 H2; by rewrite (Hrows r1 H1), (Hrows r2 H2)).
  split; [done|]. split; [apply NoDup_fst_map_to_list|]. split; [by rewrite !length_map|].
  split; [by apply Forall_forall|].
  intros c v. rewrite <- elem_of_map_to_list. fold l. rewrite list_elem_of_lookup. split.
  - intros [i Hi]. exists i. by rewrite !list_lookup_fmap, Hi.
  - intros (i & Hc & Hv). exists i.
    rewrite list_lookup_fmap in Hc. rewrite list_lookup_fmap in Hv.
    destruct (l !! i) as [[c' v']|]; simplify_eq/=. done.
Qed.

(** C37: The script fails with [ValueError] exactly when the pickled table
    has two rows of different lengths ([np.array(y)] refuses a ragged
    list), e.g. a table filled by agents with different action counts. *)
Theorem training_data_ragged (fs : filesystem) (t : qtable) :
  fs !! QTABLE_PATH = Some (PickledDict t) ->
  training_data fs = Raise ValueError <->
  exists c1 c2 v1 v2, t !! c1 = Some v1 /\ t !! c2 = Some v2 /\ length v1 <> length v2.
Proof.
  intros Hfs. unfold training_data, pickle_load. rewrite Hfs. cbn [obind].
  rewrite collect_spec. destruct (np_array_2d _) as [y|e] eqn:Hy; cbn [obind].
  - split; [done|]. intros (c1 & c2 & v1 & v2 & H1 & H2 & Hne).
    assert (Hraise : np_array_2d (map snd (map_to_list t)) = Raise ValueError); [|congruence].
    apply np_array_2d_raise. split; [done|]. exists v1, v2.
    split; [apply list_elem_of_fmap; exists (c1, v1); by rewrite elem_of_map_to_list|].
    split; [apply list_elem_of_fmap; exists (c2, v2); by rewrite elem_of_map_to_list | done].
  - apply np_array_2d_raise in Hy as [-> (r1 & r2 & H1 & H2 & Hne)]. split; [intros _|done].
    apply list_elem_of_fmap in H1 as ([c1 v1] & -> & H1).
    apply list_elem_of_fmap in H2 as ([c2 v2] & -> & H2).
    apply elem_of_map_to_list in H1, H2. by exists c1, c2, v1, v2.
Qed.

(** ** Witnesses *)

Lemma training_data_of_saved_witness :
  exists X y,
    training_data (save_q_table QTABLE_PATH (set_q_table agent0 table1) ∅) = Ret (X, y) /\
    NoDup X /\ length X = length y /\ Forall (fun r => length r = 2%nat) y /\
    (forall c v, table1 !! c = Some v <-> exists i, X !! i = Some c /\ y !! i = Some v).
Proof.
  apply (training_data_of_saved (set_q_table agent0 table1) ∅ 2).
  by apply map_Forall_singleton.
Defined.

Lemma training_data_ragged_witness :
  training_data {[QTABLE_PATH := PickledDict ragged_table]} = Raise ValueError <->
  exists c1 c2 v1 v2, ragged_table !! c1 = Some v1 /\ ragged_table !! c2 = Some v2 /\
                      length v1 <> length v2.
Proof. apply training_data_ragged. reflexivity. Defined.

End Train.
