(* ===== verification/Network.v ===== *)
(** * The Keras model: its layers, the training script, and its loading

    src/train_q_nn.py (lines 22-41) builds
    [keras.Sequential([layers.Input(shape=(5,)), layers.Dense(15,
    activation='relu'), layers.Dense(2, activation='linear')])], fits it
    on the arrays built from the pickled table and saves it as
    [flappy_q_nn_model.keras]; [NNAgent.__init__]
    (src/agentes/nn_agent.py, lines 10-13) loads that file.  This file
    models a [Dense] layer's call ([activation(x @ kernel + bias)], with
    the shape checks that make Keras raise [ValueError]), the
    [Sequential] model as the chain of its layers behind the [Input]
    check, the building and fitting of the weights as an interface
    ([Keras], with the laws [KerasLaws]: both keep the architecture), the
    script's lines 7-41 as [train_script], and the constructor of the
    network agent.  The lemmas give the output shape of a model of a
    given architecture and the layer's call against its textbook
    definition; the theorems give the composition of the script and the
    agent: the agent built from the saved archive calls the model [fit]
    returned and answers every discretizable state with one of its two
    actions, and nothing is saved at the SavedModel directory the
    script's last line announces. *)

From Stdlib Require Import QArith Lqa.
From stdpp Require Import base list gmap strings.
From S2P Require Import Prelude Discretize QTable QAgent NNAgent Train Persistence.

Open Scope Q_scope.

Module Network.
Import StateDiscretizer QTable DQAgent NN Train Persistence.

(** ** Layers *)

(** The two activations the script uses. *)
Inductive activation : Type :=
  | Relu
  | Linear.

#[export] Instance activation_eq_dec : EqDecision activation.
Proof. solve_decision. Defined.

(** [keras.activations.relu]: [max(x, 0)]. *)
Definition relu (x : Q) : Q := if Qle_bool x 0 then 0 else x.

Definition activate (a : activation) (x : Q) : Q :=
  match a with
  | Relu => relu x
  | Linear => x
  end.

(** A [Dense] layer's weights: [kernel] has one row per input (shape
    [(n_in, units)]), [bias] one entry per unit. *)
Record Dense : Type := mkDense {
  kernel : list (list Q);
  bias : list Q
}.

(** [acc + a * w], entry by entry. *)
Definition vec_axpy (a : Q) (w acc : list Q) : list Q :=
  zip_with (fun ai wi => ai + a * wi) acc w.

(** [Dense.call]: [activation(x @ kernel + bias)], the product
    accumulated row by row of the kernel; an input whose width is not
    the kernel's number of rows is refused with [ValueError]. *)
Definition dense_call (act : activation) (l : Dense) (x : list Q) : outcome (list Q) :=
  if bool_decide (length x = length (kernel l)) then
    Ret (map (activate act)
           (foldl (fun acc '(xi, wi) => vec_axpy xi wi acc) (bias l) (zip x (kernel l))))
  else Raise ValueError.

(** A [keras.Sequential] model: the width its [Input] layer accepts and
    its layers in order. *)
Record Sequential : Type := mkSequential {
  input_dim : nat;
  seq_layers : list (activation * Dense)
}.

Fixpoint layers_call (ls : list (activation * Dense)) (x : list Q) : outcome (list Q) :=
  match ls with
  | [] => Ret x
  | (a, l) :: ls' => let? h := dense_call a l x in layers_call ls' h
  end.

(** [model(x)] on one row: the [Input] layer checks the width, then
    the layers run in order. *)
Definition seq_call (m : Sequential) (x : list Q) : outcome (list Q) :=
  if bool_decide (length x = input_dim m) then layers_call (seq_layers m) x
  else Raise ValueError.

(** ** Architectures *)

(** An architecture: the units and the activation of each [Dense]
    layer.  The script's: [Dense(15, 'relu')], then [Dense(2, 'linear')]. *)
Definition flappy_arch : list (nat * activation) := [(15%nat, Relu); (2%nat, Linear)].

Definition dense_wf (n_in units : nat) (l : Dense) : Prop :=
  length (kernel l) = n_in /\ Forall (fun w => length w = units) (kernel l) /\
  length (bias l) = units.

Fixpoint layers_wf (n_in : nat) (arch : list (nat * activation))
    (ls : list (activation * Dense)) : Prop :=
  match arch, ls with
  | [], [] => True
  | (u, a) :: arch', (a', l) :: ls' => a' = a /\ dense_wf n_in u l /\ layers_wf u arch' ls'
  | _, _ => False
  end.

(** A model of architecture [arch] on inputs of width [n_in]. *)
Definition seq_wf (n_in : nat) (arch : list (nat * activation)) (m : Sequential) : Prop :=
  input_dim m = n_in /\ layers_wf n_in arch (seq_layers m).

(** The width of the output: the units of the last layer. *)
Definition out_dim (n_in : nat) (arch : list (nat * activation)) : nat :=
  default n_in (last (map fst arch)).

(** ** The layer as written in the textbook *)

(** [sum_i x_i * w_i], accumulated from the left. *)
Definition dotprod (x w : list Q) : Q := foldl Qplus 0 (zip_with Qmult x w).

(** Column [j] of the kernel: the weights from every input to unit [j]. *)
Definition column (l : Dense) (j : nat) : list Q := map (fun w => default 0 (w !! j)) (kernel l).

(** Unit [j] of the layer is [activation(bias_j + x . column_j)]. *)
Definition dense_ref (act : activation) (l : Dense) (x : list Q) : list Q :=
  imap (fun j bj => activate act (bj + dotprod x (column l j))) (bias l).

(** ** Building, fitting and saving the model *)

(** What the script asks of Keras: [keras.Sequential([...])] builds a
    model of an architecture with freshly initialised weights, and
    [model.fit(X, y, epochs, batch_size)] returns the trained model or
    raises.  [model.compile] only chooses the optimiser and the loss,
    which [fit] is free to use. *)
Class Keras := {
  keras_build : nat -> list (nat * activation) -> Sequential;
  keras_fit : Sequential -> list (list Q) -> list (list Q) -> nat -> nat -> outcome Sequential
}.

(** Building and training change the weights, never the architecture. *)
Class KerasLaws `{Keras} := {
  keras_build_wf : forall n arch, seq_wf n arch (keras_build n arch);
  keras_fit_wf : forall n arch m X y epochs batch_size m',
    seq_wf n arch m -> keras_fit m X y epochs batch_size = Ret m' -> seq_wf n arch m'
}.

(** The saved [.keras] archives, by path. *)
Abbreviation model_files := (gmap string Sequential).

Definition MODEL_PATH : string := "flappy_q_nn_model.keras".

(** Where the script's last line says the model went:
    [print('Modelo guardado como TensorFlow SavedModel en flappy_q_nn_model/')]. *)
Definition SAVED_MODEL_DIR : string := "flappy_q_nn_model/".

(** Lines 7-41 of the script: the dataset, the model, [fit], [save]. *)
Definition train_script `{Keras} (fs : filesystem) (models : model_files) : outcome model_files :=
  let? Xy := training_data fs in
  let '(X, y) := Xy in
  let model := keras_build 5 flappy_arch in
  let? model' := keras_fit model (map features X) y 200 32 in
  Ret (<[MODEL_PATH := model']> models).

(** [NNAgent.__init__(actions, game=None, model_path)]: the base class
    stores the actions, [tf.keras.models.load_model] loads the archive
    (a missing file is a [ValueError] of Keras). *)
Definition NNAgent_init {A} (actions : list A) (models : model_files) (model_path : string)
    : outcome (NNAgent A) :=
  match models !! model_path with
  | Some m => Ret (mkNNAgent actions (seq_call m))
  | None => Raise ValueError
  end.

Definition NNAgent_init_default {A} (actions : list A) (models : model_files) : outcome (NNAgent A) :=
  NNAgent_init actions models MODEL_PATH.


(** ** Concrete models *)

(** A layer of zeros, as [keras.initializers.Zeros] builds it. *)
Definition zero_dense (n_in u : nat) : Dense :=
  mkDense (replicate n_in (replicate u 0)) (replicate u 0).

Fixpoint zero_layers (n_in : nat) (arch : list (nat * activation)) : list (activation * Dense) :=
  match arch with
  | [] => []
  | (u, a) :: arch' => (a, zero_dense n_in u) :: zero_layers u arch'
  end.

(** A Keras that initialises every weight to zero and whose [fit]
    keeps the weights: the least a backend can do. *)
#[export] Instance keras_zero : Keras := {
  keras_build n arch := mkSequential n (zero_layers n arch);
  keras_fit m X y epochs batch_size := Ret m
}.

(** A one-layer model on two inputs: [relu(x0 + 2 x1, 1 - x0)]. *)
Definition small_layer : Dense := mkDense [[1; -1]; [2; 0]] [0; 1].
Definition small_model : Sequential := mkSequential 2 [(Relu, small_layer)].

(** The file system of the training run: the pickled one-row table. *)
Definition fs_trained : filesystem := {[QTABLE_PATH := PickledDict table1]}.


(** ** Shapes *)

Lemma vec_axpy_length (a : Q) (w acc : list Q) :
  length (vec_axpy a w acc) = Nat.min (length acc) (length w).
Proof. apply length_zip_with. Qed.

(** The accumulation of [x @ kernel + bias] keeps the width of the bias
    when every row of the kernel has that width. *)
Lemma foldl_axpy_length (u : nat) (x : list Q) (W : list (list Q)) (acc : list Q) :
  Forall (fun w => length w = u) W -> length acc = u ->
  length (foldl (fun acc '(xi, wi) => vec_axpy xi wi acc) acc (zip x W)) = u.
Proof.
  revert W acc. induction x as [|xi x IH]; intros [|w W] acc HW Hacc; simpl; try done.
  apply Forall_cons in HW as [Hw HW]. apply IH; [done|].
  rewrite vec_axpy_length. lia.
Qed.

Lemma dense_call_shape (n u : nat) (a : activation) (l : Dense) (x : list Q) :
  dense_wf n u l -> length x = n ->
  exists y, dense_call a l x = Ret y /\ length y = u.
Proof.
  intros (Hk & Hrows & Hb) Hx. unfold dense_call.
  rewrite bool_decide_true by lia. eexists. split; [reflexivity|].
  rewrite length_map. by apply foldl_axpy_length.
Qed.

Lemma out_dim_cons (n u : nat) (a : activation) (arch : list (nat * activation)) :
  out_dim n ((u, a) :: arch) = out_dim u arch.
Proof.
  unfold out_dim. cbn [map]. destruct (map fst arch) as [|v vs] eqn:E; [done|].
  rewrite last_cons, <- E. by destruct (last (map fst arch)) eqn:El;
    [|apply last_None in El; rewrite El in E].
Qed.

Lemma layers_call_shape (n : nat) (arch : list (nat * activation))
    (ls : list (activation * Dense)) (x : list Q) :
  layers_wf n arch ls -> length x = n ->
  exists y, layers_call ls x = Ret y /\ length y = out_dim n arch.
Proof.
  revert n ls x. induction arch as [|[u a] arch IH]; intros n [|[a' l] ls] x Hwf Hx;
    simpl in Hwf; try done.
  - by exists x.
  - destruct Hwf as (-> & Hl & Hls).
    destruct (dense_call_shape n u a l x Hl Hx) as (h & Hh & Hlen).
    simpl. rewrite Hh. cbn [obind]. rewrite out_dim_cons. by apply IH.
Qed.

(** ** The layer against its textbook definition *)

#[export] Instance activate_proper : Proper (eq ==> Qeq ==> Qeq) activate.
Proof.
  intros a ? <- x y Hxy. destruct a; simpl; [|done]. unfold relu.
  destruct (Qle_bool x 0) eqn:Ex, (Qle_bool y 0) eqn:Ey; try done;
    [apply Qle_bool_iff in Ex; rewrite Hxy in Ex; apply Qle_bool_iff in Ex; congruence
    | apply Qle_bool_iff in Ey; rewrite <- Hxy in Ey; apply Qle_bool_iff in Ey; congruence].
Qed.

(** A left fold of sums started at [c] is [c] plus the fold started at 0. *)
Lemma foldl_Qplus_shift (c : Q) (l : list Q) : foldl Qplus c l == c + foldl Qplus 0 l.
Proof.
  revert c. induction l as [|a l IH]; intros c; simpl; [ring|].
  rewrite (IH (c + a)), (IH (0 + a)). ring.
Qed.

(** One row of the accumulation, read unit by unit. *)
Lemma imap_vec_axpy {B} (f : nat -> Q -> B) (xi : Q) (wi acc : list Q) :
  length wi = length acc ->
  imap f (vec_axpy xi wi acc) = imap (fun j aj => f j (aj + xi * default 0 (wi !! j))) acc.
Proof.
  intros Hlen. apply list_eq. intros j. rewrite !list_lookup_imap. unfold vec_axpy.
  rewrite lookup_zip_with. destruct (acc !! j) as [aj|] eqn:Ea; simpl.
  - destruct (lookup_lt_is_Some_2 wi j) as [w Hw];
      [rewrite Hlen; by eapply lookup_lt_Some|]. by rewrite Hw.
  - done.
Qed.

(** The accumulation computes, for every unit [j], the left fold of
    [x_i * kernel_i_j] started at the unit's initial value. *)
Lemma foldl_axpy_units (u : nat) (x : list Q) (W : list (list Q)) (acc : list Q) :
  Forall (fun w => length w = u) W -> length acc = u -> length x = length W ->
  foldl (fun acc '(xi, wi) => vec_axpy xi wi acc) acc (zip x W) =
  imap (fun j aj => foldl Qplus aj (zip_with Qmult x (map (fun w => default 0 (w !! j)) W))) acc.
Proof.
  revert W acc. induction x as [|xi x IH]; intros [|w W] acc HW Hacc Hx; simpl in *; try lia.
  - apply list_eq. intros j. rewrite list_lookup_imap. by destruct (acc !! j).
  - apply Forall_cons in HW as [Hw HW].
    rewrite (IH W); [|done | rewrite vec_axpy_length; lia | lia].
    rewrite (imap_vec_axpy (fun j aj => foldl Qplus aj _)) by lia. done.
Qed.

(** ** The script and the agent *)

(** A successful run of the script: the dataset it built, the model
    [fit] returned, and the archive written. *)
Lemma train_script_run `{Keras} (fs : filesystem) (models models' : model_files) :
  train_script fs models = Ret models' ->
  exists X y m, training_data fs = Ret (X, y) /\
    keras_fit (keras_build 5 flappy_arch) (map features X) y 200 32 = Ret m /\
    models' = <[MODEL_PATH := m]> models.
Proof.
  unfold train_script. destruct (training_data fs) as [[X y]|e]; [|done]. cbn [obind].
  destruct (keras_fit _ _ _ _ _) as [m|e] eqn:Hm; [|done]. cbn [obind].
  intros [= <-]. by exists X, y, m.
Qed.

Lemma trained_model_wf `{KerasLaws} X y m :
  keras_fit (keras_build 5 flappy_arch) X y 200 32 = Ret m -> seq_wf 5 flappy_arch m.
Proof. intros Hm. eapply keras_fit_wf; [apply keras_build_wf | exact Hm]. Qed.

(** A model of the script's architecture answers a row of five features
    with a row of two outputs. *)
Lemma flappy_model_call (m : Sequential) (c : code) :
  seq_wf 5 flappy_arch m -> exists y, seq_call m (features c) = Ret y /\ length y = 2%nat.
Proof.
  intros [Hin Hls]. unfold seq_call. rewrite features_length, Hin, bool_decide_true by done.
  exact (layers_call_shape 5 flappy_arch _ _ Hls (features_length c)).
Qed.

(** ** Properties *)

(** The output shape of a model.  A [Sequential] model of
    architecture [arch] on inputs of width [n] answers every row of
    width [n] with a row of the last layer's width, and refuses a row
    of any other width with [ValueError] (the [Input] layer's check). *)
Lemma seq_call_shape (n : nat) (arch : list (nat * activation)) (m : Sequential) (x : list Q) :
  seq_wf n arch m ->
  (length x = n -> exists y, seq_call m x = Ret y /\ length y = out_dim n arch) /\
  (length x <> n -> seq_call m x = Raise ValueError).
Proof.
  intros [Hin Hls]. unfold seq_call. rewrite Hin. split; intros Hx.
  - rewrite bool_decide_true by done. by apply layers_call_shape.
  - by rewrite bool_decide_false.
Qed.

(** The [Dense] layer computes what its documentation says: on an
    input of the kernel's height, unit [j] of the output equals
    [activation(bias_j + sum_i x_i * kernel_i_j)]. *)
Lemma dense_call_ref (n u : nat) (a : activation) (l : Dense) (x : list Q) :
  dense_wf n u l -> length x = n ->
  exists y, dense_call a l x = Ret y /\ Forall2 Qeq y (dense_ref a l x).
Proof.
  intros (Hk & Hrows & Hb) Hx. unfold dense_call. rewrite bool_decide_true by lia.
  eexists. split; [reflexivity|].
  rewrite (foldl_axpy_units u) by (done || lia).
  apply Forall2_lookup. intros j. unfold dense_ref.
  rewrite list_lookup_fmap, !list_lookup_imap. destruct (bias l !! j) as [bj|]; constructor.
  apply activate_proper; [done|]. apply foldl_Qplus_shift.
Qed.

(** C19: Round trip from the script to the agent.  After a successful
    run of the training script, the network agent built with the default
    [model_path] calls exactly the model [fit] returned on the dataset
    of the pickled table, a model of the script's architecture; the
    other archives are untouched.  In particular nothing is written at
    [flappy_q_nn_model/], the SavedModel directory the script's final
    message names: an agent built from that path raises as before. *)
Theorem trained_agent_loads `{KerasLaws} {A} (fs : filesystem) (models models' : model_files)
    (acts : list A) :
  train_script fs models = Ret models' ->
  exists X y m, training_data fs = Ret (X, y) /\
    keras_fit (keras_build 5 flappy_arch) (map features X) y 200 32 = Ret m /\
    NNAgent_init_default acts models' = Ret (mkNNAgent acts (seq_call m)) /\
    seq_wf 5 flappy_arch m /\
    (forall p, p <> MODEL_PATH -> models' !! p = models !! p) /\
    (models !! SAVED_MODEL_DIR = None -> NNAgent_init acts models' SAVED_MODEL_DIR = Raise ValueError).
Proof.
  intros Hrun. destruct (train_script_run fs models models' Hrun) as (X & y & m & HXy & Hm & ->).
  exists X, y, m. split; [done|]. split; [done|].
  split; [unfold NNAgent_init_default, NNAgent_init; by rewrite lookup_insert_eq|].
  split; [by eapply trained_model_wf|]. split; [intros p Hp; by rewrite lookup_insert_ne|].
  intros Hnone. unfold NNAgent_init. by rewrite lookup_insert_ne, Hnone.
Qed.

(** C18: The trained agent is safe.  For every Keras that keeps the
    architecture, after a successful run of the script, the network
    agent built from the saved model with two actions (the game's flap
    and no-op) exists, and on every game state that discretizes it
    returns one of its actions: the model's output row has exactly two
    entries, so neither [np.argmax] nor [self.actions[i]] can raise. *)
Theorem trained_agent_safe `{KerasLaws} {A} (fs : filesystem) (models models' : model_files)
    (acts : list A) :
  train_script fs models = Ret models' -> length acts = 2%nat ->
  exists nn, NNAgent_init_default acts models' = Ret nn /\
    forall (s : game_state) ds, discretize_state s = Ret ds ->
      exists a, nn_act nn s = Ret a /\ a ∈ acts.
Proof.
  intros Hrun Hacts. destruct (train_script_run fs models models' Hrun) as (X & y & m & _ & Hm & ->).
  eexists. split; [unfold NNAgent_init_default, NNAgent_init; by rewrite lookup_insert_eq|].
  intros s ds Hds.
  destruct (flappy_model_call m ds (trained_model_wf _ _ m Hm)) as (out & Hout & Hlen).
  apply (nn_act_of_shape (mkNNAgent acts (seq_call m)) s ds out Hds Hout);
    [by intros ->|cbn [nn_actions]; lia].
Qed.

Lemma zero_layers_wf (n : nat) (arch : list (nat * activation)) : layers_wf n arch (zero_layers n arch).
Proof.
  revert n. induction arch as [|[u a] arch IH]; intros n; simpl; [done|].
  split; [done|]. split; [|apply IH].
  unfold dense_wf, zero_dense; simpl. rewrite !length_replicate.
  split; [done|]. split; [apply Forall_replicate, length_replicate | done].
Qed.

#[export] Instance keras_zero_laws : KerasLaws.
Proof.
  split.
  - intros n arch. split; [done | apply zero_layers_wf].
  - intros n arch m X y e b m' Hm [= <-]. done.
Qed.


(** ** Witnesses *)

Lemma trained_agent_loads_witness :
  exists X y m, training_data fs_trained = Ret (X, y) /\
    keras_fit (keras_build 5 flappy_arch) (map features X) y 200 32 = Ret m /\
    NNAgent_init_default flap_actions (<[MODEL_PATH := keras_build 5 flappy_arch]> ∅) =
      Ret (mkNNAgent flap_actions (seq_call m)) /\
    seq_wf 5 flappy_arch m /\
    (forall p, p <> MODEL_PATH ->
       (<[MODEL_PATH := keras_build 5 flappy_arch]> ∅ : model_files) !! p = (∅ : model_files) !! p) /\
    ((∅ : model_files) !! SAVED_MODEL_DIR = None ->
     NNAgent_init flap_actions (<[MODEL_PATH := keras_build 5 flappy_arch]> ∅) SAVED_MODEL_DIR = Raise ValueError).
Proof. apply (trained_agent_loads fs_trained ∅ _ flap_actions). reflexivity. Defined.

Lemma trained_agent_safe_witness :
  exists nn, NNAgent_init_default flap_actions (<[MODEL_PATH := keras_build 5 flappy_arch]> ∅) = Ret nn /\
    forall (s : game_state) ds, discretize_state s = Ret ds ->
      exists a, nn_act nn s = Ret a /\ a ∈ flap_actions.
Proof. apply (trained_agent_safe fs_trained ∅ _ flap_actions); reflexivity. Defined.

End Network.
